(** * RAG-Agent: the orchestration pipeline, the index cache and the
      request handlers, embedded from [rag-chain.ts] and [server.ts].

    External collaborators (LLM completion service, retriever, document
    loader and embedding service, timers, [Math.random]) are oracles: a
    record of functions that gives the outcome of every call the source
    makes.  Every call is also logged, so that "this service was not
    called" is a statement about the log. *)

From Stdlib Require Import String Ascii NArith ZArith QArith Qround.
From Stdlib Require Import Sorted Permutation.
From stdpp Require Import gmap strings list fin_maps.

Local Open Scope string_scope.
Local Open Scope list_scope.

(** ** JavaScript strings

    A string is a sequence of code units; the code units of this model are
    the 256 values of [ascii] (the Latin-1 range of UTF-16). *)
Module JsString.

(** [String.prototype.toLowerCase] on one code unit: A-Z, and the Latin-1
    capitals U+00C0..U+00DE without the multiplication sign U+00D7. *)
Definition lowerChar (c : ascii) : ascii :=
  let n := N_of_ascii c in
  if ((65 <=? n) && (n <=? 90)
      || (192 <=? n) && (n <=? 222) && negb (n =? 215))%N
  then ascii_of_N (n + 32) else c.

Fixpoint toLowerCase (s : string) : string :=
  match s with
  | EmptyString => EmptyString
  | String c s' => String (lowerChar c) (toLowerCase s')
  end.

(** White space and line terminators below 256: TAB, LF, VT, FF, CR,
    SP and NBSP. *)
Definition isWhiteSpace (c : ascii) : bool :=
  let n := N_of_ascii c in
  ((9 <=? n) && (n <=? 13) || (n =? 32) || (n =? 160))%N.

Fixpoint trimStart (s : string) : string :=
  match s with
  | EmptyString => EmptyString
  | String c s' => if isWhiteSpace c then trimStart s' else s
  end.

Fixpoint trimEnd (s : string) : string :=
  match s with
  | EmptyString => EmptyString
  | String c s' =>
      match trimEnd s' with
      | EmptyString => if isWhiteSpace c then EmptyString else String c EmptyString
      | t => String c t
      end
  end.

Definition trim (s : string) : string := trimEnd (trimStart s).

(** [s.includes(sub)] *)
Fixpoint includes (sub s : string) : bool :=
  String.prefix sub s
  || match s with
     | EmptyString => false
     | String _ s' => includes sub s'
     end.

(** [s.startsWith(p)] *)
Definition startsWith (p s : string) : bool := String.prefix p s.

(** [s.substring(0, n)] *)
Definition substring0 (n : nat) (s : string) : string := String.substring 0 n s.

(** [arr.join(sep)] on an array of strings *)
Definition join (sep : string) (arr : list string) : string := String.concat sep arr.

(** [Array.prototype.sort] with the default comparator on an array of
    strings: ascending by code units.  Equal strings are the same
    primitive value, so the algorithm does not show in the result; an
    insertion sort stands for it. *)
Fixpoint insertSorted (x : string) (l : list string) : list string :=
  match l with
  | [] => [x]
  | y :: l' => if String.leb x y then x :: l else y :: insertSorted x l'
  end.

Fixpoint sort (l : list string) : list string :=
  match l with
  | [] => []
  | x :: l' => insertSorted x (sort l')
  end.

(** The order of the default comparator. *)
Definition codeUnitLe (a b : string) : Prop := String.leb a b = true.

(** Truthiness of a string: only the empty string is falsy. *)
Definition truthy (s : string) : bool := negb (s =? "").

End JsString.

(** ** Outcomes of awaited calls, and the log of external calls *)

Record JsError := { message : string }.

Inductive outcome (A : Type) :=
| Resolved (a : A)
| Rejected (e : JsError).
Arguments Resolved {A} a.
Arguments Rejected {A} e.

Record Document := { pageContent : string; source : string }.

(** A [MemoryVectorStore] object; [storeId] is the identity of the object
    ([new MemoryVectorStore] makes a fresh one at every build). *)
Record MemoryVectorStore := { storeId : nat }.

#[global] Instance JsError_eq_dec : EqDecision JsError.
Proof. solve_decision. Defined.
#[global] Instance Document_eq_dec : EqDecision Document.
Proof. solve_decision. Defined.
#[global] Instance MemoryVectorStore_eq_dec : EqDecision MemoryVectorStore.
Proof. solve_decision. Defined.

Record Turn := { role : string; content : string }.

(** Values held in the fields of the pipeline state. *)
Inductive value :=
| VStr (s : string)
| VStrs (l : list string)
| VDocs (l : list Document)
| VHistory (l : list Turn)
| VModel
| VStore (s : MemoryVectorStore).

#[global] Instance Turn_eq_dec : EqDecision Turn.
Proof. solve_decision. Defined.
#[global] Instance value_eq_dec : EqDecision value.
Proof. solve_decision. Defined.

(** The execution trace: cache operations, calls to external services, and
    the nodes of the graph (with the state a node starts on and the state
    after its update is merged). *)
Inductive Event :=
| NodeStart (name : string) (state : gmap string value)
| NodeEnd (name : string) (state : gmap string value)
| CacheHas (key : string)
| CacheGet (key : string)
| CacheSet (key : string) (store : MemoryVectorStore)
| BuildVectorStore (urls : list string)
| Retrieve (store : MemoryVectorStore) (k : nat) (question : string)
| CreateModel
| DocGrade (question document : string)
| Generate (historyContext context question : string)
| AnswerGrade (question answer : string).

#[global] Instance Event_eq_dec : EqDecision Event.
Proof. solve_decision. Defined.

(** The events that mark a node of the graph. *)
Definition isNodeEvent (e : Event) : bool :=
  match e with
  | NodeStart _ _ | NodeEnd _ _ => true
  | _ => false
  end.

(** The calls of the answer-generation chain. *)
Definition isGenerate (e : Event) : bool :=
  match e with
  | Generate _ _ _ => true
  | _ => false
  end.

(** The value of a fulfilled promise, if it is fulfilled. *)
Definition resolved {A} (o : outcome A) : option A :=
  match o with
  | Resolved a => Some a
  | Rejected _ => None
  end.

(** The nodes that a trace starts, in order. *)
Fixpoint nodesRun (l : list Event) : list string :=
  match l with
  | [] => []
  | NodeStart name _ :: l' => name :: nodesRun l'
  | _ :: l' => nodesRun l'
  end.

Definition Eff (A : Type) : Type := list Event * outcome A.

Definition ret {A} (a : A) : Eff A := ([], Resolved a).

Definition bind {A B} (m : Eff A) (k : A -> Eff B) : Eff B :=
  match m with
  | (l, Resolved a) => let '(l', r) := k a in (l ++ l', r)
  | (l, Rejected e) => (l, Rejected e)
  end.

Definition log (e : Event) : Eff unit := ([e], Resolved tt).

Definition throw {A} (e : JsError) : Eff A := ([], Rejected e).

Notation "'let*' x ':=' m 'in' k" := (bind m (fun x => k))
  (at level 10, x pattern, m at level 100, k at level 200).

(** Lookup in a table keyed by strings (the first entry of a key). *)
Fixpoint assocGet {A} (k : string) (l : list (string * A)) : option A :=
  match l with
  | [] => None
  | (k', a) :: l' => if k =? k' then Some a else assocGet k l'
  end.

(** ** rag-chain.ts *)
Module RagChain.
Import JsString.

(** The external services, as the outcome of each call.  The document
    grader chain is invoked once per document; its first argument is the
    position of the call in the loop, since the service may answer the
    same prompt differently. *)
Record Services := {
  newChatOpenAI : outcome unit;
  loadSplitEmbed : list string -> outcome MemoryVectorStore;
  retrieverInvoke : MemoryVectorStore -> nat -> string -> outcome (list Document);
  docGrader : nat -> string -> string -> outcome string;
  ragChain : string -> string -> string -> outcome string;
  graderChain : string -> string -> outcome string
}.

(** Field accesses on a state object; an absent key is [undefined]. *)
Definition question_of (state : gmap string value) : string :=
  match state !! "question" with Some (VStr q) => q | _ => "" end.

Definition generatedAnswer_of (state : gmap string value) : option string :=
  match state !! "generatedAnswer" with Some (VStr a) => Some a | _ => None end.

(** [state.documents ?? []] *)
Definition documents_of (state : gmap string value) : list Document :=
  match state !! "documents" with Some (VDocs l) => l | _ => [] end.

(** [state.conversationHistory ?? []] *)
Definition conversationHistory_of (state : gmap string value) : list Turn :=
  match state !! "conversationHistory" with Some (VHistory l) => l | _ => [] end.

(** [state.urls ?? []] *)
Definition urls_of (state : gmap string value) : list string :=
  match state !! "urls" with Some (VStrs l) => l | _ => [] end.

Definition noAnswerMessage : string :=
  "I couldn't find a relevant answer to your question. Can I assist you with anything else?".

Definition incompleteNote : string :=
  " (Note: This information may be incomplete based on available documents.)".

Definition nl : string := String "010"%char EmptyString.

Section WithServices.
Context (svc : Services).

Definition createModel : Eff value :=
  let* _ := log CreateModel in
  let* _ := ([], newChatOpenAI svc) in
  ret VModel.

(** [state.model ?? (await createModel())] *)
Definition modelOf (state : gmap string value) : Eff value :=
  match state !! "model" with
  | Some m => ret m
  | None => createModel
  end.

(** [!state.generatedAnswer || state.generatedAnswer.trim() === ""] *)
Definition blankAnswer (state : gmap string value) : bool :=
  match generatedAnswer_of state with
  | None => true
  | Some a => negb (truthy a) || (trim a =? "")
  end.

Definition gradeGeneratedAnswer (state : gmap string value) : Eff (gmap string value) :=
  let* _ := modelOf state in
  if blankAnswer state then
    ret {[ "gradeGeneratedAnswer" := VStr noAnswerMessage ]}
  else
    let answer := default "" (generatedAnswer_of state) in
    let* _ := log (AnswerGrade (question_of state) answer) in
    match graderChain svc (question_of state) answer with
    | Resolved result =>
        if trim (toLowerCase result) =? "no" then
          ret (<[ "generatedAnswer" := VStr (answer +:+ incompleteNote) ]> state)
        else ret state
    | Rejected _ => ret state
    end.

(** [conversationHistory.slice(-6)] *)
Definition lastSix (h : list Turn) : list Turn := drop (length h - 6) h.

Definition renderTurn (msg : Turn) : string :=
  (if role msg =? "user" then "User" else "Assistant") +:+ ": " +:+ content msg.

Definition generateAnswer (state : gmap string value) : Eff (gmap string value) :=
  let* _ := modelOf state in
  let documents := documents_of state in
  let conversationHistory := conversationHistory_of state in
  let historyContext :=
    if (0 <? length conversationHistory)%nat
    then join nl (map renderTurn (lastSix conversationHistory))
    else "" in
  let context := join (nl +:+ nl) (map pageContent documents) in
  let* _ := log (Generate historyContext context (question_of state)) in
  let* generatedAnswer := ([], ragChain svc historyContext context (question_of state)) in
  ret {[ "generatedAnswer" := VStr generatedAnswer ]}.

Definition hasRelevantDocs (state : gmap string value) : string :=
  if (length (documents_of state) =? 0)%nat then "no" else "yes".

(** The body of the loop of [documentGrader] on the document at position
    [i]: the document is pushed when the response contains "yes" after
    lower-casing, and in the [catch] of a failed call. *)
Definition passes (question : string) (entry : nat * Document) : bool :=
  match docGrader svc entry.1 question (substring0 1000 (pageContent entry.2)) with
  | Resolved result => includes "yes" (toLowerCase result)
  | Rejected _ => true
  end.

(** The [for (const doc of docs)] loop of [documentGrader]: the calls it
    makes and the documents pushed to [relevantDocs]. *)
Fixpoint gradeEach (question : string) (i : nat) (docs : list Document)
  : list Event * list Document :=
  match docs with
  | [] => ([], [])
  | doc :: rest =>
      let '(evs, relevantDocs) := gradeEach question (S i) rest in
      (DocGrade question (substring0 1000 (pageContent doc)) :: evs,
       if passes question (i, doc) then doc :: relevantDocs else relevantDocs)
  end.

(** Lines 177-180: when no document passed and there are documents,
    [relevantDocs.push(...docs.slice(0, Math.min(3, docs.length)))]. *)
Definition keepTopIfNone (docs relevantDocs : list Document) : list Document :=
  if (length relevantDocs =? 0)%nat && (0 <? length docs)%nat
  then relevantDocs ++ take (Nat.min 3 (length docs)) docs
  else relevantDocs.

(** [state.model] is set, or [createModel()] succeeds. *)
Definition modelAvailable (state : gmap string value) : Prop :=
  is_Some (state !! "model") \/ newChatOpenAI svc = Resolved tt.

Definition documentGrader (state : gmap string value) : Eff (gmap string value) :=
  let docs := documents_of state in
  let* model := modelOf state in
  let* relevantDocs := (let '(evs, kept) := gradeEach (question_of state) 0 docs in
                        (evs, Resolved kept)) in
  let relevantDocs := keepTopIfNone docs relevantDocs in
  ret (<[ "model" := model ]> (<[ "documents" := VDocs relevantDocs ]> state)).

Definition buildVectorStore (urls : list string) : Eff MemoryVectorStore :=
  let* _ := log (BuildVectorStore urls) in
  ([], loadSplitEmbed svc urls).

Definition retrieve (store : MemoryVectorStore) (k : nat) (question : string)
  : Eff (list Document) :=
  let* _ := log (Retrieve store k question) in
  ([], retrieverInvoke svc store k question).

Definition retrieveDoc (urls : list string) (question : string) : Eff (list Document) :=
  let* vectorStoreInstance := buildVectorStore urls in
  retrieve vectorStoreInstance 10 question.

Definition retrieveDocNode (state : gmap string value) : Eff (gmap string value) :=
  let urls := urls_of state in
  match state !! "vectorStore" with
  | Some (VStore vectorStore) =>
      let* retrievedDocs := retrieve vectorStore 10 (question_of state) in
      ret {[ "documents" := VDocs retrievedDocs ]}
  | _ =>
      let* documents := retrieveDoc urls (question_of state) in
      ret {[ "documents" := VDocs documents ]}
  end.

Definition createModelNode (state : gmap string value) : Eff (gmap string value) :=
  let* model := createModel in
  ret {[ "model" := model ]}.

Definition formatDocuments (docs : list Document) : list string :=
  map pageContent docs.

(** *** The graph

    [StateGraph] belongs to the LangGraph library.  Its part used here:
    every channel of [GraphState] has a reducer and possibly a default;
    a node's returned object is merged channel by channel with the
    reducer, and keys that are not channels are dropped; after a node,
    the conditional edge of the node (if any) or its plain edge gives
    the next node; a run is limited to [recursionLimit] node steps. *)

Definition START : string := "__start__".
Definition END : string := "__end__".

Definition channels : list string :=
  ["question"; "urls"; "generatedAnswer"; "documents"; "model";
   "conversationHistory"; "vectorStore"].

(** [default: () => ...] of the channels; [undefined] is an absent key. *)
Definition defaults : gmap string value :=
  <[ "urls" := VStrs [] ]>
  (<[ "generatedAnswer" := VStr "" ]>
  (<[ "documents" := VDocs [] ]>
  (<[ "conversationHistory" := VHistory [] ]> ∅))).

(** The reducers: [y || x] for [generatedAnswer], [y ?? x] for the other
    channels, the last value for [question]. *)
Definition reducer (channel : string) (x : option value) (y : value) : option value :=
  if channel =? "generatedAnswer" then
    match y with
    | VStr "" => x
    | _ => Some y
    end
  else Some y.

(** One channel takes the value its reducer makes of the update. *)
Definition mergeChannel (state update acc : gmap string value) (channel : string)
  : gmap string value :=
  match update !! channel with
  | Some y =>
      match reducer channel (state !! channel) y with
      | Some v => <[ channel := v ]> acc
      | None => delete channel acc
      end
  | None => acc
  end.

Definition applyUpdate (state update : gmap string value) : gmap string value :=
  foldl (mergeChannel state update) state channels.

Record StateGraph := {
  nodes : list (string * (gmap string value -> Eff (gmap string value)));
  edges : list (string * string);
  conditionalEdges :
    list (string * ((gmap string value -> string) * list (string * string)))
}.

Definition newStateGraph : StateGraph :=
  {| nodes := []; edges := []; conditionalEdges := [] |}.

Definition addNode name fn (g : StateGraph) : StateGraph :=
  {| nodes := nodes g ++ [(name, fn)]; edges := edges g;
     conditionalEdges := conditionalEdges g |}.

Definition addEdge (src dst : string) (g : StateGraph) : StateGraph :=
  {| nodes := nodes g; edges := edges g ++ [(src, dst)];
     conditionalEdges := conditionalEdges g |}.

Definition addConditionalEdges src path mapping (g : StateGraph) : StateGraph :=
  {| nodes := nodes g; edges := edges g;
     conditionalEdges := conditionalEdges g ++ [(src, (path, mapping))] |}.

Definition nextNode (g : StateGraph) (name : string) (state : gmap string value)
  : option string :=
  match assocGet name (conditionalEdges g) with
  | Some (path, mapping) => assocGet (path state) mapping
  | None => assocGet name (edges g)
  end.

Definition recursionLimit : nat := 25.

Definition GraphRecursionError : JsError :=
  {| message := "Recursion limit of 25 reached without hitting a stop condition." |}.

Fixpoint runFrom (g : StateGraph) (fuel : nat) (name : string)
    (state : gmap string value) : Eff (gmap string value) :=
  if name =? END then ret state else
  match fuel with
  | O => throw GraphRecursionError
  | S fuel' =>
      match assocGet name (nodes g) with
      | None => throw {| message := "unknown node" |}
      | Some fn =>
          let* _ := log (NodeStart name state) in
          let* update := fn state in
          let state' := applyUpdate state update in
          let* _ := log (NodeEnd name state') in
          match nextNode g name state' with
          | Some next => runFrom g fuel' next state'
          | None => ret state'
          end
      end
  end.

Definition invokeGraph (g : StateGraph) (input : gmap string value)
  : Eff (gmap string value) :=
  let state := applyUpdate defaults input in
  match nextNode g START state with
  | Some entry => runFrom g recursionLimit entry state
  | None => ret state
  end.

Definition graph : StateGraph :=
  addEdge "grade_generated_answer" END
  (addEdge "generate_answer" "grade_generated_answer"
  (addConditionalEdges "grade_documents" hasRelevantDocs
     [("yes", "generate_answer"); ("no", END)]
  (addEdge "create_model" "grade_documents"
  (addEdge "retrieve_documents" "create_model"
  (addEdge START "retrieve_documents"
  (addNode "grade_generated_answer" gradeGeneratedAnswer
  (addNode "generate_answer" generateAnswer
  (addNode "grade_documents" documentGrader
  (addNode "create_model" createModelNode
  (addNode "retrieve_documents" retrieveDocNode
   newStateGraph)))))))))).

(** [graph.invoke(input)] *)
Definition invoke (input : gmap string value) : Eff (gmap string value) :=
  invokeGraph graph input.

End WithServices.
End RagChain.

(** ** server.ts *)
Module Server.
Import JsString.

(** A field of a parsed JSON body.  The elements of an array are taken to
    be strings, as the handlers' [string[]] says. *)
Inductive jsval :=
| JUndefined
| JNull
| JBool (b : bool)
| JNum (n : Z)
| JStr (s : string)
| JArray (elems : list string)
| JObject.

(** [!!v] *)
Definition truthyVal (v : jsval) : bool :=
  match v with
  | JUndefined | JNull => false
  | JBool b => b
  | JNum n => negb (n =? 0)%Z
  | JStr s => truthy s
  | JArray _ | JObject => true
  end.

Definition isArray (v : jsval) : bool :=
  match v with JArray _ => true | _ => false end.

Definition elemsOf (v : jsval) : list string :=
  match v with JArray l => l | _ => [] end.

Record ChatRequest := {
  chat_urls : jsval;
  chat_message : jsval;
  chat_conversationHistory : option (list Turn)
}.

Record QueryRequest := {
  query_urls : jsval;
  query_question : jsval
}.

(** The [message] of a 200 chat response: a string, [undefined], or a
    value that is not a string (a member inherited from
    [Object.prototype]). *)
Inductive MsgVal :=
| MStr (s : string)
| MUndefined
| MInherited (name : string).

Inductive Body :=
| BError (error : string)
| BFailure (error : string) (msg : string)
| BChat (msg : MsgVal) (documents : list string)
| BQuery (question : string) (documents : list string) (documentCount : nat)
         (generatedAnswer : option string).

Record Response := { status : nat; body : Body }.

(** The external world of one request. [timerFirst race ms]: the timer of
    [ms] milliseconds set for [race] fires before the awaited work
    settles. [mathRandom]: the value of [Math.random()]. *)
Inductive Race := BuildRace | GraphRace.

Record World := {
  services : RagChain.Services;
  NODE_ENV : option string;
  mathRandom : Q;
  timerFirst : Race -> N -> bool
}.

(** The mutable state a handler runs on.  [vectorStoreCache] is the
    module-level [Map].  [urlsArray] is the content of the one array
    object that [req.body.urls], the handler's [urls], the parameter of
    [getOrCreateVectorStore] and the [urls] of the graph input all refer
    to.  [responseSent] and [timeoutId] are the [let] variables of the
    chat handler; [sent] lists the responses written to [res];
    [awaited] counts the calls that waited on an external service. *)
Record ServerState := {
  vectorStoreCache : gmap string MemoryVectorStore;
  urlsArray : list string;
  responseSent : bool;
  timeoutId : option N;
  sent : list Response;
  trace : list Event;
  awaited : nat
}.

Definition H (A : Type) : Type := ServerState -> outcome A * ServerState.

Definition hret {A} (a : A) : H A := fun st => (Resolved a, st).

Definition hbind {A B} (m : H A) (k : A -> H B) : H B := fun st =>
  match m st with
  | (Resolved a, st') => k a st'
  | (Rejected e, st') => (Rejected e, st')
  end.

Definition hthrow {A} (e : JsError) : H A := fun st => (Rejected e, st).

Definition tryCatch {A} (m : H A) (handler : JsError -> H A) : H A := fun st =>
  match m st with
  | (Resolved a, st') => (Resolved a, st')
  | (Rejected e, st') => handler e st'
  end.

Definition get : H ServerState := fun st => (Resolved st, st).

Definition modify (f : ServerState -> ServerState) : H unit :=
  fun st => (Resolved tt, f st).

Notation "'let!' x ':=' m 'in' k" := (hbind m (fun x => k))
  (at level 10, x pattern, m at level 100, k at level 200).
Notation "'do!' m 'in' k" := (hbind m (fun _ => k))
  (at level 10, m at level 100, k at level 200).

Definition set_cache c st :=
  {| vectorStoreCache := c; urlsArray := urlsArray st; responseSent := responseSent st;
     timeoutId := timeoutId st; sent := sent st; trace := trace st; awaited := awaited st |}.
Definition set_urlsArray u st :=
  {| vectorStoreCache := vectorStoreCache st; urlsArray := u; responseSent := responseSent st;
     timeoutId := timeoutId st; sent := sent st; trace := trace st; awaited := awaited st |}.
Definition set_responseSent b st :=
  {| vectorStoreCache := vectorStoreCache st; urlsArray := urlsArray st; responseSent := b;
     timeoutId := timeoutId st; sent := sent st; trace := trace st; awaited := awaited st |}.
Definition set_timeoutId t st :=
  {| vectorStoreCache := vectorStoreCache st; urlsArray := urlsArray st;
     responseSent := responseSent st; timeoutId := t; sent := sent st; trace := trace st;
     awaited := awaited st |}.
Definition set_sent r st :=
  {| vectorStoreCache := vectorStoreCache st; urlsArray := urlsArray st;
     responseSent := responseSent st; timeoutId := timeoutId st; sent := r; trace := trace st;
     awaited := awaited st |}.
Definition add_trace l st :=
  {| vectorStoreCache := vectorStoreCache st; urlsArray := urlsArray st;
     responseSent := responseSent st; timeoutId := timeoutId st; sent := sent st;
     trace := trace st ++ l; awaited := awaited st |}.
Definition tick st :=
  {| vectorStoreCache := vectorStoreCache st; urlsArray := urlsArray st;
     responseSent := responseSent st; timeoutId := timeoutId st; sent := sent st;
     trace := trace st; awaited := S (awaited st) |}.

Definition logEvent (e : Event) : H unit := modify (add_trace [e]).

(** An awaited call into rag-chain.ts: its events join the trace. *)
Definition await {A} (m : Eff A) : H A := fun st =>
  let '(l, r) := m in (r, add_trace l (tick st)).

(** [res.status(status).json(data)] *)
Definition resJson (status : nat) (data : Body) : H unit :=
  modify (fun st => set_sent (sent st ++ [{| status := status; body := data |}]) st).

Section WithWorld.
Context (w : World).

(** [urls.sort()]: sorts the array object in place (and returns it). *)
Definition sortUrlsInPlace : H unit :=
  modify (fun st => set_urlsArray (sort (urlsArray st)) st).

(** [getOrCreateVectorStore(urls)], [urls] being the request's array. *)
Definition getOrCreateVectorStore : H MemoryVectorStore :=
  do! sortUrlsInPlace in
  let! st := get in
  let cacheKey := join "|" (urlsArray st) in
  do! logEvent (CacheHas cacheKey) in
  match vectorStoreCache st !! cacheKey with
  | Some store =>
      do! logEvent (CacheGet cacheKey) in
      hret store
  | None =>
      let! vectorStore := await (RagChain.buildVectorStore (services w) (urlsArray st)) in
      do! modify (fun st => set_cache (<[ cacheKey := vectorStore ]> (vectorStoreCache st)) st) in
      do! logEvent (CacheSet cacheKey vectorStore) in
      hret vectorStore
  end.

Definition DEFAULT_TIMEOUT_MS : N :=
  if bool_decide (NODE_ENV w = Some "production") then 25000%N else 120000%N.
Definition FIRST_LOAD_TIMEOUT_MS : N := 180000%N.

(** [if (timeoutId) { clearTimeout(timeoutId); timeoutId = null; }] *)
Definition clearPendingTimeout : H unit :=
  modify (fun st => match timeoutId st with
                    | Some _ => set_timeoutId None st
                    | None => st
                    end).

Definition sendResponse (status : nat) (data : Body) : H unit :=
  do! clearPendingTimeout in
  let! st := get in
  if responseSent st then hret tt
  else
    do! modify (set_responseSent true) in
    resJson status data.

Definition timeoutError : JsError :=
  {| message := "Request timeout: The operation took too long. This usually happens on the first request when building the vector store. Please wait a bit longer or try again." |}.

Definition createTimeoutPromise (timeoutMs : N) : H unit :=
  modify (set_timeoutId (Some timeoutMs)).

(** [await Promise.race([work, timeoutPromise])], the timer being the one
    that [createTimeoutPromise] has just set.  Work that settles without
    waiting on a service settles before any timer.  When the timer
    fires first its callback clears [timeoutId] and the race rejects;
    the work is not cancelled and its effects still take place. *)
Definition race {A} (which : Race) (work : H A) : H A := fun st =>
  let '(r, st') := work st in
  match timeoutId st with
  | Some timeoutMs =>
      if (awaited st' =? awaited st)%nat then (r, st')
      else if timerFirst w which timeoutMs
           then (Rejected timeoutError, set_timeoutId None st')
           else (r, st')
  | None => (r, st')
  end.

Definition greetings : list string :=
  ["hi"; "hello"; "hey"; "greetings"; "good morning"; "good afternoon"; "good evening"].

Definition isGreeting (normalizedMessage : string) : bool :=
  existsb (fun greeting =>
             (normalizedMessage =? greeting)
             || startsWith (greeting +:+ " ") normalizedMessage
             || (normalizedMessage =? greeting +:+ "!"))
          greetings.

Definition greetingResponses : list string :=
  ["Hello! I'm here to help you with questions about the documents. What would you like to know?";
   "Hi! How can I assist you today? Feel free to ask me anything about the documents.";
   "Hello! I can help answer questions based on the documents you've provided. What would you like to know?";
   "Hi there! I'm ready to help. What questions do you have about the documents?"].

(** [greetingResponses[Math.floor(Math.random() * greetingResponses.length)]] *)
Definition randomResponse : MsgVal :=
  let i := Qfloor (mathRandom w * inject_Z (Z.of_nat (length greetingResponses))) in
  if (i <? 0)%Z then MUndefined
  else match greetingResponses !! Z.to_nat i with
       | Some r => MStr r
       | None => MUndefined
       end.

Definition simpleResponses : list (string * string) :=
  [("how are you", "I'm doing well, thank you! I'm here to help you with questions about the documents. What would you like to know?");
   ("how are you doing", "I'm doing great! Ready to help you with any questions about the documents. What can I assist you with?");
   ("thanks", "You're welcome! Is there anything else you'd like to know?");
   ("thank you", "You're welcome! Feel free to ask if you have more questions.");
   ("bye", "Goodbye! Feel free to come back if you have more questions.");
   ("goodbye", "Goodbye! Have a great day!")].

(** [simpleResponses[normalizedMessage]]: an own property, or a member
    that the object literal inherits from [Object.prototype]; of those
    only [constructor] and [__proto__] have a lower-case name.  Every
    value found is truthy. *)
Definition simpleResponsesGet (normalizedMessage : string) : option MsgVal :=
  match assocGet normalizedMessage simpleResponses with
  | Some r => Some (MStr r)
  | None =>
      if (normalizedMessage =? "constructor") || (normalizedMessage =? "__proto__")
      then Some (MInherited normalizedMessage)
      else None
  end.

Definition noAnswerFallback : string :=
  "I couldn't find a relevant answer to your question. Can I assist you with anything else?".

Definition graphInput (question : string) (urls : list string)
    (vectorStore : MemoryVectorStore) (conversationHistory : list Turn)
  : gmap string value :=
  <[ "question" := VStr question ]>
  (<[ "urls" := VStrs urls ]>
  (<[ "vectorStore" := VStore vectorStore ]>
  (<[ "conversationHistory" := VHistory conversationHistory ]> ∅))).

(** [message.trim()] on a truthy value that is no string. *)
Definition typeError : JsError := {| message := "message.trim is not a function" |}.

(** Lines 270-344 of the [try] block: the request is valid and is no
    small talk. *)
Definition chatAnswer (message : string) (conversationHistory : list Turn) : H unit :=
  do! sortUrlsInPlace in
  let! st := get in
  let cacheKey := join "|" (urlsArray st) in
  do! logEvent (CacheHas cacheKey) in
  let isFirstLoad :=
    negb (bool_decide (is_Some (vectorStoreCache st !! cacheKey))) in
  let timeoutMs :=
    if isFirstLoad then FIRST_LOAD_TIMEOUT_MS else DEFAULT_TIMEOUT_MS in
  do! createTimeoutPromise timeoutMs in
  let! vectorStore := race BuildRace getOrCreateVectorStore in
  do! clearPendingTimeout in
  let graphTimeoutMs :=
    if isFirstLoad then 60000%N else DEFAULT_TIMEOUT_MS in
  do! createTimeoutPromise graphTimeoutMs in
  let! st := get in
  let input :=
    graphInput message (urlsArray st) vectorStore conversationHistory in
  let! result := race GraphRace (await (RagChain.invoke (services w) input)) in
  let answer :=
    match RagChain.generatedAnswer_of result with
    | Some a => if truthy a then a else noAnswerFallback
    | None => noAnswerFallback
    end in
  sendResponse 200
    (BChat (MStr answer)
           (RagChain.formatDocuments (RagChain.documents_of result))).

(** The [try] block of [app.post("/api/chat")]. *)
Definition chatTry (req : ChatRequest) : H unit :=
  let urls := chat_urls req in
  let conversationHistory := default [] (chat_conversationHistory req) in
  let! st0 := get in
  if negb (truthyVal urls) || negb (isArray urls) || (length (urlsArray st0) =? 0)%nat then
    sendResponse 400 (BError "Please provide at least one URL")
  else if negb (truthyVal (chat_message req)) then
    sendResponse 400 (BError "Please provide a message")
  else
    match chat_message req with
    | JStr message =>
        if trim message =? "" then
          sendResponse 400 (BError "Please provide a message")
        else if (3 <? length (urlsArray st0))%nat then
          sendResponse 400
            (BError "Too many URLs. Please provide a maximum of 3 URLs at a time.")
        else
          let normalizedMessage := toLowerCase (trim message) in
          if isGreeting normalizedMessage then
            sendResponse 200 (BChat randomResponse [])
          else
            match simpleResponsesGet normalizedMessage with
            | Some r => sendResponse 200 (BChat r [])
            | None => chatAnswer message conversationHistory
            end
    | _ => hthrow typeError
    end.

(** A chat request that passes validation and is no small talk: the
    requests that reach [chatAnswer]. *)
Definition reachesPipeline (req : ChatRequest) (urls : list string) (message : string)
  : Prop :=
  chat_urls req = JArray urls
  /\ chat_message req = JStr message
  /\ (1 <= length urls <= 3)%nat
  /\ trim message <> ""
  /\ isGreeting (toLowerCase (trim message)) = false
  /\ simpleResponsesGet (toLowerCase (trim message)) = None.

(** The two races of a request that reaches [chatAnswer], and when
    their timer fires first: the build race (only a cache miss waits),
    and the graph race, after a hit or after a finished build. *)
Definition buildTimesOut (cache : gmap string MemoryVectorStore) (urls : list string)
  : Prop :=
  cache !! join "|" (sort urls) = None
  /\ timerFirst w BuildRace FIRST_LOAD_TIMEOUT_MS = true.

Definition graphTimesOut (cache : gmap string MemoryVectorStore) (urls : list string)
  : Prop :=
  (is_Some (cache !! join "|" (sort urls))
   /\ timerFirst w GraphRace DEFAULT_TIMEOUT_MS = true)
  \/ (cache !! join "|" (sort urls) = None
      /\ timerFirst w BuildRace FIRST_LOAD_TIMEOUT_MS = false
      /\ (exists store, RagChain.loadSplitEmbed (services w) (sort urls) = Resolved store)
      /\ timerFirst w GraphRace 60000%N = true).

(** The response of the [catch] block: [isTimeout ? 408 : 500] with its
    body ([details] is left out: the stack trace is no part of the
    model). *)
Definition failureResponse (error : JsError) : Response :=
  let isTimeout := truthy (message error) && includes "timeout" (message error) in
  {| status := if isTimeout then 408 else 500;
     body := BFailure (if isTimeout then "Request Timeout" else "Failed to process message")
                      (if truthy (message error) then message error
                       else "Unknown error occurred") |}.

(** The [catch] block of [app.post("/api/chat")]. *)
Definition chatCatch (error : JsError) : H unit :=
  do! clearPendingTimeout in
  let! st := get in
  if responseSent st then hret tt
  else
    sendResponse (status (failureResponse error)) (body (failureResponse error)).

Definition chatHandler (req : ChatRequest) : H unit :=
  tryCatch (chatTry req) chatCatch.

(** [app.post("/api/query")] *)
Definition queryHandler (req : QueryRequest) : H unit :=
  tryCatch
    (let urls := query_urls req in
     let! st0 := get in
     if negb (truthyVal urls) || negb (isArray urls) || (length (urlsArray st0) =? 0)%nat then
       resJson 400 (BError "Please provide at least one URL")
     else if negb (truthyVal (query_question req)) then
       resJson 400 (BError "Please provide a question")
     else
       match query_question req with
       | JStr question =>
           if trim question =? "" then
             resJson 400 (BError "Please provide a question")
           else
             let! vectorStore := getOrCreateVectorStore in
             let! st := get in
             let input := graphInput question (urlsArray st) vectorStore [] in
             let! result := await (RagChain.invoke (services w) input) in
             let formattedDocs :=
               RagChain.formatDocuments (RagChain.documents_of result) in
             resJson 200
               (BQuery question formattedDocs (length formattedDocs)
                       (RagChain.generatedAnswer_of result))
       | _ => hthrow {| message := "question.trim is not a function" |}
       end)
    (fun error => resJson 500 (BFailure "Failed to process query" (message error))).

(** A request arrives: the array of the parsed body is a fresh object,
    the cache is the one of the process. *)
Definition initState (cache : gmap string MemoryVectorStore) (urls : jsval)
  : ServerState :=
  {| vectorStoreCache := cache; urlsArray := elemsOf urls; responseSent := false;
     timeoutId := None; sent := []; trace := []; awaited := 0 |}.

Definition postChat (req : ChatRequest) (cache : gmap string MemoryVectorStore)
  : ServerState :=
  snd (chatHandler req (initState cache (chat_urls req))).

Definition postQuery (req : QueryRequest) (cache : gmap string MemoryVectorStore)
  : ServerState :=
  snd (queryHandler req (initState cache (query_urls req))).

End WithWorld.
End Server.

(** ** Overlapping calls of [getOrCreateVectorStore]

    Node runs one task at a time and switches tasks only at an [await].
    [getOrCreateVectorStore] has one: [await buildVectorStore(urls)].  A
    call therefore runs in two indivisible parts: from its start to that
    [await] (sort, key, cache check and, on a miss, the start of the
    build), and from the settling of its build to its [return] or throw.
    A schedule lists which part of which call runs next. *)
Module EventLoop.
Import JsString.

Inductive Call :=
| NotStarted (urls : list string)
| AwaitingBuild (urls : list string) (cacheKey : string) (build : nat)
| Settled (urls : list string) (r : outcome MemoryVectorStore).

(** [builds] lists the runs of [buildVectorStore] started so far, each
    with the array content it was given.  The store that the [n]-th run
    creates with [new MemoryVectorStore] is the object of identity [n]. *)
Record Process := {
  vectorStoreCache : gmap string MemoryVectorStore;
  calls : list Call;
  builds : list (list string)
}.

Inductive Step :=
| Begin (i : nat)
| BuildSettles (i : nat) (failure : option JsError).

Definition cacheKeyOf (urls : list string) : string := join "|" (sort urls).

(** Lines 150-162: up to [await buildVectorStore(urls)]. *)
Definition begin (i : nat) (p : Process) : Process :=
  match calls p !! i with
  | Some (NotStarted urls) =>
      let urls := sort urls in
      let cacheKey := join "|" urls in
      match vectorStoreCache p !! cacheKey with
      | Some store =>
          {| vectorStoreCache := vectorStoreCache p;
             calls := <[ i := Settled urls (Resolved store) ]> (calls p);
             builds := builds p |}
      | None =>
          {| vectorStoreCache := vectorStoreCache p;
             calls := <[ i := AwaitingBuild urls cacheKey (length (builds p)) ]> (calls p);
             builds := builds p ++ [urls] |}
      end
  | _ => p
  end.

(** Lines 162-170: the awaited build settles; on success the store is
    cached and returned, on failure the rejection leaves the function. *)
Definition buildSettles (i : nat) (failure : option JsError) (p : Process) : Process :=
  match calls p !! i with
  | Some (AwaitingBuild urls cacheKey build) =>
      match failure with
      | None =>
          let vectorStore := {| storeId := build |} in
          {| vectorStoreCache := <[ cacheKey := vectorStore ]> (vectorStoreCache p);
             calls := <[ i := Settled urls (Resolved vectorStore) ]> (calls p);
             builds := builds p |}
      | Some e =>
          {| vectorStoreCache := vectorStoreCache p;
             calls := <[ i := Settled urls (Rejected e) ]> (calls p);
             builds := builds p |}
      end
  | _ => p
  end.

Definition step (p : Process) (s : Step) : Process :=
  match s with
  | Begin i => begin i p
  | BuildSettles i failure => buildSettles i failure p
  end.

Definition run (p : Process) (schedule : list Step) : Process :=
  foldl step p schedule.

Definition start (cache : gmap string MemoryVectorStore) (requests : list (list string))
  : Process :=
  {| vectorStoreCache := cache; calls := map NotStarted requests; builds := [] |}.

(** What the call at position [i] returns when it awaits the build of
    identity [i] and that build settles as [failure i] says. *)
Definition ownResult (failure : nat -> option JsError) (i : nat)
  : outcome MemoryVectorStore :=
  match failure i with
  | None => Resolved {| storeId := i |}
  | Some e => Rejected e
  end.

(** What a call has returned to its caller, once it has. *)
Definition resultOf (p : Process) (i : nat) : option (outcome MemoryVectorStore) :=
  match calls p !! i with
  | Some (Settled _ r) => Some r
  | _ => None
  end.

End EventLoop.



(** ** server.ts: the sample-questions handler *)
Module SampleQuestions.
Import JsString Server.

(** [s.split('\n')] *)
Fixpoint splitLines (s : string) : list string :=
  match s with
  | EmptyString => [EmptyString]
  | String c s' =>
      if (c =? "010")%char then EmptyString :: splitLines s'
      else match splitLines s' with
           | [] => [String c EmptyString]
           | line :: lines => String c line :: lines
           end
  end.

(** [\d] *)
Definition isDigit (c : ascii) : bool :=
  let n := N_of_ascii c in ((48 <=? n) && (n <=? 57))%N.

Fixpoint dropDigits (s : string) : string :=
  match s with
  | EmptyString => EmptyString
  | String c s' => if isDigit c then dropDigits s' else s
  end.

(** [q.match(/^\d+[\.\)]/)]: one or more digits at the start, then a dot
    or a closing parenthesis. *)
Definition numbered (q : string) : bool :=
  match q with
  | EmptyString => false
  | String c _ =>
      isDigit c
      && match dropDigits q with
         | EmptyString => false
         | String d _ => (d =? ".")%char || (d =? ")")%char
         end
  end.

(** [questionsText.split('\n').map(q => q.trim())
      .filter(q => q.length > 0 && !q.match(/^\d+[\.\)]/)).slice(0, 5)] *)
Definition parseQuestions (questionsText : string) : list string :=
  take 5 (List.filter (fun q => (0 <? String.length q)%nat && negb (numbered q))
                      (map trim (splitLines questionsText))).

Definition defaultQuestions : list string :=
  ["What is the main topic of this document?";
   "Can you summarize the key points?";
   "What are the important details mentioned?"].

(** The response of the handler: the status and the body of the one
    [res.json] call that a path through the handler ends in. *)
Inductive SampleBody :=
| SError (error : string)
| SQuestions (questions : list string).

Record SampleResponse := { sampleStatus : nat; sampleBody : SampleBody }.

(** The model of the handler ([new ChatOpenAI] with temperature 0.7) and
    its chain [prompt.pipe(model).pipe(new StringOutputParser())], invoked
    with the context. *)
Record QuestionServices := {
  newQuestionModel : outcome unit;
  questionChain : string -> outcome string
}.

Definition liftOutcome {A} (o : outcome A) : H A := fun st => (o, tick st).

Section WithWorld.
Context (w : World) (qs : QuestionServices).

(** [app.post("/api/sample-questions")]; [urls] is [req.body.urls]. *)
Definition sampleQuestionsHandler (urls : jsval) : H SampleResponse :=
  tryCatch
    (let! st0 := get in
     if negb (truthyVal urls) || negb (isArray urls) || (length (urlsArray st0) =? 0)%nat then
       hret {| sampleStatus := 400; sampleBody := SError "Please provide at least one URL" |}
     else if (3 <? length (urlsArray st0))%nat then
       hret {| sampleStatus := 400;
               sampleBody :=
                 SError "Too many URLs. Please provide a maximum of 3 URLs at a time." |}
     else
       let! vectorStore := getOrCreateVectorStore w in
       let! sampleDocs :=
         await (RagChain.retrieve (services w) vectorStore 5
                  "main topics and key information") in
       if (length sampleDocs =? 0)%nat then
         hret {| sampleStatus := 200; sampleBody := SQuestions defaultQuestions |}
       else
         let! _ := (fun st => (newQuestionModel qs, st)) in
         let context :=
           join (RagChain.nl +:+ RagChain.nl) (map pageContent (take 3 sampleDocs)) in
         let! questionsText := liftOutcome (questionChain qs context) in
         let questions := parseQuestions questionsText in
         hret {| sampleStatus := 200;
                 sampleBody :=
                   SQuestions (if (0 <? length questions)%nat then questions
                               else defaultQuestions) |})
    (fun error =>
       hret {| sampleStatus := 200; sampleBody := SQuestions defaultQuestions |}).

Definition postSampleQuestions (urls : jsval) (cache : gmap string MemoryVectorStore)
  : outcome SampleResponse * ServerState :=
  sampleQuestionsHandler urls (initState cache urls).

End WithWorld.
End SampleQuestions.

(** ** Predicates on requests and URL lists *)
Module Requests.
Import JsString Server.

(** No URL of the list contains the separator of the cache key. *)
Fixpoint barFree (s : string) : bool :=
  match s with
  | EmptyString => true
  | String c s' => negb (c =? "|")%char && barFree s'
  end.

(** [!urls || !Array.isArray(urls) || urls.length === 0] *)
Definition badUrls (urls : jsval) : bool :=
  negb (truthyVal urls) || negb (isArray urls) || (length (elemsOf urls) =? 0)%nat.

(** The chat requests that the validation answers with 400. *)
Definition chatRefused (req : ChatRequest) : bool :=
  badUrls (chat_urls req)
  || negb (truthyVal (chat_message req))
  || match chat_message req with
     | JStr message => (trim message =? "") || (3 <? length (elemsOf (chat_urls req)))%nat
     | _ => false
     end.

(** The query requests that the validation answers with 400. *)
Definition queryRefused (req : QueryRequest) : bool :=
  badUrls (query_urls req)
  || negb (truthyVal (query_question req))
  || match query_question req with
     | JStr question => trim question =? ""
     | _ => false
     end.

(** A value that is truthy and no string: [v.trim] is no function. *)
Definition truthyNonString (v : jsval) : bool :=
  truthyVal v && match v with JStr _ => false | _ => true end.

Definition statuses (st : ServerState) : list nat := map status (sent st).

(** The trace has no [buildVectorStore] call. *)
Definition buildsIn (l : list Event) : list (list string) :=
  omap (fun e => match e with BuildVectorStore urls => Some urls | _ => None end) l.

End Requests.

(** ** Concrete services, worlds and requests *)
Module Examples.
Import RagChain Server.

Definition doc (text : string) : Document :=
  {| pageContent := text; source := "https://example.com/a" |}.

(** Every service answers, and every judge says yes. *)
Definition helpful : Services := {|
  newChatOpenAI := Resolved tt;
  loadSplitEmbed := fun _ => Resolved {| storeId := 0 |};
  retrieverInvoke := fun _ _ _ => Resolved [doc "alpha"; doc "beta"];
  docGrader := fun _ _ _ => Resolved "yes";
  ragChain := fun _ _ _ => Resolved "It is about alpha and beta.";
  graderChain := fun _ _ => Resolved "yes"
|}.

(** The document judge says "yes" to the first chunk and "maybe" to the
    others. *)
Definition undecided : Services := {|
  newChatOpenAI := Resolved tt;
  loadSplitEmbed := fun _ => Resolved {| storeId := 0 |};
  retrieverInvoke := fun _ _ _ => Resolved [doc "alpha"; doc "beta"];
  docGrader := fun i _ _ => if (i =? 0)%nat then Resolved "yes" else Resolved "maybe";
  ragChain := fun _ _ _ => Resolved "It is about alpha.";
  graderChain := fun _ _ => Resolved "yes"
|}.

(** The answer judge says no. *)
Definition strict : Services := {|
  newChatOpenAI := Resolved tt;
  loadSplitEmbed := fun _ => Resolved {| storeId := 0 |};
  retrieverInvoke := fun _ _ _ => Resolved [doc "alpha"; doc "beta"];
  docGrader := fun _ _ _ => Resolved "yes";
  ragChain := fun _ _ _ => Resolved "It is about alpha and beta.";
  graderChain := fun _ _ => Resolved "No"
|}.

(** The retriever finds nothing. *)
Definition nothingFound : Services := {|
  newChatOpenAI := Resolved tt;
  loadSplitEmbed := fun _ => Resolved {| storeId := 0 |};
  retrieverInvoke := fun _ _ _ => Resolved [];
  docGrader := fun _ _ _ => Resolved "yes";
  ragChain := fun _ _ _ => Resolved "It is about nothing.";
  graderChain := fun _ _ => Resolved "yes"
|}.

(** Fetching a document fails with the fetch library's time-out error. *)
Definition fetchFails : Services := {|
  newChatOpenAI := Resolved tt;
  loadSplitEmbed := fun _ =>
    Rejected {| message := "network timeout at: https://example.com/a" |};
  retrieverInvoke := fun _ _ _ => Resolved [doc "alpha"; doc "beta"];
  docGrader := fun _ _ _ => Resolved "yes";
  ragChain := fun _ _ _ => Resolved "It is about alpha and beta.";
  graderChain := fun _ _ => Resolved "yes"
|}.

(** The generation chain returns an empty completion. *)
Definition silent : Services := {|
  newChatOpenAI := Resolved tt;
  loadSplitEmbed := fun _ => Resolved {| storeId := 0 |};
  retrieverInvoke := fun _ _ _ => Resolved [doc "alpha"; doc "beta"];
  docGrader := fun _ _ _ => Resolved "yes";
  ragChain := fun _ _ _ => Resolved "";
  graderChain := fun _ _ => Resolved "yes"
|}.

(** No timer fires first. *)
Definition calm (svc : Services) : World :=
  {| services := svc; NODE_ENV := None; mathRandom := 1 # 2;
     timerFirst := fun _ _ => false |}.

Definition twoChunks : gmap string value :=
  <[ "question" := VStr "What is this about?" ]>
  (<[ "documents" := VDocs [doc "alpha"; doc "beta"] ]>
  (<[ "model" := VModel ]> ∅)).

Definition emptyAnswer : gmap string value :=
  <[ "question" := VStr "What is this about?" ]>
  (<[ "generatedAnswer" := VStr "" ]>
  (<[ "documents" := VDocs [doc "alpha"] ]>
  (<[ "model" := VModel ]> ∅))).

Definition answered : gmap string value :=
  <[ "question" := VStr "What is this about?" ]>
  (<[ "generatedAnswer" := VStr "It is about alpha." ]>
  (<[ "documents" := VDocs [doc "alpha"] ]>
  (<[ "model" := VModel ]> ∅))).

Definition question : gmap string value :=
  <[ "question" := VStr "What is this about?" ]>
  (<[ "urls" := VStrs ["https://example.com/a"] ]>
  (<[ "vectorStore" := VStore {| storeId := 0 |} ]> ∅)).

Definition chat (urls : list string) (message : string) : ChatRequest :=
  {| chat_urls := JArray urls; chat_message := JStr message;
     chat_conversationHistory := None |}.

Definition fourUrls : QueryRequest :=
  {| query_urls := JArray ["https://example.com/d"; "https://example.com/c";
                           "https://example.com/b"; "https://example.com/a"];
     query_question := JStr "What is this about?" |}.

End Examples.

(** ** Views of a trace, and schedules *)
Module Runs.
Import JsString RagChain Server EventLoop.

(** The events of a trace that are no marks of nodes: the cache
    operations and the calls to services. *)
Definition externalCalls (l : list Event) : list Event :=
  List.filter (fun e => negb (isNodeEvent e)) l.

(** The nodes of the graph in the order of its edges. *)
Definition fiveNodes : list string :=
  ["retrieve_documents"; "create_model"; "grade_documents"; "generate_answer";
   "grade_generated_answer"].

(** The calls of the document judge in a trace. *)
Definition docGrades (l : list Event) : list (string * string) :=
  omap (fun e => match e with DocGrade q d => Some (q, d) | _ => None end) l.

(** How often a trace calls [createModel]. *)
Definition modelCreations (l : list Event) : nat :=
  length (List.filter (fun e => bool_decide (e = CreateModel)) l).



(** The schedule of [n] calls that do not overlap: each call begins after
    the build of the one before it has settled, and every build
    succeeds. *)
Definition oneByOne (n : nat) : list Step :=
  flat_map (fun i => [Begin i; BuildSettles i None]) (seq 0 n).

(** The number of calls that have begun. *)
Definition begun (calls : list Call) : nat :=
  length (List.filter (fun c => match c with NotStarted _ => false | _ => true end) calls).

End Runs.

(** ** More services, worlds and requests *)
Module MoreExamples.
Import JsString RagChain Server SampleQuestions Examples.



(** The question model answers with two questions, one per line. *)
Definition asks : QuestionServices := {|
  newQuestionModel := Resolved tt;
  questionChain := fun _ => Resolved ("What is alpha?" +:+ nl +:+ "What is beta?")
|}.

(** A text of the question model: a question, a blank line, a numbered
    question and a question with spaces around it. *)
Definition mixedLines : string :=
  "What is alpha?" +:+ nl +:+ "  " +:+ nl +:+ "2. What is beta?" +:+ nl +:+ " Why? ".

(** A text in which every question is numbered. *)
Definition numberedLines : string :=
  "1. What is alpha?" +:+ nl +:+ "2) What is beta?".

(** The document judge says no to every chunk. *)
Definition dismissive : Services := {|
  newChatOpenAI := Resolved tt;
  loadSplitEmbed := fun _ => Resolved {| storeId := 0 |};
  retrieverInvoke := fun _ _ _ => Resolved [doc "alpha"; doc "beta"];
  docGrader := fun _ _ _ => Resolved "no";
  ragChain := fun _ _ _ => Resolved "It is about alpha and beta.";
  graderChain := fun _ _ => Resolved "yes"
|}.

Definition fiveChunks : gmap string value :=
  <[ "question" := VStr "What is this about?" ]>
  (<[ "documents" := VDocs [doc "one"; doc "two"; doc "three"; doc "four"; doc "five"] ]>
  (<[ "model" := VModel ]> ∅)).


Definition numberMessage : ChatRequest :=
  {| chat_urls := JArray ["https://example.com/a"]; chat_message := JNum 42;
     chat_conversationHistory := None |}.

Definition ab : list string := ["https://example.com/a"; "https://example.com/b"].
Definition ba : list string := ["https://example.com/b"; "https://example.com/a"].

End MoreExamples.

(** * Properties *)

(** Projections and updates of a handler state that is written out. *)
Ltac run_handler :=
  cbv beta iota zeta delta
    [Server.urlsArray Server.vectorStoreCache Server.responseSent Server.timeoutId
     Server.sent Server.trace Server.awaited
     Server.set_cache Server.set_urlsArray Server.set_responseSent Server.set_timeoutId
     Server.set_sent Server.add_trace Server.tick
     fst snd].

(** Membership in a trace that is written out. *)
Ltac mem_cases H :=
  repeat first
    [ apply elem_of_app in H as [H|H]
    | apply elem_of_cons in H as [H|H]
    | apply elem_of_nil in H; destruct H ].

Ltac mem_find :=
  repeat first
    [ apply list_elem_of_here
    | apply list_elem_of_further
    | apply elem_of_app; right ].

Ltac not_logged H :=
  match type of H with
  | _ ∈ ?l =>
      match goal with
      | Hev : forall e, e ∈ l -> _ |- _ =>
          apply Hev in H; cbn in H;
          first [ discriminate H | destruct H as [H _]; discriminate H ]
      end
  | _ = _ => discriminate H
  end.


Section SortProperties.
Import JsString.

Lemma insertSorted_Permutation x l : Permutation (insertSorted x l) (x :: l).
Proof.
  induction l as [|y l IH]; cbn [insertSorted]; [done|].
  destruct (String.leb x y); [done|].
  rewrite IH. apply perm_swap.
Qed.

Lemma sort_Permutation l : Permutation (sort l) l.
Proof.
  induction l as [|x l IH]; cbn [sort]; [done|].
  by rewrite insertSorted_Permutation, IH.
Qed.

Lemma length_sort l : length (sort l) = length l.
Proof. apply Permutation_length, sort_Permutation. Qed.

Lemma insertSorted_HdRel a x l :
  codeUnitLe a x -> HdRel codeUnitLe a l -> HdRel codeUnitLe a (insertSorted x l).
Proof.
  intros Hax Hal. destruct l as [|y l]; cbn [insertSorted]; [by constructor|].
  destruct (String.leb x y); constructor; [done|].
  by inversion Hal.
Qed.

Lemma insertSorted_Sorted x l :
  Sorted codeUnitLe l -> Sorted codeUnitLe (insertSorted x l).
Proof.
  induction l as [|y l IH]; intros Hs; cbn [insertSorted].
  - by repeat constructor.
  - destruct (String.leb x y) eqn:Hxy.
    + constructor; [done|]. by constructor.
    + inversion Hs as [|? ? Hl Hy]; subst.
      constructor; [by apply IH|].
      apply insertSorted_HdRel; [|done].
      destruct (String.leb_total x y) as [H|H]; [congruence|done].
Qed.

Lemma sort_Sorted l : Sorted codeUnitLe (sort l).
Proof.
  induction l as [|x l IH]; cbn [sort]; [constructor|].
  by apply insertSorted_Sorted.
Qed.

Lemma sort_of_Sorted l : Sorted codeUnitLe l -> sort l = l.
Proof.
  induction l as [|x l IH]; intros Hs; cbn [sort]; [done|].
  inversion Hs as [|? ? Hl Hx]; subst. rewrite IH by done.
  destruct l as [|y l]; [done|]. cbn [insertSorted].
  inversion Hx as [|? ? Hxy]; subst. unfold codeUnitLe in Hxy. by rewrite Hxy.
Qed.

(** Sorting an array that [sort] has sorted leaves it as it is. *)
Lemma sort_idempotent l : sort (sort l) = sort l.
Proof. apply sort_of_Sorted, sort_Sorted. Qed.

End SortProperties.

Section RagChainProperties.
Import JsString RagChain.
Context (svc : Services).

Lemma bind_resolved {A B} (l : list Event) (a : A) (k : A -> Eff B) :
  bind (l, Resolved a) k = (l ++ (k a).1, (k a).2).
Proof. unfold bind. by destruct (k a). Qed.

Lemma bind_rejected {A B} (l : list Event) (e : JsError) (k : A -> Eff B) :
  bind (l, Rejected e) k = (l, Rejected e).
Proof. reflexivity. Qed.

Lemma modelOf_cases (state : gmap string value) :
  (exists m, state !! "model" = Some m /\ modelOf svc state = ([], Resolved m))
  \/ (state !! "model" = None /\ newChatOpenAI svc = Resolved tt
      /\ modelOf svc state = ([CreateModel], Resolved VModel))
  \/ (exists e, state !! "model" = None /\ newChatOpenAI svc = Rejected e
      /\ modelOf svc state = ([CreateModel], Rejected e)).
Proof.
  unfold modelOf, createModel.
  destruct (state !! "model") as [m|] eqn:Hm.
  - left. by exists m.
  - right. destruct (newChatOpenAI svc) as [[]|e] eqn:Hn.
    + left. by simpl.
    + right. exists e. by simpl.
Qed.

Lemma modelOf_available (state : gmap string value) :
  modelAvailable svc state ->
  exists l m, modelOf svc state = (l, Resolved m).
Proof.
  intros Hav.
  destruct (modelOf_cases state) as [(m & _ & ->)|[(_ & _ & ->)|(e & Hnone & Hrej & _)]];
    [by eauto | by eauto |].
  destruct Hav as [[m Hm]|Hok]; congruence.
Qed.

Lemma modelOf_events state e :
  e ∈ (modelOf svc state).1 -> e = CreateModel.
Proof.
  destruct (modelOf_cases state)
    as [(m & _ & ->)|[(_ & _ & ->)|(e' & _ & _ & ->)]]; cbn [fst].
  - intros []%elem_of_nil.
  - by intros ->%list_elem_of_singleton.
  - by intros ->%list_elem_of_singleton.
Qed.

(** The loop keeps, in order, the documents that pass. *)
Lemma gradeEach_kept (question : string) (docs : list Document) (i : nat) :
  (gradeEach svc question i docs).2
  = map snd (List.filter (passes svc question) (zip (seq i (length docs)) docs)).
Proof.
  revert i. induction docs as [|doc rest IH]; intros i; [reflexivity|].
  cbn [gradeEach length seq zip zip_with List.filter].
  specialize (IH (S i)).
  destruct (gradeEach svc question (S i) rest) as [evs kept]. simpl in IH.
  destruct (passes svc question (i, doc)); cbn; by rewrite IH.
Qed.

Lemma documents_of_graded (state : gmap string value) (m : value) (l : list Document) :
  documents_of (<[ "model" := m ]> (<[ "documents" := VDocs l ]> state)) = l.
Proof.
  unfold documents_of.
  rewrite lookup_insert_ne; [|done]. by rewrite lookup_insert_eq.
Qed.

Lemma documentGrader_resolved (state : gmap string value) (l : list Event) (m : value) :
  modelOf svc state = (l, Resolved m) ->
  documentGrader svc state
  = (l ++ (gradeEach svc (question_of state) 0 (documents_of state)).1,
     Resolved (<[ "model" := m ]>
               (<[ "documents" :=
                     VDocs (keepTopIfNone (documents_of state)
                              (gradeEach svc (question_of state) 0 (documents_of state)).2) ]>
                  state))).
Proof.
  intros Hm. unfold documentGrader. rewrite Hm, bind_resolved.
  destruct (gradeEach svc (question_of state) 0 (documents_of state)) as [evs kept].
  cbn. by rewrite app_nil_r.
Qed.

Lemma documentGrader_rejected (state : gmap string value) (l : list Event) (e : JsError) :
  modelOf svc state = (l, Rejected e) ->
  documentGrader svc state = (l, Rejected e).
Proof. intros Hm. unfold documentGrader. by rewrite Hm. Qed.

(** C2 (as amended). [documentGrader] keeps a chunk exactly when the
    judge's response for it contains "yes" (case-insensitively) or the
    judge call fails; any other response, an explicit "no" or not,
    excludes it.  When nothing is kept and the input is non-empty the
    first [min 3 (length docs)] chunks are returned instead.  The node
    fails only if the state has no model and none can be created. *)
Theorem documentGrader_keeps_yes_or_failure (state : gmap string value) :
  match (documentGrader svc state).2 with
  | Resolved result =>
      let docs := documents_of state in
      let kept :=
        map snd (List.filter (passes svc (question_of state))
                             (zip (seq 0 (length docs)) docs)) in
      documents_of result
      = match kept with
        | [] => take (Nat.min 3 (length docs)) docs
        | _ => kept
        end
  | Rejected e => state !! "model" = None /\ newChatOpenAI svc = Rejected e
  end.
Proof.
  destruct (modelOf_cases state)
    as [(m & _ & Hm)|[(_ & _ & Hm)|(e & Hnone & Hrej & Hm)]].
  - rewrite (documentGrader_resolved _ _ _ Hm). cbn [snd].
    rewrite documents_of_graded, gradeEach_kept. unfold keepTopIfNone.
    destruct (map snd _) as [|d kept] eqn:Hk; [|reflexivity].
    destruct (documents_of state); reflexivity.
  - rewrite (documentGrader_resolved _ _ _ Hm). cbn [snd].
    rewrite documents_of_graded, gradeEach_kept. unfold keepTopIfNone.
    destruct (map snd _) as [|d kept] eqn:Hk; [|reflexivity].
    destruct (documents_of state); reflexivity.
  - by rewrite (documentGrader_rejected _ _ _ Hm).
Qed.

(** C6. On a non-empty chunk list (and with a model at hand)
    [documentGrader] returns, and its result is non-empty; when no chunk
    passed the loop, the result is exactly the first
    [min 3 (length chunks)] chunks, in their retrieval order. *)
Theorem documentGrader_never_empties (state : gmap string value) :
  documents_of state <> [] ->
  modelAvailable svc state ->
  exists evs result,
    documentGrader svc state = (evs, Resolved result)
    /\ documents_of result <> []
    /\ ((gradeEach svc (question_of state) 0 (documents_of state)).2 = [] ->
        documents_of result
        = take (Nat.min 3 (length (documents_of state))) (documents_of state)).
Proof.
  intros Hne Hav.
  destruct (modelOf_available state Hav) as (l & m & Hm).
  rewrite (documentGrader_resolved _ _ _ Hm).
  eexists _, _. split; [reflexivity|].
  rewrite documents_of_graded. unfold keepTopIfNone.
  destruct (gradeEach svc (question_of state) 0 (documents_of state)).2 as [|d kept].
  - destruct (documents_of state) as [|d0 docs]; [done|].
    split; [|done]. cbn. done.
  - split; [done|]. discriminate.
Qed.

(** *** Merging a node's update into the state *)

Lemma mergeChannel_lookup_ne state update acc channel k :
  k <> channel -> mergeChannel state update acc channel !! k = acc !! k.
Proof.
  intros Hne. unfold mergeChannel.
  destruct (update !! channel) as [y|]; [|done].
  destruct (reducer channel (state !! channel) y).
  - by rewrite lookup_insert_ne.
  - by rewrite lookup_delete_ne.
Qed.

Lemma mergeChannel_lookup_eq state update acc channel :
  mergeChannel state update acc channel !! channel
  = match update !! channel with
    | Some y => reducer channel (state !! channel) y
    | None => acc !! channel
    end.
Proof.
  unfold mergeChannel.
  destruct (update !! channel) as [y|]; [|done].
  destruct (reducer channel (state !! channel) y).
  - by rewrite lookup_insert_eq.
  - by rewrite lookup_delete_eq.
Qed.

Lemma foldl_mergeChannel_lookup state update (cs : list string) acc k :
  NoDup cs ->
  foldl (mergeChannel state update) acc cs !! k
  = if bool_decide (k ∈ cs)
    then match update !! k with
         | Some y => reducer k (state !! k) y
         | None => acc !! k
         end
    else acc !! k.
Proof.
  revert acc. induction cs as [|c cs IH]; intros acc Hnd; [done|].
  apply NoDup_cons in Hnd as [Hc Hnd]. cbn [foldl].
  rewrite IH by done.
  destruct (decide (k = c)) as [->|Hne].
  - rewrite (bool_decide_eq_false_2 (c ∈ cs)) by done.
    rewrite (bool_decide_eq_true_2 (c ∈ c :: cs)) by apply list_elem_of_here.
    apply mergeChannel_lookup_eq.
  - rewrite (mergeChannel_lookup_ne _ _ _ _ _ Hne).
    destruct (bool_decide (k ∈ cs)) eqn:Hin.
    + apply bool_decide_eq_true_1 in Hin.
      rewrite (bool_decide_eq_true_2 (k ∈ c :: cs)); [done|].
      by apply list_elem_of_further.
    + apply bool_decide_eq_false_1 in Hin.
      rewrite (bool_decide_eq_false_2 (k ∈ c :: cs)); [done|].
      intros [?|?]%elem_of_cons; done.
Qed.

Lemma channels_NoDup : NoDup channels.
Proof. apply (bool_decide_unpack _). by vm_compute. Qed.

(** A channel takes what its reducer makes of the update; a key that is
    no channel is dropped. *)
Lemma applyUpdate_lookup state update k :
  applyUpdate state update !! k
  = if bool_decide (k ∈ channels)
    then match update !! k with
         | Some y => reducer k (state !! k) y
         | None => state !! k
         end
    else state !! k.
Proof. apply foldl_mergeChannel_lookup, channels_NoDup. Qed.

Lemma applyUpdate_generatedAnswer state update :
  generatedAnswer_of (applyUpdate state update)
  = match update !! "generatedAnswer" with
    | Some (VStr "") => generatedAnswer_of state
    | Some (VStr a) => Some a
    | Some _ => None
    | None => generatedAnswer_of state
    end.
Proof.
  unfold generatedAnswer_of. rewrite applyUpdate_lookup.
  rewrite bool_decide_eq_true_2 by (apply (bool_decide_unpack _); by vm_compute).
  destruct (update !! "generatedAnswer") as [[a| | | | |]|]; try reflexivity.
  by destruct a.
Qed.

Lemma applyUpdate_keeps_generatedAnswer state update :
  update !! "generatedAnswer" = None
  \/ update !! "generatedAnswer" = state !! "generatedAnswer" ->
  generatedAnswer_of (applyUpdate state update) = generatedAnswer_of state.
Proof.
  rewrite applyUpdate_generatedAnswer. unfold generatedAnswer_of.
  intros [Hu | Hu]; rewrite Hu; [done|].
  destruct (state !! "generatedAnswer") as [[a| | | | |]|]; try done.
  by destruct a.
Qed.

Lemma applyUpdate_other state update k :
  k <> "generatedAnswer" ->
  k ∈ channels ->
  applyUpdate state update !! k
  = match update !! k with
    | Some y => Some y
    | None => state !! k
    end.
Proof.
  intros Hne Hin. rewrite applyUpdate_lookup, bool_decide_eq_true_2 by done.
  destruct (update !! k) as [y|]; [|done].
  unfold reducer. apply String.eqb_neq in Hne. by rewrite Hne.
Qed.

(** *** The answer grader *)

Lemma gradeGeneratedAnswer_blank (state : gmap string value) l m :
  blankAnswer state = true ->
  modelOf svc state = (l, Resolved m) ->
  gradeGeneratedAnswer svc state
  = (l, Resolved {[ "gradeGeneratedAnswer" := VStr noAnswerMessage ]}).
Proof.
  intros Hb Hm. unfold gradeGeneratedAnswer.
  rewrite Hm, bind_resolved, Hb. cbn. by rewrite app_nil_r.
Qed.

(** C5. For every non-empty generated answer and every outcome of the
    grading call, [gradeGeneratedAnswer] returns and the answer is kept.
    The judge is asked exactly when the answer is not blank.  When it is
    asked and its response is an explicit "no", the answer gets the fixed
    note appended; on any other response, on a failed call, and when the
    judge is not asked, the answer is unchanged.  This holds of the state
    after the update is merged and, for an answer that is not blank, of
    the returned object too. *)
Theorem gradeGeneratedAnswer_never_discards (state : gmap string value) (a : string) :
  generatedAnswer_of state = Some a ->
  a <> "" ->
  modelAvailable svc state ->
  let judgedNo :=
    negb (blankAnswer state)
    && match graderChain svc (question_of state) a with
       | Resolved result => trim (toLowerCase result) =? "no"
       | Rejected _ => false
       end in
  exists evs result,
    gradeGeneratedAnswer svc state = (evs, Resolved result)
    /\ generatedAnswer_of (applyUpdate state result)
       = Some (if judgedNo then a +:+ incompleteNote else a)
    /\ (blankAnswer state = false ->
        generatedAnswer_of result = Some (if judgedNo then a +:+ incompleteNote else a))
    /\ (AnswerGrade (question_of state) a ∈ evs <-> blankAnswer state = false).
Proof.
  intros Ha Hne Hav judgedNo. subst judgedNo.
  destruct (modelOf_available state Hav) as (l & m & Hm).
  assert (Hl : forall e, e ∈ l -> e = CreateModel).
  { intros e He. apply (modelOf_events state). by rewrite Hm. }
  destruct (blankAnswer state) eqn:Hblank.
  - rewrite (gradeGeneratedAnswer_blank state l m Hblank Hm). cbn [negb andb].
    eexists _, _. split; [reflexivity|].
    split; [|split; [done|]].
    + rewrite applyUpdate_keeps_generatedAnswer; [done|by left].
    + split; [|done]. by intros ?%Hl.
  - unfold gradeGeneratedAnswer.
    rewrite Hm, bind_resolved, Hblank, Ha.
    change (default "" (Some a)) with a. cbn [negb andb].
    assert (Hstate : state !! "generatedAnswer" = Some (VStr a)).
    { unfold generatedAnswer_of in Ha.
      destruct (state !! "generatedAnswer") as [[a'| | | | |]|]; try done. congruence. }
    destruct (graderChain svc (question_of state) a) as [result|e];
      [destruct (trim (toLowerCase result) =? "no")|];
      (eexists _, _; split; [reflexivity|]; cbn [fst snd bind log ret app];
       split; [|split; [|split; [intros _; done|intros _; rewrite elem_of_app; right; left]]]).
    + rewrite applyUpdate_generatedAnswer, lookup_insert_eq. by destruct a.
    + intros _. unfold generatedAnswer_of. by rewrite lookup_insert_eq.
    + rewrite applyUpdate_generatedAnswer, Hstate. by destruct a.
    + done.
    + rewrite applyUpdate_generatedAnswer, Hstate. by destruct a.
    + done.
Qed.
(** *** The pipeline *)

Lemma bind_ext {A B} (m : Eff A) (k k' : A -> Eff B) :
  (forall a, k a = k' a) -> bind m k = bind m k'.
Proof. intros Hk. destruct m as [l [a|e]]; [|done]. unfold bind. by rewrite Hk. Qed.

(** The run of the graph, node by node. *)
Lemma invoke_unfold (input : gmap string value) :
  invoke svc input
  = let s0 := applyUpdate defaults input in
    let* _ := log (NodeStart "retrieve_documents" s0) in
    let* u1 := retrieveDocNode svc s0 in
    let s1 := applyUpdate s0 u1 in
    let* _ := log (NodeEnd "retrieve_documents" s1) in
    let* _ := log (NodeStart "create_model" s1) in
    let* u2 := createModelNode svc s1 in
    let s2 := applyUpdate s1 u2 in
    let* _ := log (NodeEnd "create_model" s2) in
    let* _ := log (NodeStart "grade_documents" s2) in
    let* u3 := documentGrader svc s2 in
    let s3 := applyUpdate s2 u3 in
    let* _ := log (NodeEnd "grade_documents" s3) in
    if (length (documents_of s3) =? 0)%nat then ret s3
    else
      let* _ := log (NodeStart "generate_answer" s3) in
      let* u4 := generateAnswer svc s3 in
      let s4 := applyUpdate s3 u4 in
      let* _ := log (NodeEnd "generate_answer" s4) in
      let* _ := log (NodeStart "grade_generated_answer" s4) in
      let* u5 := gradeGeneratedAnswer svc s4 in
      let s5 := applyUpdate s4 u5 in
      let* _ := log (NodeEnd "grade_generated_answer" s5) in
      ret s5.
Proof.
  unfold invoke, invokeGraph.
  change (nextNode (graph svc) START (applyUpdate defaults input))
    with (Some "retrieve_documents").
  cbv zeta. cbv beta iota.
  change recursionLimit with 25.
  apply bind_ext; intros _. apply bind_ext; intros u1.
  apply bind_ext; intros _. apply bind_ext; intros _.
  apply bind_ext; intros u2.
  apply bind_ext; intros _. apply bind_ext; intros _.
  apply bind_ext; intros u3.
  apply bind_ext; intros _.
  unfold nextNode. cbn [assocGet conditionalEdges graph addEdge addNode
    addConditionalEdges newStateGraph app String.eqb Ascii.eqb Bool.eqb fst snd].
  unfold hasRelevantDocs.
  destruct (length (documents_of _) =? 0)%nat; reflexivity.
Qed.

(** What the nodes log and return. *)

Lemma gradeEach_events question i docs e :
  e ∈ (gradeEach svc question i docs).1 -> exists q d, e = DocGrade q d.
Proof.
  revert i. induction docs as [|doc rest IH]; intros i; cbn [gradeEach].
  - intros []%elem_of_nil.
  - specialize (IH (S i)).
    destruct (gradeEach svc question (S i) rest) as [evs kept]. cbn [fst] in *.
    intros [->|Hin]%elem_of_cons; eauto.
Qed.

Lemma retrieveDocNode_spec state :
  (forall e, e ∈ (retrieveDocNode svc state).1 ->
             isNodeEvent e = false /\ isGenerate e = false)
  /\ (forall u, (retrieveDocNode svc state).2 = Resolved u ->
                exists docs, u = {[ "documents" := VDocs docs ]}).
Proof.
  unfold retrieveDocNode, retrieveDoc, retrieve, buildVectorStore.
  destruct (state !! "vectorStore") as [[| | | | |store]|].
  6: { destruct (retrieverInvoke svc store 10 (question_of state)) as [docs|err]; cbn.
       - split; [by intros e ->%list_elem_of_singleton|].
         intros u [= <-]. by eexists.
       - split; [by intros e ->%list_elem_of_singleton|]. done. }
  all: destruct (loadSplitEmbed svc (urls_of state)) as [store|err]; cbn;
    [destruct (retrieverInvoke svc store 10 (question_of state)) as [docs|err]; cbn|];
    (split;
     [intros e He; repeat (apply elem_of_cons in He as [->|He]); try done;
      by apply elem_of_nil in He
     |try done; intros u [= <-]; by eexists]).
Qed.

Lemma createModelNode_spec state :
  (forall e, e ∈ (createModelNode svc state).1 ->
             isNodeEvent e = false /\ isGenerate e = false)
  /\ (forall u, (createModelNode svc state).2 = Resolved u ->
                exists m, u = {[ "model" := m ]}).
Proof.
  unfold createModelNode, createModel.
  destruct (newChatOpenAI svc) as [[]|err]; cbn.
  - split; [by intros e ->%list_elem_of_singleton|].
    intros u [= <-]. by eexists.
  - split; [by intros e ->%list_elem_of_singleton|]. done.
Qed.

Lemma documentGrader_spec state :
  (forall e, e ∈ (documentGrader svc state).1 ->
             isNodeEvent e = false /\ isGenerate e = false)
  /\ (forall u, (documentGrader svc state).2 = Resolved u ->
                exists m docs,
                  u = <[ "model" := m ]> (<[ "documents" := VDocs docs ]> state)).
Proof.
  destruct (modelOf svc state) as [l [m|err]] eqn:Hm.
  - rewrite (documentGrader_resolved _ _ _ Hm). cbn [fst snd]. split.
    + intros e [He|He]%elem_of_app.
      * assert (e ∈ (modelOf svc state).1) as ->%modelOf_events by by rewrite Hm.
        done.
      * by apply gradeEach_events in He as (q & d & ->).
    + intros u [= <-]. by eexists _, _.
  - rewrite (documentGrader_rejected _ _ _ Hm). cbn [fst snd]. split; [|done].
    intros e He.
    assert (e ∈ (modelOf svc state).1) as ->%modelOf_events by by rewrite Hm.
    done.
Qed.

Lemma generateAnswer_events state e :
  e ∈ (generateAnswer svc state).1 -> isNodeEvent e = false.
Proof.
  unfold generateAnswer.
  destruct (modelOf svc state) as [l [m|err]] eqn:Hm.
  - rewrite bind_resolved. cbn [fst].
    intros [He|He]%elem_of_app.
    + assert (e ∈ (modelOf svc state).1) as ->%modelOf_events by by rewrite Hm.
      done.
    + revert He. cbn [bind log].
      match goal with |- context [ragChain svc ?h ?c ?q] =>
        destruct (ragChain svc h c q) end; cbn;
        intros He; repeat (apply elem_of_cons in He as [->|He]); try done;
        by apply elem_of_nil in He.
  - cbn. intros He.
    assert (e ∈ (modelOf svc state).1) as ->%modelOf_events by by rewrite Hm.
    done.
Qed.

Lemma gradeGeneratedAnswer_events state e :
  e ∈ (gradeGeneratedAnswer svc state).1 -> isNodeEvent e = false.
Proof.
  unfold gradeGeneratedAnswer.
  destruct (modelOf svc state) as [l [m|err]] eqn:Hm.
  - rewrite bind_resolved. cbn [fst].
    intros [He|He]%elem_of_app.
    + assert (e ∈ (modelOf svc state).1) as ->%modelOf_events by by rewrite Hm.
      done.
    + revert He. destruct (blankAnswer state); cbn [ret fst].
      * by intros ?%elem_of_nil.
      * cbn [bind log].
        match goal with |- context [graderChain svc ?q ?a] =>
          destruct (graderChain svc q a) as [result|err] end;
          [destruct (trim (toLowerCase result) =? "no")|]; cbn;
          intros He; repeat (apply elem_of_cons in He as [->|He]); try done;
          by apply elem_of_nil in He.
  - cbn. intros He.
    assert (e ∈ (modelOf svc state).1) as ->%modelOf_events by by rewrite Hm.
    done.
Qed.

(** C7. In every run of the graph the answer generator starts only on
    the state left by the document grader, and only when that state has
    documents.  When the documents are empty after grading, the run ends
    there: it returns that state, no [generate_answer] node and no call
    of the generation chain occur, the documents of the final state are
    empty and its [generatedAnswer] is the one the run started with,
    the empty default when the input gives none. *)
Theorem generateAnswer_only_with_documents (input : gmap string value) :
  let run := invoke svc input in
  (forall s, NodeStart "generate_answer" s ∈ run.1 ->
             documents_of s <> [] /\ NodeEnd "grade_documents" s ∈ run.1)
  /\ (forall s, NodeEnd "grade_documents" s ∈ run.1 ->
                documents_of s = [] ->
                run.2 = Resolved s
                /\ (forall s', NodeStart "generate_answer" s' ∉ run.1)
                /\ (forall e, e ∈ run.1 -> isGenerate e = false)
                /\ generatedAnswer_of s = generatedAnswer_of (applyUpdate defaults input)
                /\ (input !! "generatedAnswer" = None -> generatedAnswer_of s = Some "")).
Proof.
  intros run. subst run. rewrite invoke_unfold. cbv zeta.
  remember (applyUpdate defaults input) as s0 eqn:Hs0.
  destruct (retrieveDocNode_spec s0) as [Hev1 Hres1].
  destruct (retrieveDocNode svc s0) as [l1 [u1|e1]]; cbn [fst snd] in *;
    cbn [bind log ret fst snd app].
  2: { split; intros s Hs; mem_cases Hs; not_logged Hs. }
  destruct (Hres1 u1 eq_refl) as [docs1 ->]. clear Hres1.
  remember (applyUpdate s0 {[ "documents" := VDocs docs1 ]}) as s1 eqn:Hs1.
  destruct (createModelNode_spec s1) as [Hev2 Hres2].
  destruct (createModelNode svc s1) as [l2 [u2|e2]]; cbn [fst snd] in *;
    cbn [bind log ret fst snd app].
  2: { split; intros s Hs; mem_cases Hs; not_logged Hs. }
  destruct (Hres2 u2 eq_refl) as [m2 ->]. clear Hres2.
  remember (applyUpdate s1 {[ "model" := m2 ]}) as s2 eqn:Hs2.
  destruct (documentGrader_spec s2) as [Hev3 Hres3].
  destruct (documentGrader svc s2) as [l3 [u3|e3]]; cbn [fst snd] in *;
    cbn [bind log ret fst snd app].
  2: { split; intros s Hs; mem_cases Hs; not_logged Hs. }
  destruct (Hres3 u3 eq_refl) as (m3 & docs3 & ->). clear Hres3.
  remember (applyUpdate s2 (<[ "model" := m3 ]> (<[ "documents" := VDocs docs3 ]> s2)))
    as s3 eqn:Hs3.
  assert (Hga : generatedAnswer_of s3 = generatedAnswer_of s0).
  { rewrite Hs3, Hs2, Hs1.
    rewrite !applyUpdate_keeps_generatedAnswer; [done|by left..|right].
    by rewrite !lookup_insert_ne. }
  destruct (length (documents_of s3) =? 0)%nat eqn:Hempty.
  - cbn [bind log ret fst snd app].
    split; [intros s Hs; mem_cases Hs; not_logged Hs|].
    intros s Hs Hdocs. mem_cases Hs; try not_logged Hs.
    injection Hs as ->.
    split; [done|]. split; [intros s' Hs'; mem_cases Hs'; not_logged Hs'|].
    split.
    { intros e He. mem_cases He; subst; try done.
      - by apply Hev1 in He as [_ ?].
      - by apply Hev2 in He as [_ ?].
      - by apply Hev3 in He as [_ ?]. }
    split; [done|].
    intros Hnone. rewrite Hga, Hs0.
    rewrite applyUpdate_keeps_generatedAnswer by by left. reflexivity.
  - assert (Hdocs3 : documents_of s3 <> []).
    { intros Hnil. by rewrite Hnil in Hempty. }
    pose proof (generateAnswer_events s3) as Hev4.
    destruct (generateAnswer svc s3) as [l4 [u4|e4]]; cbn [fst snd] in *;
      cbn [bind log ret fst snd app].
    2: { split.
         - intros s Hs. mem_cases Hs; try not_logged Hs.
           injection Hs as ->. split; [done|]. mem_find.
         - intros s Hs Hdocs. mem_cases Hs; try not_logged Hs.
           injection Hs as ->. done. }
    remember (applyUpdate s3 u4) as s4 eqn:Hs4.
    pose proof (gradeGeneratedAnswer_events s4) as Hev5.
    destruct (gradeGeneratedAnswer svc s4) as [l5 [u5|e5]]; cbn [fst snd] in *;
      cbn [bind log ret fst snd app]; split.
    + intros s Hs. mem_cases Hs; try not_logged Hs.
      injection Hs as ->. split; [done|]. mem_find.
    + intros s Hs Hdocs. mem_cases Hs; try not_logged Hs.
      injection Hs as ->. done.
    + intros s Hs. mem_cases Hs; try not_logged Hs.
      injection Hs as ->. split; [done|]. mem_find.
    + intros s Hs Hdocs. mem_cases Hs; try not_logged Hs.
      injection Hs as ->. done.
Qed.

(** *** Invariants of a run *)

(** A property of the state that every node's update preserves holds of
    every state in the trace and of the result; every other event of the
    trace is logged by a node that ran on such a state. *)
Lemma runFrom_invariant (g : StateGraph) (I : gmap string value -> Prop) :
  (forall name fn s l u,
      assocGet name (nodes g) = Some fn -> I s -> fn s = (l, Resolved u) ->
      I (applyUpdate s u)) ->
  forall fuel name s, I s ->
    (forall e, e ∈ (runFrom g fuel name s).1 ->
       (exists n s', (e = NodeStart n s' \/ e = NodeEnd n s') /\ I s')
       \/ (exists n fn s', assocGet n (nodes g) = Some fn /\ I s' /\ e ∈ (fn s').1))
    /\ (forall s', (runFrom g fuel name s).2 = Resolved s' -> I s').
Proof.
  intros Hpres. induction fuel as [|fuel IH]; intros name s HI; cbn [runFrom].
  - destruct (name =? END); cbn; (split; [by intros e ?%elem_of_nil|]); [|done].
    by intros s' [= <-].
  - destruct (name =? END); [cbn; split; [by intros e ?%elem_of_nil|by intros s' [= <-]]|].
    destruct (assocGet name (nodes g)) as [fn|] eqn:Hfn;
      [|cbn; split; [by intros e ?%elem_of_nil|done]].
    destruct (fn s) as [l [u|err]] eqn:Hrun; cbn [bind log ret fst snd app].
    + specialize (Hpres _ _ _ _ _ Hfn HI Hrun).
      assert (Hl : forall e, e ∈ l ->
                exists n fn' s', assocGet n (nodes g) = Some fn' /\ I s' /\ e ∈ (fn' s').1).
      { intros e He. exists name, fn, s. by rewrite Hrun. }
      destruct (nextNode g name (applyUpdate s u)) as [next|].
      * destruct (IH next _ Hpres) as [IHlog IHres].
        destruct (runFrom g fuel next (applyUpdate s u)) as [l' r'].
        cbn [fst snd] in *. split; [|done].
        intros e He. mem_cases He; subst; eauto 8.
      * cbn [bind log ret fst snd app]. split; [|by intros s' [= <-]].
        intros e He. mem_cases He; subst; eauto 8.
    + split; [|done].
      intros e He. mem_cases He; subst; [eauto 8|].
      right. exists name, fn, s. by rewrite Hrun.
Qed.

Lemma graph_nodes name fn :
  assocGet name (nodes (graph svc)) = Some fn ->
  fn = retrieveDocNode svc \/ fn = createModelNode svc \/ fn = documentGrader svc
  \/ fn = generateAnswer svc \/ fn = gradeGeneratedAnswer svc.
Proof.
  cbn [graph nodes addEdge addNode addConditionalEdges newStateGraph app assocGet].
  repeat (destruct (name =? _); [intros [= <-]; tauto|]).
  done.
Qed.

Lemma generateAnswer_result state u :
  (generateAnswer svc state).2 = Resolved u ->
  exists a, u = {[ "generatedAnswer" := VStr a ]}.
Proof.
  unfold generateAnswer.
  destruct (modelOf svc state) as [l [m|err]]; [|done].
  rewrite bind_resolved. cbn [snd bind log].
  match goal with |- context [ragChain svc ?h ?c ?q] =>
    destruct (ragChain svc h c q) as [a|err] end; cbn; [|done].
  intros [= <-]. by eexists.
Qed.

Lemma gradeGeneratedAnswer_result state u :
  (gradeGeneratedAnswer svc state).2 = Resolved u ->
  u = {[ "gradeGeneratedAnswer" := VStr noAnswerMessage ]}
  \/ u = state
  \/ exists a, u = <[ "generatedAnswer" := VStr a ]> state.
Proof.
  unfold gradeGeneratedAnswer.
  destruct (modelOf svc state) as [l [m|err]]; [|done].
  rewrite bind_resolved. cbn [snd].
  destruct (blankAnswer state); [intros [= <-]; tauto|].
  cbn [bind log].
  match goal with |- context [graderChain svc ?q ?a] =>
    destruct (graderChain svc q a) as [result|err] end;
    [destruct (trim (toLowerCase result) =? "no")|]; cbn; intros [= <-]; eauto.
Qed.

(** No node writes [urls] or [vectorStore]. *)
Lemma node_keeps name fn state l u k :
  assocGet name (nodes (graph svc)) = Some fn ->
  fn state = (l, Resolved u) ->
  k = "urls" \/ k = "vectorStore" ->
  applyUpdate state u !! k = state !! k.
Proof.
  intros Hfn Hrun Hk.
  assert (Hu : u !! k = None \/ u !! k = state !! k).
  { assert (Hres : (fn state).2 = Resolved u) by by rewrite Hrun.
    destruct (graph_nodes _ _ Hfn) as [-> | [-> | [-> | [-> | ->]]]].
    - apply retrieveDocNode_spec in Hres as [docs ->]. left.
      destruct Hk as [-> | ->]; done.
    - apply createModelNode_spec in Hres as [m ->]. left.
      destruct Hk as [-> | ->]; done.
    - apply documentGrader_spec in Hres as (m & docs & ->). right.
      destruct Hk as [-> | ->]; by rewrite !lookup_insert_ne.
    - apply generateAnswer_result in Hres as [a ->]. left.
      destruct Hk as [-> | ->]; done.
    - apply gradeGeneratedAnswer_result in Hres as [-> | [-> | [a ->]]].
      + left. destruct Hk as [-> | ->]; done.
      + by right.
      + right. destruct Hk as [-> | ->]; by rewrite lookup_insert_ne. }
  rewrite applyUpdate_other.
  - destruct Hu as [Hu|Hu]; rewrite Hu; [done|]. by destruct (state !! k).
  - destruct Hk as [-> | ->]; done.
  - destruct Hk as [-> | ->]; apply (bool_decide_unpack _); by vm_compute.
Qed.

(** A node that runs on a state with a vector store builds none. *)
Lemma node_builds_nothing name fn state store e :
  assocGet name (nodes (graph svc)) = Some fn ->
  state !! "vectorStore" = Some (VStore store) ->
  e ∈ (fn state).1 ->
  forall urls, e <> BuildVectorStore urls.
Proof.
  intros Hfn Hstore He urls ->.
  destruct (graph_nodes _ _ Hfn) as [-> | [-> | [-> | [-> | ->]]]].
  - revert He. unfold retrieveDocNode, retrieve. rewrite Hstore.
    destruct (retrieverInvoke svc store 10 (question_of state)); cbn;
      by intros ?%list_elem_of_singleton.
  - revert He. unfold createModelNode, createModel.
    destruct (newChatOpenAI svc) as [[]|]; cbn; by intros ?%list_elem_of_singleton.
  - revert He. destruct (modelOf svc state) as [l [m|err]] eqn:Hm.
    + rewrite (documentGrader_resolved _ _ _ Hm). cbn [fst].
      intros [He|He]%elem_of_app.
      * assert (BuildVectorStore urls ∈ (modelOf svc state).1) as He' by by rewrite Hm.
        by apply modelOf_events in He'.
      * by apply gradeEach_events in He as (? & ? & ?).
    + rewrite (documentGrader_rejected _ _ _ Hm). cbn [fst]. intros He.
      assert (BuildVectorStore urls ∈ (modelOf svc state).1) as He' by by rewrite Hm.
      by apply modelOf_events in He'.
  - revert He. unfold generateAnswer.
    destruct (modelOf svc state) as [l [m|err]] eqn:Hm.
    + rewrite bind_resolved. cbn [fst bind log].
      intros [He|He]%elem_of_app.
      * assert (BuildVectorStore urls ∈ (modelOf svc state).1) as He' by by rewrite Hm.
        by apply modelOf_events in He'.
      * revert He.
        match goal with |- context [ragChain svc ?h ?c ?q] =>
          destruct (ragChain svc h c q) end; cbn;
          intros He; repeat (apply elem_of_cons in He as [?|He]); try done;
          by apply elem_of_nil in He.
    + cbn. intros He.
      assert (BuildVectorStore urls ∈ (modelOf svc state).1) as He' by by rewrite Hm.
      by apply modelOf_events in He'.
  - revert He. unfold gradeGeneratedAnswer.
    destruct (modelOf svc state) as [l [m|err]] eqn:Hm.
    + rewrite bind_resolved. cbn [fst].
      intros [He|He]%elem_of_app.
      * assert (BuildVectorStore urls ∈ (modelOf svc state).1) as He' by by rewrite Hm.
        by apply modelOf_events in He'.
      * revert He. destruct (blankAnswer state); cbn [ret fst].
        -- by intros ?%elem_of_nil.
        -- cbn [bind log].
           match goal with |- context [graderChain svc ?q ?a] =>
             destruct (graderChain svc q a) as [result|err] end;
             [destruct (trim (toLowerCase result) =? "no")|]; cbn;
             intros He; repeat (apply elem_of_cons in He as [?|He]); try done;
             by apply elem_of_nil in He.
    + cbn. intros He.
      assert (BuildVectorStore urls ∈ (modelOf svc state).1) as He' by by rewrite Hm.
      by apply modelOf_events in He'.
Qed.

(** A run on an input that carries [urls] and a [vectorStore]: every
    state of the run, and the result, has that very [urls]; the run
    builds no vector store. *)
Lemma invoke_observes_urls (input : gmap string value) urls store :
  input !! "urls" = Some (VStrs urls) ->
  input !! "vectorStore" = Some (VStore store) ->
  (forall e, e ∈ (invoke svc input).1 ->
     (forall n s, e = NodeStart n s \/ e = NodeEnd n s -> urls_of s = urls)
     /\ (forall urls', e <> BuildVectorStore urls'))
  /\ (forall s, (invoke svc input).2 = Resolved s -> urls_of s = urls).
Proof.
  intros Hurls Hstore.
  set (I := fun s : gmap string value =>
              s !! "urls" = Some (VStrs urls) /\ s !! "vectorStore" = Some (VStore store)).
  assert (Hpres : forall name fn s l u,
             assocGet name (nodes (graph svc)) = Some fn -> I s ->
             fn s = (l, Resolved u) -> I (applyUpdate s u)).
  { intros name fn s l u Hfn [Hu Hs] Hrun. split.
    - rewrite (node_keeps _ _ _ _ _ "urls" Hfn Hrun); [done|by left].
    - rewrite (node_keeps _ _ _ _ _ "vectorStore" Hfn Hrun); [done|by right]. }
  assert (HI0 : I (applyUpdate defaults input)).
  { split; (rewrite applyUpdate_other;
            [|done|apply (bool_decide_unpack _); by vm_compute]).
    - by rewrite Hurls.
    - by rewrite Hstore. }
  unfold invoke, invokeGraph.
  change (nextNode (graph svc) START (applyUpdate defaults input))
    with (Some "retrieve_documents").
  cbv beta iota.
  destruct (runFrom_invariant (graph svc) I Hpres recursionLimit
              "retrieve_documents" _ HI0) as [Hlog Hres].
  split.
  - intros e He. destruct (Hlog e He) as [(n & s' & Hes & [Hu Hs])|(n & fn & s' & Hfn & [Hu Hs] & Hin)].
    + split.
      * intros n0 s0 Heq. assert (s0 = s') as -> by (destruct Hes, Heq; congruence).
        unfold urls_of. by rewrite Hu.
      * intros urls'. destruct Hes; congruence.
    + split.
      * intros n0 s0 Heq.
        assert (isNodeEvent e = false) as Hne.
        { destruct (graph_nodes _ _ Hfn) as [-> | [-> | [-> | [-> | ->]]]].
          - by apply retrieveDocNode_spec in Hin as [? _].
          - by apply createModelNode_spec in Hin as [? _].
          - by apply documentGrader_spec in Hin as [? _].
          - by apply generateAnswer_events in Hin.
          - by apply gradeGeneratedAnswer_events in Hin. }
        destruct Heq; subst; done.
      * by apply (node_builds_nothing _ _ _ _ _ Hfn Hs Hin).
  - intros s Hs. apply Hres in Hs as [Hu _]. unfold urls_of. by rewrite Hu.
Qed.

End RagChainProperties.

Section RagChainExamples.
Import JsString RagChain Examples.

(** C2 does not hold as the specification states it: the judge answers
    "maybe" for the second chunk, which is no negative judgment, and the
    chunk is excluded from the result. *)
Lemma documentGrader_drops_undecided_chunk :
  docGrader undecided 1 "What is this about?" "beta" = Resolved "maybe"
  /\ (trim (toLowerCase "maybe") =? "no") = false
  /\ documents_of twoChunks = [doc "alpha"; doc "beta"]
  /\ documents_of <$> resolved (documentGrader undecided twoChunks).2
     = Some [doc "alpha"].
Proof. repeat split; vm_compute; reflexivity. Qed.

(** C4, at the failing input: on a state whose [generatedAnswer] is
    empty the node makes no grading call, and the object it returns has
    the message under the key [gradeGeneratedAnswer]; it has no
    [generatedAnswer], and the state after the merge still has the empty
    answer.  So does the result of a whole run in which the generation
    chain returns an empty completion. *)
Theorem gradeGeneratedAnswer_blank_writes_other_key :
  gradeGeneratedAnswer helpful emptyAnswer
  = ([], Resolved {[ "gradeGeneratedAnswer" := VStr noAnswerMessage ]})
  /\ generatedAnswer_of {[ "gradeGeneratedAnswer" := VStr noAnswerMessage ]} = None
  /\ generatedAnswer_of
       (applyUpdate emptyAnswer {[ "gradeGeneratedAnswer" := VStr noAnswerMessage ]})
     = Some ""
  /\ nodesRun (invoke silent question).1
     = ["retrieve_documents"; "create_model"; "grade_documents"; "generate_answer";
        "grade_generated_answer"]
  /\ generatedAnswer_of <$> resolved (invoke silent question).2 = Some (Some "").
Proof. repeat split; vm_compute; reflexivity. Qed.

(** An instance: the judge answers "No" and the note is appended. *)
Lemma gradeGeneratedAnswer_never_discards_witness :
  exists evs result,
    gradeGeneratedAnswer strict answered = (evs, Resolved result)
    /\ generatedAnswer_of (applyUpdate answered result)
       = Some ("It is about alpha." +:+ incompleteNote)
    /\ generatedAnswer_of result = Some ("It is about alpha." +:+ incompleteNote).
Proof.
  destruct (gradeGeneratedAnswer_never_discards strict answered "It is about alpha.")
    as (evs & result & Hrun & Hmerged & Hreturned & _).
  - reflexivity.
  - discriminate.
  - left. eexists. reflexivity.
  - exists evs, result. split; [exact Hrun|]. split; [exact Hmerged|].
    apply Hreturned. reflexivity.
Defined.

(** An instance: five chunks, each judged "no".  No chunk passes the
    grading, the fallback of lines 177-180 fires, and the result is the
    first three chunks. *)
Lemma documentGrader_never_empties_witness :
  exists evs result,
    documentGrader MoreExamples.dismissive MoreExamples.fiveChunks = (evs, Resolved result)
    /\ (gradeEach MoreExamples.dismissive (question_of MoreExamples.fiveChunks) 0
          (documents_of MoreExamples.fiveChunks)).2 = []
    /\ documents_of result <> []
    /\ documents_of result = [doc "one"; doc "two"; doc "three"].
Proof.
  destruct (documentGrader_never_empties MoreExamples.dismissive MoreExamples.fiveChunks)
    as (evs & result & Hrun & Hne & Hfallback).
  - vm_compute. discriminate.
  - left. eexists. reflexivity.
  - exists evs, result. split; [exact Hrun|].
    assert (Hnone : (gradeEach MoreExamples.dismissive
                       (question_of MoreExamples.fiveChunks) 0
                       (documents_of MoreExamples.fiveChunks)).2 = [])
      by (vm_compute; reflexivity).
    split; [exact Hnone|]. split; [exact Hne|].
    rewrite (Hfallback Hnone). vm_compute. reflexivity.
Defined.

(** The fallback evaluated.  When the judge says no to every chunk: of
    five chunks the first three are returned, after five judgments; of
    two chunks both are returned; of no chunk none.  When the judge says
    yes to the first chunk only, that chunk alone is returned and the
    fallback does not fire. *)
Lemma documentGrader_fallback_examples :
  documents_of <$> resolved (documentGrader MoreExamples.dismissive MoreExamples.fiveChunks).2
  = Some [doc "one"; doc "two"; doc "three"]
  /\ length (documentGrader MoreExamples.dismissive MoreExamples.fiveChunks).1 = 5
  /\ documents_of <$> resolved (documentGrader MoreExamples.dismissive twoChunks).2
     = Some [doc "alpha"; doc "beta"]
  /\ documents_of <$> resolved
        (documentGrader MoreExamples.dismissive (<[ "documents" := VDocs [] ]> twoChunks)).2
     = Some []
  /\ documents_of <$> resolved (documentGrader undecided twoChunks).2
     = Some [doc "alpha"].
Proof. repeat split; vm_compute; reflexivity. Qed.

(** An instance: the retriever finds nothing and the run ends after the
    grading, with no documents and the empty answer. *)
Lemma generateAnswer_only_with_documents_witness :
  exists s,
    (invoke nothingFound question).2 = Resolved s
    /\ documents_of s = []
    /\ generatedAnswer_of s = Some "".
Proof.
  pose (s := match (invoke nothingFound question).2 with
             | Resolved s => s
             | Rejected _ => ∅
             end).
  exists s.
  destruct (generateAnswer_only_with_documents nothingFound question) as [_ H].
  destruct (H s) as (Hres & _ & _ & _ & Hanswer).
  - apply (bool_decide_unpack _). vm_compute. exact I.
  - vm_compute. reflexivity.
  - split; [exact Hres|]. split; [vm_compute; reflexivity|].
    apply Hanswer. vm_compute. reflexivity.
Defined.

End RagChainExamples.

Section ServerProperties.
Import JsString Server.
Context (w : World).

Lemma S_eqb_false n : (S n =? n)%nat = false.
Proof. apply Nat.eqb_neq. lia. Qed.

(** The answering part of the chat handler, outcome by outcome: the
    cache hit or miss, the build, the two races and the run of the
    graph. *)
Lemma chatAnswer_unfold m hist cache us rs tid snt tr aw :
  chatAnswer w m hist
    {| vectorStoreCache := cache; urlsArray := us; responseSent := rs; timeoutId := tid;
       sent := snt; trace := tr; awaited := aw |}
  = let us' := sort us in
    let key := join "|" us' in
    let response result :=
      {| status := 200;
         body := BChat (MStr match RagChain.generatedAnswer_of result with
                             | Some a => if truthy a then a else noAnswerFallback
                             | None => noAnswerFallback
                             end)
                       (RagChain.formatDocuments (RagChain.documents_of result)) |} in
    let graphPhase cache' trace1 aw1 store ms :=
      let '(l, r) := RagChain.invoke (services w) (graphInput m us' store hist) in
      if timerFirst w GraphRace ms then
        (Rejected timeoutError,
         {| vectorStoreCache := cache'; urlsArray := us'; responseSent := rs;
            timeoutId := None; sent := snt; trace := trace1 ++ l; awaited := S aw1 |})
      else
        match r with
        | Rejected e =>
            (Rejected e,
             {| vectorStoreCache := cache'; urlsArray := us'; responseSent := rs;
                timeoutId := Some ms; sent := snt; trace := trace1 ++ l;
                awaited := S aw1 |})
        | Resolved result =>
            (Resolved tt,
             {| vectorStoreCache := cache'; urlsArray := us'; responseSent := true;
                timeoutId := None;
                sent := if rs then snt else snt ++ [response result];
                trace := trace1 ++ l; awaited := S aw1 |})
        end in
    match cache !! key with
    | Some store =>
        graphPhase cache (tr ++ [CacheHas key; CacheHas key; CacheGet key]) aw store
          (DEFAULT_TIMEOUT_MS w)
    | None =>
        match RagChain.loadSplitEmbed (services w) us' with
        | Resolved vs =>
            let cache' := <[ key := vs ]> cache in
            let trace1 :=
              tr ++ [CacheHas key; CacheHas key; BuildVectorStore us'; CacheSet key vs] in
            if timerFirst w BuildRace FIRST_LOAD_TIMEOUT_MS then
              (Rejected timeoutError,
               {| vectorStoreCache := cache'; urlsArray := us'; responseSent := rs;
                  timeoutId := None; sent := snt; trace := trace1; awaited := S aw |})
            else graphPhase cache' trace1 (S aw) vs 60000%N
        | Rejected e =>
            let trace1 := tr ++ [CacheHas key; CacheHas key; BuildVectorStore us'] in
            if timerFirst w BuildRace FIRST_LOAD_TIMEOUT_MS then
              (Rejected timeoutError,
               {| vectorStoreCache := cache; urlsArray := us'; responseSent := rs;
                  timeoutId := None; sent := snt; trace := trace1; awaited := S aw |})
            else
              (Rejected e,
               {| vectorStoreCache := cache; urlsArray := us'; responseSent := rs;
                  timeoutId := Some FIRST_LOAD_TIMEOUT_MS; sent := snt; trace := trace1;
                  awaited := S aw |})
        end
    end.
Proof.
  unfold chatAnswer, getOrCreateVectorStore, sortUrlsInPlace, logEvent,
    createTimeoutPromise, clearPendingTimeout, sendResponse, resJson, race, await,
    RagChain.buildVectorStore, bind, log,
    hbind, hret, get, modify.
  run_handler. rewrite sort_idempotent.
  destruct (cache !! join "|" (sort us)) as [store|] eqn:Hc.
  - run_handler. rewrite Nat.eqb_refl. run_handler.
    destruct (RagChain.invoke _ _) as [l r]. run_handler.
    rewrite S_eqb_false.
    replace (bool_decide (is_Some (Some store))) with true
      by (symmetry; by apply bool_decide_eq_true_2).
    cbn [negb].
    destruct (timerFirst w GraphRace (DEFAULT_TIMEOUT_MS w)); run_handler.
    + by rewrite <- !app_assoc.
    + destruct r as [result|e]; run_handler; [|by rewrite <- !app_assoc].
      destruct rs; run_handler; by rewrite <- !app_assoc.
  - replace (bool_decide (is_Some (@None MemoryVectorStore))) with false
      by (symmetry; apply bool_decide_eq_false_2; by intros [? ?]).
    cbn [negb].
    destruct (RagChain.loadSplitEmbed (services w) (sort us)) as [vs|e]; run_handler.
    + rewrite S_eqb_false.
      destruct (timerFirst w BuildRace FIRST_LOAD_TIMEOUT_MS); run_handler.
      * by rewrite <- !app_assoc.
      * destruct (RagChain.invoke _ _) as [l r]. run_handler.
        rewrite S_eqb_false.
        destruct (timerFirst w GraphRace 60000%N); run_handler.
        -- by rewrite <- !app_assoc.
        -- destruct r as [result|e]; run_handler; [|by rewrite <- !app_assoc].
           destruct rs; run_handler; by rewrite <- !app_assoc.
    + rewrite S_eqb_false.
      destruct (timerFirst w BuildRace FIRST_LOAD_TIMEOUT_MS); run_handler;
        by rewrite <- !app_assoc.
Qed.

Lemma sendResponse_resolved status data st :
  exists st', sendResponse status data st = (Resolved tt, st').
Proof.
  destruct st as [cache us rs tid snt tr aw].
  unfold sendResponse, clearPendingTimeout, resJson, hbind, hret, get, modify.
  destruct tid, rs; run_handler; by eexists.
Qed.

Lemma sendResponse_first status data cache us tid snt tr aw :
  sendResponse status data
    {| vectorStoreCache := cache; urlsArray := us; responseSent := false; timeoutId := tid;
       sent := snt; trace := tr; awaited := aw |}
  = (Resolved tt,
     {| vectorStoreCache := cache; urlsArray := us; responseSent := true; timeoutId := None;
        sent := snt ++ [{| status := status; body := data |}]; trace := tr;
        awaited := aw |}).
Proof.
  unfold sendResponse, clearPendingTimeout, resJson, hbind, hret, get, modify.
  destruct tid; run_handler; reflexivity.
Qed.

(** The ways through the [try] block: a response sent during validation
    or by the small-talk shortcut, the [TypeError] of a message that is
    no string, or the answering part. *)
Lemma chatTry_cases (req : ChatRequest) cache :
  let st0 := initState cache (chat_urls req) in
  (exists st', chatTry w req st0 = (Resolved tt, st'))
  \/ chatTry w req st0 = (Rejected typeError, st0)
  \/ (exists urls message,
        reachesPipeline req urls message
        /\ chatTry w req st0
           = chatAnswer w message (default [] (chat_conversationHistory req)) st0).
Proof.
  destruct req as [urls msg hist]. intros st0. subst st0.
  unfold chatTry, hbind, get, initState.
  cbn [chat_urls chat_message chat_conversationHistory urlsArray fst snd elemsOf].
  destruct urls as [| |b|n|s0|us|];
    cbn [truthyVal isArray negb orb elemsOf length Nat.eqb];
    try (left; apply sendResponse_resolved).
  - destruct b; cbn [negb orb]; left; apply sendResponse_resolved.
  - destruct (n =? 0)%Z; cbn [negb orb]; left; apply sendResponse_resolved.
  - destruct (truthy s0); cbn [negb orb]; left; apply sendResponse_resolved.
  - destruct us as [|u us]; cbn [length Nat.eqb]; [left; apply sendResponse_resolved|].
    destruct msg as [| |b|n|m|l|]; cbn [truthyVal negb];
      try (left; apply sendResponse_resolved); try (right; left; reflexivity).
    + destruct b; cbn [negb]; [right; left; reflexivity|left; apply sendResponse_resolved].
    + destruct (n =? 0)%Z; cbn [negb];
        [left; apply sendResponse_resolved|right; left; reflexivity].
    + destruct (truthy m) eqn:Hm; cbn [negb]; [|left; apply sendResponse_resolved].
      destruct (trim m =? "") eqn:Htrim; [left; apply sendResponse_resolved|].
      destruct (3 <? S (length us))%nat eqn:Hlen; [left; apply sendResponse_resolved|].
      destruct (isGreeting (toLowerCase (trim m))) eqn:Hgreet;
        [left; apply sendResponse_resolved|].
      destruct (simpleResponsesGet (toLowerCase (trim m))) eqn:Hsimple;
        [left; apply sendResponse_resolved|].
      right. right. exists (u :: us), m. split; [|reflexivity].
      unfold reachesPipeline.
      cbn [chat_urls chat_message length].
      apply Nat.ltb_ge in Hlen. apply String.eqb_neq in Htrim.
      repeat split; try done; lia.
Qed.

Lemma chatTry_reachesPipeline (req : ChatRequest) cache urls message :
  reachesPipeline req urls message ->
  chatTry w req (initState cache (chat_urls req))
  = chatAnswer w message (default [] (chat_conversationHistory req))
      (initState cache (JArray urls)).
Proof.
  intros (Hurls & Hmsg & [Hlo Hhi] & Htrim & Hgreet & Hsimple).
  destruct req as [urls0 msg hist]. cbn in Hurls, Hmsg. subst urls0 msg.
  unfold chatTry, hbind, get, initState.
  cbn [chat_urls chat_message chat_conversationHistory urlsArray fst snd elemsOf
       truthyVal isArray negb orb].
  destruct urls as [|u us]; [cbn in Hlo; lia|]. cbn [length Nat.eqb].
  assert (truthy message = true) as ->.
  { destruct message; [by destruct Htrim|done]. }
  cbn [negb].
  apply String.eqb_neq in Htrim. rewrite Htrim.
  assert ((3 <? S (length us))%nat = false) as -> by (apply Nat.ltb_ge; cbn in Hhi; lia).
  by rewrite Hgreet, Hsimple.
Qed.

(** *** The small-talk shortcut *)

Lemma randomResponse_canned :
  (0 <= mathRandom w)%Q -> (mathRandom w < 1)%Q ->
  exists canned, canned ∈ greetingResponses /\ randomResponse w = MStr canned.
Proof.
  intros Hlo Hhi. unfold randomResponse.
  change (inject_Z (Z.of_nat (length greetingResponses))) with (inject_Z 4).
  set (i := Qfloor (mathRandom w * inject_Z 4)).
  assert (0 <= i)%Z as Hi0.
  { change 0%Z with (Qfloor 0). apply Qfloor_resp_le.
    apply Qmult_le_0_compat; [done|]. by vm_compute. }
  assert (i < 4)%Z as Hi4.
  { rewrite Zlt_Qlt. eapply Qle_lt_trans; [apply Qfloor_le|].
    change (inject_Z 4) with (1 * inject_Z 4)%Q at 2.
    apply Qmult_lt_compat_r; [by vm_compute|done]. }
  destruct (i <? 0)%Z eqn:Hneg; [apply Z.ltb_lt in Hneg; lia|].
  assert (i = 0 \/ i = 1 \/ i = 2 \/ i = 3)%Z as [-> | [-> | [-> | ->]]] by lia;
    eexists; (split; [|reflexivity]); apply (bool_decide_unpack _); by vm_compute.
Qed.

Lemma shortcut_greeting urls message hist cache :
  (1 <= length urls <= 3)%nat ->
  trim message <> "" ->
  isGreeting (toLowerCase (trim message)) = true ->
  postChat w {| chat_urls := JArray urls; chat_message := JStr message;
                chat_conversationHistory := hist |} cache
  = {| vectorStoreCache := cache; urlsArray := urls; responseSent := true;
       timeoutId := None;
       sent := [{| status := 200; body := BChat (randomResponse w) [] |}];
       trace := []; awaited := 0 |}.
Proof.
  intros [Hlo Hhi] Htrim Hgreet.
  unfold postChat, chatHandler, tryCatch, chatTry, hbind, get, initState.
  cbn [chat_urls chat_message chat_conversationHistory urlsArray fst snd elemsOf
       truthyVal isArray negb orb].
  destruct urls as [|u us]; [cbn in Hlo; lia|]. cbn [length Nat.eqb].
  assert (truthy message = true) as ->.
  { destruct message; [by destruct Htrim|done]. }
  cbn [negb].
  apply String.eqb_neq in Htrim. rewrite Htrim.
  assert ((3 <? S (length us))%nat = false) as -> by (apply Nat.ltb_ge; cbn in Hhi; lia).
  rewrite Hgreet. by rewrite sendResponse_first.
Qed.

(** C8. For a valid list of one to three URLs, each of the messages "hi",
    "Hello!" and "hey there" is answered at once: one response, of
    status 200, whose message is one of the canned greetings and whose
    documents are empty; the trace is empty (no cache operation, no
    retrieval, no LLM call) and the cache is as before.  The message
    "hi-5" is no greeting and no simple phrase, and its handling starts
    with a lookup in the cache. *)
Theorem greeting_shortcut (urls : list string) hist cache :
  (1 <= length urls <= 3)%nat ->
  (0 <= mathRandom w)%Q -> (mathRandom w < 1)%Q ->
  (forall message, message ∈ ["hi"; "Hello!"; "hey there"] ->
     let st := postChat w {| chat_urls := JArray urls; chat_message := JStr message;
                             chat_conversationHistory := hist |} cache in
     exists canned,
       canned ∈ greetingResponses
       /\ sent st = [{| status := 200; body := BChat (MStr canned) [] |}]
       /\ trace st = []
       /\ vectorStoreCache st = cache)
  /\ (let st := postChat w {| chat_urls := JArray urls; chat_message := JStr "hi-5";
                              chat_conversationHistory := hist |} cache in
      isGreeting (toLowerCase (trim "hi-5")) = false
      /\ simpleResponsesGet (toLowerCase (trim "hi-5")) = None
      /\ exists rest, trace st = CacheHas (join "|" (sort urls)) :: rest).
Proof.
  intros Hlen Hlo Hhi. split.
  - intros message Hin st. subst st.
    destruct (randomResponse_canned Hlo Hhi) as (canned & Hcanned & Hrandom).
    exists canned. split; [done|].
    assert (trim message <> "" /\ isGreeting (toLowerCase (trim message)) = true)
      as [Htrim Hgreet].
    { repeat (apply elem_of_cons in Hin as [-> | Hin]);
        [split; [by vm_compute|by vm_compute]..|by apply elem_of_nil in Hin]. }
    rewrite (shortcut_greeting _ _ _ _ Hlen Htrim Hgreet). cbn [sent trace vectorStoreCache].
    by rewrite Hrandom.
  - intros st. subst st.
    split; [by vm_compute|]. split; [by vm_compute|].
    unfold postChat, chatHandler, tryCatch.
    rewrite (chatTry_reachesPipeline _ cache urls "hi-5").
    2: { unfold reachesPipeline. cbn [chat_urls chat_message].
         repeat split; try done; try lia; by vm_compute. }
    unfold initState. cbn [elemsOf]. rewrite chatAnswer_unfold. cbv zeta.
    destruct (cache !! join "|" (sort urls)) as [store|].
    + destruct (RagChain.invoke _ _) as [l r].
      destruct (timerFirst w GraphRace (DEFAULT_TIMEOUT_MS w));
        [|destruct r as [result|e]];
        unfold chatCatch, sendResponse, clearPendingTimeout, resJson, hbind, hret, get, modify;
        run_handler; by eexists.
    + destruct (RagChain.loadSplitEmbed (services w) (sort urls)) as [vs|e];
        destruct (timerFirst w BuildRace FIRST_LOAD_TIMEOUT_MS);
        try destruct (RagChain.invoke _ _) as [l r];
        try destruct (timerFirst w GraphRace 60000%N);
        try destruct r as [result|e'];
        unfold chatCatch, sendResponse, clearPendingTimeout, resJson, hbind, hret, get, modify;
        run_handler; by eexists.
Qed.

(** *** Failures of the chat handler *)

Lemma chatCatch_first e cache us tid tr aw :
  chatCatch e
    {| vectorStoreCache := cache; urlsArray := us; responseSent := false; timeoutId := tid;
       sent := []; trace := tr; awaited := aw |}
  = (Resolved tt,
     {| vectorStoreCache := cache; urlsArray := us; responseSent := true; timeoutId := None;
        sent := [failureResponse e]; trace := tr; awaited := aw |}).
Proof.
  unfold chatCatch, sendResponse, clearPendingTimeout, resJson, hbind, hret, get, modify.
  destruct tid; run_handler; by destruct (failureResponse e).
Qed.

Lemma failureResponse_status e :
  status (failureResponse e) = if includes "timeout" (message e) then 408 else 500.
Proof.
  unfold failureResponse. cbn [status].
  destruct (message e) as [|c m]; [reflexivity|]. reflexivity.
Qed.

Lemma timeoutError_status : status (failureResponse timeoutError) = 408.
Proof. by vm_compute. Qed.

(** C9 (as amended). When the [try] block of the chat handler fails,
    exactly one response is sent, and its status is 408 if the message
    of the error contains "timeout" and 500 otherwise.  When the timer
    of the build race or of the graph race fires first, the failure is
    the time-out error and the status is 408. *)
Theorem chat_failure_status (req : ChatRequest) cache :
  (forall e st',
      chatTry w req (initState cache (chat_urls req)) = (Rejected e, st') ->
      sent (postChat w req cache) = [failureResponse e]
      /\ status (failureResponse e)
         = if includes "timeout" (message e) then 408 else 500)
  /\ (forall urls message,
        reachesPipeline req urls message ->
        buildTimesOut w cache urls \/ graphTimesOut w cache urls ->
        (chatTry w req (initState cache (chat_urls req))).1 = Rejected timeoutError
        /\ map status (sent (postChat w req cache)) = [408]).
Proof.
  split.
  - intros e st' Hfail. split; [|apply failureResponse_status].
    unfold postChat, chatHandler, tryCatch.
    destruct (chatTry_cases req cache) as [[st Hok]|[Htype|(urls & m & Hreach & Hrun)]];
      cbv zeta in *.
    + rewrite Hok in Hfail. discriminate.
    + rewrite Htype in Hfail |- *. injection Hfail as <- <-.
      unfold initState. by rewrite chatCatch_first.
    + rewrite Hrun in Hfail |- *. destruct Hreach as (Hurls & _). rewrite Hurls in *.
      unfold initState in *. cbn [elemsOf] in *.
      rewrite chatAnswer_unfold in Hfail |- *. cbv zeta in *.
      destruct (cache !! join "|" (sort urls)) as [store|].
      * destruct (RagChain.invoke _ _) as [l r].
        destruct (timerFirst w GraphRace (DEFAULT_TIMEOUT_MS w));
          [|destruct r as [result|e']]; try discriminate;
          injection Hfail as <- <-; by rewrite chatCatch_first.
      * destruct (RagChain.loadSplitEmbed (services w) (sort urls)) as [vs|e'];
          destruct (timerFirst w BuildRace FIRST_LOAD_TIMEOUT_MS);
          try destruct (RagChain.invoke _ _) as [l r];
          try destruct (timerFirst w GraphRace 60000%N);
          try destruct r as [result|e'']; try discriminate;
          injection Hfail as <- <-; by rewrite chatCatch_first.
  - intros urls m Hreach Htimeout.
    unfold postChat, chatHandler, tryCatch.
    rewrite (chatTry_reachesPipeline _ cache _ _ Hreach).
    unfold initState. cbn [elemsOf]. rewrite chatAnswer_unfold. cbv zeta.
    destruct Htimeout as [[Hmiss Hfirst]|[[[store Hhit] Hfirst]|(Hmiss & Hbuild & [vs Hvs] & Hfirst)]].
    + rewrite Hmiss, Hfirst.
      destruct (RagChain.loadSplitEmbed (services w) (sort urls)) as [vs|e'];
        cbn [fst]; (split; [done|]); rewrite chatCatch_first; cbn [snd sent map];
        by rewrite timeoutError_status.
    + rewrite Hhit. destruct (RagChain.invoke _ _) as [l r]. rewrite Hfirst.
      cbn [fst]. split; [done|]. rewrite chatCatch_first. cbn [snd sent map].
      by rewrite timeoutError_status.
    + rewrite Hmiss, Hvs, Hbuild. destruct (RagChain.invoke _ _) as [l r]. rewrite Hfirst.
      cbn [fst]. split; [done|]. rewrite chatCatch_first. cbn [snd sent map].
      by rewrite timeoutError_status.
Qed.

(** *** The request's array after the cache key is computed *)

Lemma getOrCreateVectorStore_sorts st :
  urlsArray (getOrCreateVectorStore w st).2 = sort (urlsArray st).
Proof.
  destruct st as [cache us rs tid snt tr aw].
  unfold getOrCreateVectorStore, sortUrlsInPlace, logEvent, await,
    RagChain.buildVectorStore, bind, log, hbind, hret, get, modify.
  run_handler.
  destruct (cache !! join "|" (sort us)); run_handler; [done|].
  destruct (RagChain.loadSplitEmbed (services w) (sort us)); run_handler; done.
Qed.

Lemma graphInput_urls m urls store hist :
  graphInput m urls store hist !! "urls" = Some (VStrs urls).
Proof. unfold graphInput. rewrite lookup_insert_ne by done. by rewrite lookup_insert_eq. Qed.

Lemma graphInput_vectorStore m urls store hist :
  graphInput m urls store hist !! "vectorStore" = Some (VStore store).
Proof. unfold graphInput. rewrite !lookup_insert_ne by done. by rewrite lookup_insert_eq. Qed.

(** C10. [getOrCreateVectorStore] leaves the caller's array sorted.  For
    a chat request that reaches the answering part, the request's array
    is sorted when the handler is done; every [buildVectorStore] of the
    run got the sorted list, and every state of the graph run has the
    sorted list as its [urls].  The sorted list is the client's list in
    ascending code-unit order. *)
Theorem urls_sorted_in_place (req : ChatRequest) cache urls message :
  reachesPipeline req urls message ->
  let st := postChat w req cache in
  (forall st0, urlsArray (getOrCreateVectorStore w st0).2 = sort (urlsArray st0))
  /\ urlsArray st = sort urls
  /\ Sorted codeUnitLe (sort urls)
  /\ Permutation (sort urls) urls
  /\ (forall e, e ∈ trace st ->
        (forall urls', e = BuildVectorStore urls' -> urls' = sort urls)
        /\ (forall n s, e = NodeStart n s \/ e = NodeEnd n s ->
                        RagChain.urls_of s = sort urls)).
Proof.
  intros Hreach st. subst st.
  split; [apply getOrCreateVectorStore_sorts|].
  assert (Hgraph : forall store l r,
             RagChain.invoke (services w)
               (graphInput message (sort urls) store
                  (default [] (chat_conversationHistory req))) = (l, r) ->
             forall e, e ∈ l ->
               (forall urls', e = BuildVectorStore urls' -> urls' = sort urls)
               /\ (forall n s, e = NodeStart n s \/ e = NodeEnd n s ->
                               RagChain.urls_of s = sort urls)).
  { intros store l r Hinv e He.
    destruct (invoke_observes_urls (services w) _ _ _
                (graphInput_urls message (sort urls) store
                   (default [] (chat_conversationHistory req)))
                (graphInput_vectorStore message (sort urls) store
                   (default [] (chat_conversationHistory req)))) as [Hlog _].
    rewrite Hinv in Hlog. destruct (Hlog e He) as [Hstates Hbuild].
    split; [|done]. intros urls' ->. by destruct (Hbuild urls'). }
  unfold postChat, chatHandler, tryCatch.
  rewrite (chatTry_reachesPipeline _ cache _ _ Hreach).
  unfold initState. cbn [elemsOf]. rewrite chatAnswer_unfold. cbv zeta.
  split; [|split; [apply sort_Sorted|split; [apply sort_Permutation|]]].
  - destruct (cache !! join "|" (sort urls)) as [store|].
    + destruct (RagChain.invoke _ _) as [l r].
      destruct (timerFirst w GraphRace (DEFAULT_TIMEOUT_MS w));
        [|destruct r as [result|e']]; by rewrite ?chatCatch_first.
    + destruct (RagChain.loadSplitEmbed (services w) (sort urls)) as [vs|e'];
        destruct (timerFirst w BuildRace FIRST_LOAD_TIMEOUT_MS);
        try destruct (RagChain.invoke _ _) as [l r];
        try destruct (timerFirst w GraphRace 60000%N);
        try destruct r as [result|e'']; by rewrite ?chatCatch_first.
  - destruct (cache !! join "|" (sort urls)) as [store|].
    + destruct (RagChain.invoke _ _) as [l r] eqn:Hinv.
      specialize (Hgraph _ _ _ Hinv).
      destruct (timerFirst w GraphRace (DEFAULT_TIMEOUT_MS w));
        [|destruct r as [result|e']]; rewrite ?chatCatch_first; cbn [snd trace app];
        intros e He; mem_cases He; subst; (try by apply Hgraph); split; try done;
        by intros ? ? [?|?].
    + destruct (RagChain.loadSplitEmbed (services w) (sort urls)) as [vs|e'];
        destruct (timerFirst w BuildRace FIRST_LOAD_TIMEOUT_MS);
        try (destruct (RagChain.invoke _ _) as [l r] eqn:Hinv;
             specialize (Hgraph _ _ _ Hinv));
        try destruct (timerFirst w GraphRace 60000%N);
        try destruct r as [result|e'']; rewrite ?chatCatch_first; cbn [snd trace app];
        intros e He; mem_cases He; subst; (try by apply Hgraph); split; try done;
        try (by intros ? ? [?|?]); by intros ? [= <-].
Qed.

End ServerProperties.

Section QueryProperties.
Import JsString Server.
Context (w : World).

(** The legacy handler has no limit on the number of URLs: with any
    non-empty array and a question that is not blank it builds or reuses
    the index and answers 200, or 500 when the build or the run fails. *)
Lemma query_has_no_url_limit (urls : list string) (question : string) cache :
  urls <> [] ->
  trim question <> "" ->
  exists r,
    sent (postQuery w {| query_urls := JArray urls; query_question := JStr question |}
            cache) = [r]
    /\ (status r = 200 \/ status r = 500).
Proof.
  intros Hurls Htrim.
  unfold postQuery, queryHandler, tryCatch, hbind, get, initState.
  cbn [query_urls query_question urlsArray fst snd elemsOf truthyVal isArray negb orb].
  destruct urls as [|u us]; [done|]. cbn [length Nat.eqb].
  assert (truthy question = true) as ->.
  { destruct question; [by destruct Htrim|done]. }
  cbn [negb]. apply String.eqb_neq in Htrim. rewrite Htrim.
  unfold getOrCreateVectorStore, sortUrlsInPlace, logEvent, await, resJson,
    RagChain.buildVectorStore, bind, log, hbind, hret, get, modify.
  run_handler.
  destruct (cache !! join "|" (sort (u :: us))) as [store|]; run_handler.
  - destruct (RagChain.invoke _ _) as [l [result|e]]; run_handler;
      eexists; (split; [reflexivity|]); cbn; tauto.
  - destruct (RagChain.loadSplitEmbed (services w) (sort (u :: us))) as [vs|e];
      run_handler.
    + destruct (RagChain.invoke _ _) as [l [result|e]]; run_handler;
        eexists; (split; [reflexivity|]); cbn; tauto.
    + eexists; (split; [reflexivity|]); cbn; tauto.
Qed.

End QueryProperties.

Section ServerExamples.
Import JsString Server Examples.

(** C3, at the failing input: a query with four URLs and a question is
    not rejected; the index is built for the four URLs and the response
    has status 200. *)
Theorem query_answers_four_urls :
  length (elemsOf (query_urls fourUrls)) = 4
  /\ sent (postQuery (calm helpful) fourUrls ∅)
     = [{| status := 200;
           body := BQuery "What is this about?" ["alpha"; "beta"] 2
                          (Some "It is about alpha and beta.") |}]
  /\ BuildVectorStore ["https://example.com/a"; "https://example.com/b";
                       "https://example.com/c"; "https://example.com/d"]
     ∈ trace (postQuery (calm helpful) fourUrls ∅).
Proof.
  split; [reflexivity|]. split; [vm_compute; reflexivity|].
  apply (bool_decide_unpack _). by vm_compute.
Qed.

(** C9 does not hold as the specification states it: no timer fires
    first, the build fails because a fetch timed out, and the response has
    status 408, not 500. *)
Lemma build_failure_answered_408 :
  let req := chat ["https://example.com/a"] "What is this about?" in
  (forall race ms, timerFirst (calm fetchFails) race ms = false)
  /\ RagChain.loadSplitEmbed fetchFails ["https://example.com/a"]
     = Rejected {| message := "network timeout at: https://example.com/a" |}
  /\ (chatTry (calm fetchFails) req (initState ∅ (chat_urls req))).1
     = Rejected {| message := "network timeout at: https://example.com/a" |}
  /\ sent (postChat (calm fetchFails) req ∅)
     = [{| status := 408;
           body := BFailure "Request Timeout"
                            "network timeout at: https://example.com/a" |}].
Proof.
  split; [done|]. split; [reflexivity|]. split; vm_compute; reflexivity.
Qed.

(** A question that is no small talk reaches the answering part. *)
Lemma reaches_question (urls : list string) :
  (1 <= length urls <= 3)%nat ->
  reachesPipeline (chat urls "What is this about?") urls "What is this about?".
Proof.
  intros Hlen. unfold reachesPipeline, chat. cbn [chat_urls chat_message].
  repeat split; try done; try lia; by vm_compute.
Qed.

(** An instance: one URL, and [Math.random()] giving 1/2. *)
Lemma greeting_shortcut_witness :
  (forall message, message ∈ ["hi"; "Hello!"; "hey there"] ->
     let st := postChat (calm helpful)
                 {| chat_urls := JArray ["https://example.com/a"];
                    chat_message := JStr message;
                    chat_conversationHistory := None |} ∅ in
     exists canned,
       canned ∈ greetingResponses
       /\ sent st = [{| status := 200; body := BChat (MStr canned) [] |}]
       /\ trace st = []
       /\ vectorStoreCache st = ∅)
  /\ (let st := postChat (calm helpful)
                  {| chat_urls := JArray ["https://example.com/a"];
                     chat_message := JStr "hi-5";
                     chat_conversationHistory := None |} ∅ in
      isGreeting (toLowerCase (trim "hi-5")) = false
      /\ simpleResponsesGet (toLowerCase (trim "hi-5")) = None
      /\ exists rest, trace st = CacheHas (join "|" (sort ["https://example.com/a"])) :: rest).
Proof.
  apply (greeting_shortcut (calm helpful) ["https://example.com/a"] None ∅).
  - cbn. lia.
  - by vm_compute.
  - by vm_compute.
Defined.

(** An instance: the build fails on a fetch that timed out. *)
Lemma chat_failure_status_witness :
  let req := chat ["https://example.com/a"] "What is this about?" in
  sent (postChat (calm fetchFails) req ∅)
  = [failureResponse {| message := "network timeout at: https://example.com/a" |}]
  /\ status (failureResponse {| message := "network timeout at: https://example.com/a" |})
     = 408.
Proof.
  intros req.
  destruct (chat_failure_status (calm fetchFails) req ∅) as [H _].
  destruct (H {| message := "network timeout at: https://example.com/a" |}
              (snd (chatTry (calm fetchFails) req (initState ∅ (chat_urls req)))))
    as [Hsent Hstatus].
  - vm_compute. reflexivity.
  - split; [exact Hsent|exact Hstatus].
Defined.

(** An instance: the client sends b before a; the array, the build and
    the graph states have a before b. *)
Lemma urls_sorted_in_place_witness :
  let req := chat ["https://example.com/b"; "https://example.com/a"]
                  "What is this about?" in
  let st := postChat (calm helpful) req ∅ in
  urlsArray st = ["https://example.com/a"; "https://example.com/b"]
  /\ urlsArray st <> elemsOf (chat_urls req)
  /\ (forall e, e ∈ trace st ->
        (forall urls', e = BuildVectorStore urls' ->
                       urls' = ["https://example.com/a"; "https://example.com/b"])
        /\ (forall n s, e = NodeStart n s \/ e = NodeEnd n s ->
                        RagChain.urls_of s
                        = ["https://example.com/a"; "https://example.com/b"])).
Proof.
  intros req st.
  destruct (urls_sorted_in_place (calm helpful) req ∅
              ["https://example.com/b"; "https://example.com/a"] "What is this about?")
    as (_ & Harray & _ & _ & Htrace).
  - apply reaches_question. cbn. lia.
  - split; [exact Harray|]. split; [|exact Htrace].
    subst st. rewrite Harray. vm_compute. discriminate.
Defined.

End ServerExamples.

Section EventLoopProperties.
Import JsString EventLoop.

Context (key : string) (failure : nat -> option JsError).

Lemma run_app p s1 s2 : run (run p s1) s2 = run p (s1 ++ s2).
Proof. unfold run. by rewrite foldl_app. Qed.

(** The calls begin one after the other, before any build settles: each
    misses the cache and starts a build of its own. *)
Lemma run_begins (requests : list (list string)) :
  forall cache pre bs,
    (forall urls, urls ∈ requests -> cacheKeyOf urls = key) ->
    cache !! key = None ->
    run {| vectorStoreCache := cache; calls := pre ++ map NotStarted requests;
           builds := bs |}
        (map Begin (seq (length pre) (length requests)))
    = {| vectorStoreCache := cache;
         calls := pre ++ imap (fun j urls => AwaitingBuild (sort urls) key (length bs + j))
                           requests;
         builds := bs ++ map sort requests |}.
Proof.
  induction requests as [|urls rest IH]; intros cache pre bs Hkey Hmiss.
  - cbn. by rewrite !app_nil_r.
  - cbn [length seq map run foldl step].
    assert (Hurls : join "|" (sort urls) = key) by (apply Hkey; left).
    unfold begin at 1. cbn [calls vectorStoreCache builds].
    rewrite list_lookup_middle by done. cbv zeta. rewrite Hurls, Hmiss.
    rewrite insert_app_r_alt by done. rewrite Nat.sub_diag. cbn [insert list_insert].
    specialize (IH cache (pre ++ [AwaitingBuild (sort urls) key (length bs)])
                  (bs ++ [sort urls])).
    rewrite length_app in IH. cbn [length] in IH. rewrite Nat.add_1_r in IH.
    rewrite <- (app_assoc pre [_]) in IH. cbn [app] in IH.
    unfold run in IH. rewrite IH; [|intros; apply Hkey; by right|done].
    rewrite <- !app_assoc. cbn [app imap]. rewrite Nat.add_0_r.
    do 3 f_equal. apply imap_ext. intros j x _. cbn.
    rewrite length_app. cbn. f_equal. lia.
Qed.

(** The builds settle, in any order: each call returns what its own
    build gave. *)
Lemma run_settles (requests : list (list string)) (order : list nat) :
  forall p,
    (forall i urls, requests !! i = Some urls ->
       calls p !! i = Some (AwaitingBuild (sort urls) key i)
       \/ calls p !! i = Some (Settled (sort urls) (ownResult failure i))) ->
    length (calls p) = length requests ->
    let p' := run p (map (fun i => BuildSettles i (failure i)) order) in
    (builds p' = builds p
     /\ length (calls p') = length requests
     /\ (forall i urls, requests !! i = Some urls ->
           calls p' !! i = Some (Settled (sort urls) (ownResult failure i))
           \/ ((i ∉ order) /\ calls p' !! i = calls p !! i))).
Proof.
  induction order as [|j order IH]; intros p Hinv Hlen p'; subst p'.
  - cbn. split; [done|]. split; [done|]. intros i urls Hi. right. split; [|done].
    by intros ?%elem_of_nil.
  - cbn [map run foldl step].
    set (q := buildSettles j (failure j) p).
    assert (Hq : builds q = builds p /\ length (calls q) = length requests
                 /\ (forall i urls, requests !! i = Some urls ->
                       (calls q !! i = Some (AwaitingBuild (sort urls) key i)
                        /\ i <> j /\ calls q !! i = calls p !! i)
                       \/ calls q !! i = Some (Settled (sort urls) (ownResult failure i)))).
    { subst q. unfold buildSettles.
      destruct (calls p !! j) as [[urls0|urls0 key0 b|urls0 r0]|] eqn:Hj;
        try (split; [done|]; split; [done|]; intros i urls Hi;
             destruct (Hinv i urls Hi) as [Ha|Hs]; [left|by right];
             split; [done|]; split; [|done]; intros ->; congruence).
      assert (Hcase : forall v,
                forall i urls, requests !! i = Some urls ->
                  v = Settled urls0 (ownResult failure j) ->
                  (<[j:=v]> (calls p) !! i = Some (AwaitingBuild (sort urls) key i)
                   /\ i <> j /\ <[j:=v]> (calls p) !! i = calls p !! i)
                  \/ <[j:=v]> (calls p) !! i
                     = Some (Settled (sort urls) (ownResult failure i))).
      { intros v i urls Hi ->. destruct (decide (i = j)) as [->|Hne].
        - right. rewrite list_lookup_insert_eq by (by apply lookup_lt_Some in Hj).
          destruct (Hinv j urls Hi) as [Ha|Hs]; congruence.
        - rewrite list_lookup_insert_ne by done.
          destruct (Hinv i urls Hi) as [Ha|Hs]; [left|by right]. done. }
      assert (Hb : b = j).
      { destruct (requests !! j) as [urls|] eqn:Hreq.
        - destruct (Hinv j urls Hreq); congruence.
        - apply lookup_ge_None in Hreq. apply lookup_lt_Some in Hj. lia. }
      subst b.
      destruct (failure j) as [e|] eqn:Hf; cbn [builds calls];
        (split; [done|]); (split; [by rewrite length_insert|]);
        intros i urls Hi; apply Hcase; try done; unfold ownResult; by rewrite Hf. }
    destruct Hq as (Hb & Hl & Hq).
    destruct (IH q) as (Hb' & Hl' & Hres'); [|done|].
    { intros i urls Hi. destruct (Hq i urls Hi) as [(Ha & _)|Hs]; [by left|by right]. }
    unfold run in *. split; [congruence|]. split; [done|].
    intros i urls Hi. destruct (Hres' i urls Hi) as [Hs|[Hnot Hsame]]; [by left|].
    rewrite Hsame. destruct (Hq i urls Hi) as [(_ & Hne & Hp)|Hs]; [|by left].
    right. split; [|done]. intros [->|?]%elem_of_cons; done.
Qed.

(** A call that begins when the key is cached returns the cached store
    and starts no build. *)
Lemma cached_call_builds_nothing (p : Process) (i : nat) (urls : list string)
    (store : MemoryVectorStore) :
  calls p !! i = Some (NotStarted urls) ->
  vectorStoreCache p !! cacheKeyOf urls = Some store ->
  resultOf (begin i p) i = Some (Resolved store)
  /\ builds (begin i p) = builds p
  /\ vectorStoreCache (begin i p) = vectorStoreCache p.
Proof.
  intros Hcall Hhit. unfold begin, resultOf. rewrite Hcall. cbv zeta.
  unfold cacheKeyOf in Hhit. rewrite Hhit. cbn [calls builds vectorStoreCache].
  rewrite list_lookup_insert_eq by (by apply lookup_lt_Some in Hcall). done.
Qed.

(** C1 (as amended). Calls for the same key that all begin while the key
    is not cached and before any build has settled start one build
    each: as many builds run as there are callers, the build of a call
    gets that call's sorted list, and each caller gets the store created
    by its own build (stores of different builds are different objects)
    or the failure of its own build, whatever the order in which the
    builds settle. *)
Theorem overlapping_calls_build_each (cache : gmap string MemoryVectorStore)
    (requests : list (list string)) (order : list nat) :
  (forall urls, urls ∈ requests -> cacheKeyOf urls = key) ->
  cache !! key = None ->
  (forall i, i < length requests -> i ∈ order) ->
  let p := run (start cache requests)
               (map Begin (seq 0 (length requests))
                ++ map (fun i => BuildSettles i (failure i)) order) in
  length (builds p) = length requests
  /\ (forall i urls, requests !! i = Some urls ->
        builds p !! i = Some (sort urls)
        /\ resultOf p i = Some (ownResult failure i)).
Proof.
  intros Hkey Hmiss Hall p. subst p.
  rewrite <- run_app. unfold start.
  pose proof (run_begins requests cache [] [] Hkey Hmiss) as Hbegin.
  cbn [app length] in Hbegin. rewrite Hbegin. clear Hbegin.
  match goal with |- context [run ?q _] => set (p := q) end.
  destruct (run_settles requests order p) as (Hb & Hl & Hres).
  { intros i urls Hi. left. subst p. cbn [calls].
    rewrite list_lookup_imap, Hi. reflexivity. }
  { subst p. cbn [calls]. by rewrite length_imap. }
  rewrite Hb. subst p. cbn [builds]. split; [by rewrite length_map|].
  intros i urls Hi. split; [by rewrite list_lookup_fmap, Hi|].
  unfold resultOf.
  destruct (Hres i urls Hi) as [Hs|[Hnot _]]; [by rewrite Hs|].
  destruct Hnot. apply Hall. by apply lookup_lt_Some in Hi.
Qed.

End EventLoopProperties.

Section EventLoopExamples.
Import JsString EventLoop.

(** C1 does not hold as the specification states it: two calls with the
    same key overlap; two builds run and the callers get different
    stores. *)
Lemma overlapping_calls_build_twice :
  let p := run (start ∅ [["https://example.com/a"; "https://example.com/b"];
                         ["https://example.com/b"; "https://example.com/a"]])
               [Begin 0; Begin 1; BuildSettles 0 None; BuildSettles 1 None] in
  cacheKeyOf ["https://example.com/a"; "https://example.com/b"]
  = cacheKeyOf ["https://example.com/b"; "https://example.com/a"]
  /\ length (builds p) = 2
  /\ resultOf p 0 = Some (Resolved {| storeId := 0 |})
  /\ resultOf p 1 = Some (Resolved {| storeId := 1 |}).
Proof. repeat split; vm_compute; reflexivity. Qed.

(** An instance: two calls whose builds settle in the reverse order. *)
Lemma overlapping_calls_build_each_witness :
  let requests := [["https://example.com/a"; "https://example.com/b"];
                   ["https://example.com/b"; "https://example.com/a"]] in
  let p := run (start ∅ requests)
               (map Begin (seq 0 (length requests))
                ++ map (fun i => BuildSettles i None) [1; 0]) in
  length (builds p) = 2
  /\ (forall i urls, requests !! i = Some urls ->
        builds p !! i = Some (sort urls)
        /\ resultOf p i = Some (ownResult (fun _ => None) i)).
Proof.
  apply (overlapping_calls_build_each
           "https://example.com/a|https://example.com/b" (fun _ => None) ∅).
  - intros urls Hin. repeat (apply elem_of_cons in Hin as [-> | Hin]);
      [by vm_compute..|by apply elem_of_nil in Hin].
  - reflexivity.
  - intros i Hi. cbn in Hi.
    assert (i = 0 \/ i = 1) as [-> | ->] by lia;
      apply (bool_decide_unpack _); by vm_compute.
Defined.

End EventLoopExamples.

Section OneCall.
Import JsString.
Context (w : Server.World).

(** One call that runs alone, in the two parts of the event loop, does
    what [getOrCreateVectorStore] does in one go: the same result and
    the same cache (the store of the one build being the object 0). *)
Lemma single_call_agrees (cache : gmap string MemoryVectorStore) (urls : list string) :
  let built := RagChain.loadSplitEmbed (Server.services w) (sort urls) in
  (forall store, built = Resolved store -> store = {| storeId := 0 |}) ->
  let failure := match built with Resolved _ => None | Rejected e => Some e end in
  let p := EventLoop.run (EventLoop.start cache [urls])
             [EventLoop.Begin 0; EventLoop.BuildSettles 0 failure] in
  let done := Server.getOrCreateVectorStore w (Server.initState cache (Server.JArray urls)) in
  EventLoop.resultOf p 0 = Some done.1
  /\ EventLoop.vectorStoreCache p = Server.vectorStoreCache done.2
  /\ Server.urlsArray done.2 = sort urls.
Proof.
  intros built Hstore failure p done. subst p done failure.
  unfold Server.getOrCreateVectorStore, Server.sortUrlsInPlace, Server.logEvent,
    Server.await, RagChain.buildVectorStore, bind, log, Server.hbind, Server.hret,
    Server.get, Server.modify, Server.initState.
  run_handler. cbn [Server.elemsOf].
  unfold EventLoop.run, EventLoop.start. cbn [foldl EventLoop.step map].
  unfold EventLoop.begin.
  cbn [EventLoop.calls EventLoop.vectorStoreCache lookup list_lookup]. cbv zeta.
  subst built.
  destruct (cache !! join "|" (sort urls)) as [store|] eqn:Hc.
  - unfold EventLoop.buildSettles, EventLoop.resultOf. cbn. done.
  - unfold EventLoop.buildSettles, EventLoop.resultOf. cbn.
    destruct (RagChain.loadSplitEmbed (Server.services w) (sort urls)) as [vs|e] eqn:Hb; cbn.
    + rewrite (Hstore vs eq_refl). done.
    + done.
Qed.
End OneCall.

(** * Further properties of the handlers, the graph and the cache *)

Section CacheKeyProperties.
Import JsString Requests.

Lemma compare_not_Gt_trans (a b c : string) :
  String.compare a b <> Gt -> String.compare b c <> Gt -> String.compare a c <> Gt.
Proof.
  revert b c. induction a as [|x a IH]; intros [|y b] [|z c]; cbn; try done.
  unfold Ascii.compare.
  destruct (N.compare_spec (N_of_ascii x) (N_of_ascii y)) as [Hxy|Hxy|Hxy]; [| |done].
  - destruct (N.compare_spec (N_of_ascii y) (N_of_ascii z)) as [Hyz|Hyz|Hyz]; [| |done].
    + rewrite Hxy, Hyz, N.compare_refl. apply IH.
    + intros _ _. rewrite Hxy. apply N.compare_lt_iff in Hyz. by rewrite Hyz.
  - destruct (N.compare_spec (N_of_ascii y) (N_of_ascii z)) as [Hyz|Hyz|Hyz]; [| |done].
    + intros _ _. rewrite <- Hyz. apply N.compare_lt_iff in Hxy. by rewrite Hxy.
    + intros _ _.
      assert (N_of_ascii x < N_of_ascii z)%N as H by lia.
      apply N.compare_lt_iff in H. by rewrite H.
Qed.

Lemma codeUnitLe_trans (a b c : string) :
  codeUnitLe a b -> codeUnitLe b c -> codeUnitLe a c.
Proof.
  unfold codeUnitLe, String.leb. intros Hab Hbc.
  pose proof (compare_not_Gt_trans a b c) as H.
  destruct (String.compare a b), (String.compare b c), (String.compare a c);
    try done; exfalso; by apply H.
Qed.

Lemma Sorted_codeUnitLe_unique (l1 l2 : list string) :
  Sorted codeUnitLe l1 -> Sorted codeUnitLe l2 -> Permutation l1 l2 -> l1 = l2.
Proof.
  intros H1 H2.
  apply Sorted_StronglySorted in H1; [|intros a b c; apply codeUnitLe_trans].
  apply Sorted_StronglySorted in H2; [|intros a b c; apply codeUnitLe_trans].
  revert l2 H2. induction H1 as [|x l1 Hs1 IH Hx]; intros l2 H2 Hperm.
  - by apply Permutation_nil in Hperm.
  - destruct H2 as [|y l2 Hs2 Hy].
    + symmetry in Hperm. by apply Permutation_nil in Hperm.
    + assert (x = y) as ->.
      { assert (Hxin : x ∈ y :: l2) by (rewrite <- Hperm; left).
        assert (Hyin : y ∈ x :: l1) by (rewrite Hperm; left).
        apply elem_of_cons in Hxin as [->|Hxin]; [done|].
        apply elem_of_cons in Hyin as [->|Hyin]; [done|].
        rewrite List.Forall_forall in Hx, Hy.
        apply String.leb_antisym.
        - apply Hx. by apply list_elem_of_In.
        - apply Hy. by apply list_elem_of_In. }
      f_equal. apply IH; [done|]. by apply Permutation_cons_inv in Hperm.
Qed.

Lemma sort_Permutation_eq (urls1 urls2 : list string) :
  Permutation urls1 urls2 -> sort urls1 = sort urls2.
Proof.
  intros Hperm.
  apply Sorted_codeUnitLe_unique; [apply sort_Sorted..|].
  by rewrite !sort_Permutation.
Qed.

(** X1. The cache key does not depend on the order of the URLs: two lists with
    the same URLs, each as often, sort to the same list and get the same
    key. *)
Theorem cacheKey_order_insensitive (urls1 urls2 : list string) :
  Permutation urls1 urls2 ->
  sort urls1 = sort urls2
  /\ join "|" (sort urls1) = join "|" (sort urls2).
Proof.
  intros Hperm. by rewrite (sort_Permutation_eq _ _ Hperm).
Qed.

Lemma barFree_app a b : barFree (a +:+ b) = barFree a && barFree b.
Proof.
  induction a as [|c a IH]; [done|].
  change (String c a +:+ b) with (String c (a +:+ b)).
  cbn [barFree]. rewrite IH. by destruct (c =? "|")%char.
Qed.

Lemma join_cons2 x y l : join "|" (x :: y :: l) = x +:+ "|" +:+ join "|" (y :: l).
Proof. reflexivity. Qed.

Lemma bar_split (x y r1 r2 : string) :
  barFree x = true -> barFree y = true ->
  x +:+ "|" +:+ r1 = y +:+ "|" +:+ r2 -> x = y /\ r1 = r2.
Proof.
  revert y. induction x as [|c x IH]; intros [|d y] Hx Hy Heq.
  - cbn in Heq. injection Heq as Heq. by subst.
  - cbn in Heq. injection Heq as Hd _. subst d. cbn in Hy. done.
  - cbn in Heq. injection Heq as Hc _. subst c. cbn in Hx. done.
  - cbn in Heq. injection Heq as Hc Heq. subst d.
    cbn [barFree] in Hx, Hy.
    apply andb_true_iff in Hx as [_ Hx]. apply andb_true_iff in Hy as [_ Hy].
    destruct (IH y Hx Hy Heq) as [Hxy Hr]. by subst.
Qed.

Lemma join_barFree_inj (l1 l2 : list string) :
  Forall (fun u => barFree u = true) l1 ->
  Forall (fun u => barFree u = true) l2 ->
  l1 <> [] -> l2 <> [] ->
  join "|" l1 = join "|" l2 -> l1 = l2.
Proof.
  intros H1. revert l2. induction H1 as [|x l1 Hx H1 IH]; intros l2 H2 Hne1 Hne2 Heq; [done|].
  destruct H2 as [|y l2 Hy H2]; [done|].
  destruct l1 as [|x' l1], l2 as [|y' l2].
  - cbn in Heq. by subst.
  - rewrite join_cons2 in Heq. cbn [join String.concat] in Heq.
    rewrite Heq, barFree_app in Hx. cbn in Hx. by rewrite andb_false_r in Hx.
  - rewrite join_cons2 in Heq. cbn [join String.concat] in Heq.
    rewrite <- Heq, barFree_app in Hy. cbn in Hy. by rewrite andb_false_r in Hy.
  - rewrite !join_cons2 in Heq.
    apply bar_split in Heq as [-> Heq]; [|done..].
    f_equal. apply IH; done.
Qed.

(** X2. When no URL contains the separator "|", different URL sets get
    different keys: two non-empty lists with the same key have the same
    URLs, each as often. *)
Theorem cacheKey_injective (urls1 urls2 : list string) :
  Forall (fun u => barFree u = true) urls1 ->
  Forall (fun u => barFree u = true) urls2 ->
  urls1 <> [] -> urls2 <> [] ->
  join "|" (sort urls1) = join "|" (sort urls2) ->
  Permutation urls1 urls2.
Proof.
  intros H1 H2 Hne1 Hne2 Heq.
  rewrite <- (sort_Permutation urls1), <- (sort_Permutation urls2).
  assert (sort urls1 = sort urls2) as ->; [|done].
  apply join_barFree_inj; try done.
  - by rewrite sort_Permutation.
  - by rewrite sort_Permutation.
  - intros Hnil. apply Hne1. apply Permutation_nil. by rewrite <- Hnil, sort_Permutation.
  - intros Hnil. apply Hne2. apply Permutation_nil. by rewrite <- Hnil, sort_Permutation.
Qed.

End CacheKeyProperties.

Section CacheKeyExamples.
Import JsString Requests.

(** An instance: the same two URLs in both orders. *)
Lemma cacheKey_order_insensitive_witness :
  join "|" (sort ["https://example.com/b"; "https://example.com/a"])
  = join "|" (sort ["https://example.com/a"; "https://example.com/b"]).
Proof.
  apply (cacheKey_order_insensitive ["https://example.com/b"; "https://example.com/a"]
           ["https://example.com/a"; "https://example.com/b"]).
  apply perm_swap.
Defined.

(** An instance: a key of two URLs, met by a list of the same URLs. *)
Lemma cacheKey_injective_witness :
  Permutation ["https://example.com/b"; "https://example.com/a"]
              ["https://example.com/a"; "https://example.com/b"].
Proof.
  apply cacheKey_injective.
  - repeat constructor.
  - repeat constructor.
  - discriminate.
  - discriminate.
  - vm_compute. reflexivity.
Defined.

End CacheKeyExamples.

Section StoreCacheProperties.
Import JsString Server Requests.
Context (w : World).

(** [getOrCreateVectorStore], outcome by outcome. *)
Lemma getOrCreateVectorStore_unfold cache us rs tid snt tr aw :
  getOrCreateVectorStore w
    {| vectorStoreCache := cache; urlsArray := us; responseSent := rs; timeoutId := tid;
       sent := snt; trace := tr; awaited := aw |}
  = let us' := sort us in
    let key := join "|" us' in
    match cache !! key with
    | Some store =>
        (Resolved store,
         {| vectorStoreCache := cache; urlsArray := us'; responseSent := rs;
            timeoutId := tid; sent := snt; trace := tr ++ [CacheHas key; CacheGet key];
            awaited := aw |})
    | None =>
        match RagChain.loadSplitEmbed (services w) us' with
        | Resolved vs =>
            (Resolved vs,
             {| vectorStoreCache := <[ key := vs ]> cache; urlsArray := us';
                responseSent := rs; timeoutId := tid; sent := snt;
                trace := tr ++ [CacheHas key; BuildVectorStore us'; CacheSet key vs];
                awaited := S aw |})
        | Rejected e =>
            (Rejected e,
             {| vectorStoreCache := cache; urlsArray := us'; responseSent := rs;
                timeoutId := tid; sent := snt;
                trace := tr ++ [CacheHas key; BuildVectorStore us']; awaited := S aw |})
        end
    end.
Proof.
  unfold getOrCreateVectorStore, sortUrlsInPlace, logEvent, await,
    RagChain.buildVectorStore, bind, log, hbind, hret, get, modify.
  run_handler.
  destruct (cache !! join "|" (sort us)); run_handler; [by rewrite <- !app_assoc|].
  destruct (RagChain.loadSplitEmbed (services w) (sort us)); run_handler;
    by rewrite <- !app_assoc.
Qed.

Lemma buildsIn_app l1 l2 : buildsIn (l1 ++ l2) = buildsIn l1 ++ buildsIn l2.
Proof. unfold buildsIn. apply omap_app. Qed.

(** X3. Once [getOrCreateVectorStore] has returned a store, a later call for
    the same URLs, in any order, returns that store, leaves the cache as
    it is and calls [buildVectorStore] no more. *)
Theorem getOrCreateVectorStore_reuses (st : ServerState) (urls2 : list string)
    (store : MemoryVectorStore) :
  Permutation urls2 (urlsArray st) ->
  (getOrCreateVectorStore w st).1 = Resolved store ->
  let st1 := (getOrCreateVectorStore w st).2 in
  let again := getOrCreateVectorStore w (set_urlsArray urls2 st1) in
  again.1 = Resolved store
  /\ vectorStoreCache again.2 = vectorStoreCache st1
  /\ buildsIn (trace again.2) = buildsIn (trace st1).
Proof.
  destruct st as [cache us rs tid snt tr aw]. cbn [urlsArray].
  intros Hperm Hfirst. rewrite getOrCreateVectorStore_unfold in *. cbv zeta in *.
  assert (Hsort : sort urls2 = sort us).
  { by apply sort_Permutation_eq. }
  destruct (cache !! join "|" (sort us)) as [store0|] eqn:Hc.
  - cbn [fst snd] in *. injection Hfirst as ->.
    unfold set_urlsArray. run_handler. rewrite getOrCreateVectorStore_unfold. cbv zeta.
    rewrite Hsort, Hc. cbn [fst snd vectorStoreCache trace].
    split; [done|]. split; [done|]. rewrite buildsIn_app. cbn. by rewrite app_nil_r.
  - destruct (RagChain.loadSplitEmbed (services w) (sort us)) as [vs|e]; [|done].
    cbn [fst snd] in *. injection Hfirst as ->.
    unfold set_urlsArray. run_handler. rewrite getOrCreateVectorStore_unfold. cbv zeta.
    rewrite Hsort, lookup_insert_eq. cbn [fst snd vectorStoreCache trace].
    split; [done|]. split; [done|]. rewrite buildsIn_app. cbn. by rewrite app_nil_r.
Qed.

(** X4. A failed build is the failure of [getOrCreateVectorStore] and leaves
    no entry: the cache is as before, the key is still absent, and a
    second call for the same URLs calls [buildVectorStore] again. *)
Theorem getOrCreateVectorStore_failure_not_cached (st : ServerState) (e : JsError) :
  (getOrCreateVectorStore w st).1 = Rejected e ->
  let st1 := (getOrCreateVectorStore w st).2 in
  let key := join "|" (sort (urlsArray st)) in
  RagChain.loadSplitEmbed (services w) (sort (urlsArray st)) = Rejected e
  /\ vectorStoreCache st1 = vectorStoreCache st
  /\ vectorStoreCache st1 !! key = None
  /\ buildsIn (trace (getOrCreateVectorStore w st1).2)
     = buildsIn (trace st1) ++ [sort (urlsArray st)].
Proof.
  destruct st as [cache us rs tid snt tr aw]. cbn [urlsArray vectorStoreCache].
  intros Hfirst. rewrite getOrCreateVectorStore_unfold in *. cbv zeta in *.
  destruct (cache !! join "|" (sort us)) as [store0|] eqn:Hc; [done|].
  destruct (RagChain.loadSplitEmbed (services w) (sort us)) as [vs|e'] eqn:Hb; [done|].
  cbn [fst snd] in *. injection Hfirst as ->.
  rewrite getOrCreateVectorStore_unfold. cbv zeta.
  rewrite sort_idempotent, Hc, Hb. cbn [fst snd vectorStoreCache trace].
  repeat split; try done. rewrite (buildsIn_app _ [_; _]). done.
Qed.

End StoreCacheProperties.

Section ChatHandlerProperties.
Import JsString Server Requests.
Context (w : World).

(** Every way through the [try] block of the chat handler. *)
Lemma chatTry_all_cases (req : ChatRequest) cache :
  let st0 := initState cache (chat_urls req) in
  (chatRefused req = true
   /\ exists error, chatTry w req st0 = sendResponse 400 (BError error) st0)
  \/ (chatRefused req = false
      /\ truthyNonString (chat_message req) = true
      /\ chatTry w req st0 = (Rejected typeError, st0))
  \/ (chatRefused req = false
      /\ exists m, chat_message req = JStr m /\ trim m <> ""
         /\ isGreeting (toLowerCase (trim m)) = true
         /\ chatTry w req st0 = sendResponse 200 (BChat (randomResponse w) []) st0)
  \/ (chatRefused req = false
      /\ exists m r, chat_message req = JStr m /\ trim m <> ""
         /\ isGreeting (toLowerCase (trim m)) = false
         /\ simpleResponsesGet (toLowerCase (trim m)) = Some r
         /\ chatTry w req st0 = sendResponse 200 (BChat r []) st0)
  \/ (chatRefused req = false
      /\ exists urls m,
           reachesPipeline req urls m
           /\ chatTry w req st0
              = chatAnswer w m (default [] (chat_conversationHistory req)) st0).
Proof.
  destruct req as [urls msg hist]. intros st0. subst st0.
  unfold chatTry, chatRefused, badUrls, truthyNonString, hbind, get, initState.
  cbn [chat_urls chat_message chat_conversationHistory urlsArray fst snd].
  destruct urls as [| |b|n|s0|us|];
    cbn [truthyVal isArray negb orb elemsOf length Nat.eqb];
    try (left; split; [done|by eexists]).
  - destruct b; cbn [negb orb]; left; (split; [done|by eexists]).
  - destruct (n =? 0)%Z; cbn [negb orb]; left; (split; [done|by eexists]).
  - destruct (truthy s0); cbn [negb orb]; left; (split; [done|by eexists]).
  - destruct us as [|u us]; cbn [length Nat.eqb orb]; [left; split; [done|by eexists]|].
    destruct msg as [| |b|n|m|l|]; cbn [truthyVal negb orb andb];
      try (left; split; [done|by eexists]); try (right; left; done).
    + destruct b; cbn [negb orb andb]; [right; left; done|left; split; [done|by eexists]].
    + destruct (n =? 0)%Z; cbn [negb orb andb];
        [left; split; [done|by eexists]|right; left; done].
    + destruct (truthy m) eqn:Hm; cbn [negb orb]; [|left; split; [done|by eexists]].
      destruct (trim m =? "") eqn:Htrim; cbn [orb]; [left; split; [done|by eexists]|].
      destruct (3 <? S (length us))%nat eqn:Hlen; [left; split; [done|by eexists]|].
      apply String.eqb_neq in Htrim.
      destruct (isGreeting (toLowerCase (trim m))) eqn:Hgreet.
      { right. right. left. split; [done|]. by exists m. }
      destruct (simpleResponsesGet (toLowerCase (trim m))) as [r|] eqn:Hsimple.
      { right. right. right. left. split; [done|]. by exists m, r. }
      right. right. right. right. split; [done|].
      exists (u :: us), m. split; [|reflexivity].
      unfold reachesPipeline. cbn [chat_urls chat_message length].
      apply Nat.ltb_ge in Hlen. repeat split; try done; lia.
Qed.

Lemma failureResponse_not_400 e : status (failureResponse e) <> 400.
Proof. rewrite failureResponse_status. by destruct (includes "timeout" (message e)). Qed.

(** What the chat handler leaves behind, for a request that reaches the
    answering part: one response, of status 200, 408 or 500. *)
Lemma chatAnswer_then_catch m hist cache us :
  let st := (tryCatch (chatAnswer w m hist) chatCatch
               {| vectorStoreCache := cache; urlsArray := us; responseSent := false;
                  timeoutId := None; sent := []; trace := []; awaited := 0 |}).2 in
  responseSent st = true /\ timeoutId st = None
  /\ exists r, sent st = [r] /\ status r <> 400.
Proof.
  unfold tryCatch. rewrite chatAnswer_unfold. cbv zeta.
  destruct (cache !! join "|" (sort us)) as [store|].
  - destruct (RagChain.invoke _ _) as [l r].
    destruct (timerFirst w GraphRace (DEFAULT_TIMEOUT_MS w));
      [|destruct r as [result|e]]; rewrite ?chatCatch_first; cbn [snd responseSent timeoutId sent];
      (split; [done|]); (split; [done|]); eexists; (split; [reflexivity|]);
      try apply failureResponse_not_400; done.
  - destruct (RagChain.loadSplitEmbed (services w) (sort us)) as [vs|e];
      destruct (timerFirst w BuildRace FIRST_LOAD_TIMEOUT_MS);
      try destruct (RagChain.invoke _ _) as [l r];
      try destruct (timerFirst w GraphRace 60000%N);
      try destruct r as [result|e']; rewrite ?chatCatch_first;
      cbn [snd responseSent timeoutId sent];
      (split; [done|]); (split; [done|]); eexists; (split; [reflexivity|]);
      try apply failureResponse_not_400; done.
Qed.

(** X5. Every chat request, whatever its body and whatever the services do,
    gets exactly one response; when the handler is done the send guard is
    set and no timer is pending. *)
Theorem chat_sends_exactly_one_response (req : ChatRequest) cache :
  let st := postChat w req cache in
  length (sent st) = 1 /\ responseSent st = true /\ timeoutId st = None.
Proof.
  intros st. subst st. unfold postChat, chatHandler, tryCatch.
  destruct (chatTry_all_cases req cache)
    as [(_ & err & Hrun)|[(_ & _ & Hrun)|[(_ & m & _ & _ & _ & Hrun)
       |[(_ & m & r & _ & _ & _ & _ & Hrun)|(_ & urls & m & Hreach & Hrun)]]]];
    cbv zeta in Hrun; rewrite Hrun; unfold initState;
    rewrite ?sendResponse_first, ?chatCatch_first; try done.
  destruct Hreach as (Hurls & _). rewrite Hurls. cbn [elemsOf].
  destruct (chatAnswer_then_catch m (default [] (chat_conversationHistory req)) cache urls)
    as (Hsent & Htimer & r & Hr & _).
  unfold tryCatch in *. by rewrite Hr.
Qed.

(** X6. The chat handler answers 400 exactly for the requests that the
    validation refuses: [urls] is no non-empty array, the message is falsy
    or a blank string, or the message is a string and there are more than
    three URLs.  A refused request touches neither the cache nor any
    service. *)
Theorem chat_400_iff_refused (req : ChatRequest) cache :
  let st := postChat w req cache in
  (statuses st = [400] <-> chatRefused req = true)
  /\ (chatRefused req = true ->
      trace st = [] /\ vectorStoreCache st = cache /\ urlsArray st = elemsOf (chat_urls req)).
Proof.
  intros st. subst st. unfold postChat, chatHandler, tryCatch, statuses.
  destruct (chatTry_all_cases req cache)
    as [(Href & err & Hrun)|[(Href & _ & Hrun)|[(Href & m & _ & _ & _ & Hrun)
       |[(Href & m & r & _ & _ & _ & _ & Hrun)|(Href & urls & m & Hreach & Hrun)]]]];
    cbv zeta in Hrun; rewrite Hrun, Href; unfold initState;
    rewrite ?sendResponse_first, ?chatCatch_first; cbn [snd sent map status trace
      vectorStoreCache urlsArray app]; try (split; [split; done|done]).
  destruct Hreach as (Hurls & _). rewrite Hurls. cbn [elemsOf].
  destruct (chatAnswer_then_catch m (default [] (chat_conversationHistory req)) cache urls)
    as (_ & _ & r & Hr & Hstatus).
  unfold tryCatch in *. rewrite Hr. cbn [map]. split; [|done]. split; [|done].
  intros [= H]. done.
Qed.

(** X7. A message that is truthy and no string (a number, [true], an array,
    an object) is not refused with 400, with any number of URLs: calling
    [trim] on it throws, and the response is 500. *)
Theorem chat_non_string_message_500 (req : ChatRequest) cache :
  badUrls (chat_urls req) = false ->
  truthyNonString (chat_message req) = true ->
  sent (postChat w req cache)
  = [{| status := 500;
        body := BFailure "Failed to process message" "message.trim is not a function" |}].
Proof.
  intros Hurls Hmsg. unfold postChat, chatHandler, tryCatch.
  assert (Href : chatRefused req = false).
  { unfold chatRefused. rewrite Hurls. unfold truthyNonString in Hmsg.
    apply andb_true_iff in Hmsg as [Htruthy Hkind]. rewrite Htruthy.
    by destruct (chat_message req). }
  destruct (chatTry_all_cases req cache)
    as [(Href' & _)|[(_ & _ & Hrun)|[(_ & m & Hm & _)
       |[(_ & m & r & Hm & _)|(_ & urls & m & (_ & Hm & _) & _)]]]];
    try congruence;
    try (rewrite Hm in Hmsg; unfold truthyNonString in Hmsg;
         by apply andb_true_iff in Hmsg as [_ ?]).
  cbv zeta in Hrun. rewrite Hrun. unfold initState. by rewrite chatCatch_first.
Qed.

End ChatHandlerProperties.

Section ShortcutProperties.
Import JsString Server Requests.
Context (w : World).

Lemma append_assoc' (a b c : string) : (a +:+ b) +:+ c = a +:+ (b +:+ c).
Proof.
  induction a as [|x a IH]; [done|].
  change (String x ((a +:+ b) +:+ c) = String x (a +:+ (b +:+ c))).
  by rewrite IH.
Qed.

Lemma prefix_iff (p s : string) :
  String.prefix p s = true <-> exists rest, s = p +:+ rest.
Proof.
  revert s. induction p as [|c p IH]; intros s.
  - split; [by exists s|intros _; by destruct s].
  - destruct s as [|d s]; cbn; [split; [done|by intros [? ?]]|].
    destruct (ascii_dec c d) as [->|Hne].
    + rewrite IH. split; intros [rest Hrest]; exists rest; [by rewrite Hrest|].
      by injection Hrest.
    + split; [done|]. intros [rest Hrest]. by injection Hrest as ? ?.
Qed.

(** The shapes that the greeting test accepts: a greeting, a greeting and
    an exclamation mark, or a greeting, a space and any text. *)
Lemma isGreeting_iff (n : string) :
  isGreeting n = true
  <-> exists g, g ∈ greetings
        /\ (n = g \/ n = g +:+ "!" \/ exists rest, n = g +:+ " " +:+ rest).
Proof.
  unfold isGreeting. rewrite existsb_exists. split.
  - intros (g & Hin & Hg). exists g. split; [by apply list_elem_of_In|].
    apply orb_true_iff in Hg as [Hg|Hg]; [apply orb_true_iff in Hg as [Hg|Hg]|].
    + left. by apply String.eqb_eq.
    + right. right. apply prefix_iff in Hg as [rest ->]. exists rest.
      by rewrite append_assoc'.
    + right. left. by apply String.eqb_eq.
  - intros (g & Hin & Hg). exists g. split; [by apply list_elem_of_In|].
    destruct Hg as [->|[->|[rest ->]]].
    + by rewrite String.eqb_refl.
    + rewrite (String.eqb_refl (g +:+ "!")). by rewrite orb_true_r.
    + assert (startsWith (g +:+ " ") (g +:+ " " +:+ rest) = true) as ->.
      { apply prefix_iff. exists rest. by rewrite append_assoc'. }
      by rewrite orb_true_r.
Qed.

Lemma shortcut_simple urls message hist cache r :
  (1 <= length urls <= 3)%nat ->
  trim message <> "" ->
  isGreeting (toLowerCase (trim message)) = false ->
  simpleResponsesGet (toLowerCase (trim message)) = Some r ->
  postChat w {| chat_urls := JArray urls; chat_message := JStr message;
                chat_conversationHistory := hist |} cache
  = {| vectorStoreCache := cache; urlsArray := urls; responseSent := true;
       timeoutId := None; sent := [{| status := 200; body := BChat r [] |}];
       trace := []; awaited := 0 |}.
Proof.
  intros [Hlo Hhi] Htrim Hgreet Hsimple.
  unfold postChat, chatHandler, tryCatch, chatTry, hbind, get, initState.
  cbn [chat_urls chat_message chat_conversationHistory urlsArray fst snd elemsOf
       truthyVal isArray negb orb].
  destruct urls as [|u us]; [cbn in Hlo; lia|]. cbn [length Nat.eqb].
  assert (truthy message = true) as ->.
  { destruct message; [by destruct Htrim|done]. }
  cbn [negb].
  apply String.eqb_neq in Htrim. rewrite Htrim.
  assert ((3 <? S (length us))%nat = false) as -> by (apply Nat.ltb_ge; cbn in Hhi; lia).
  rewrite Hgreet, Hsimple. by rewrite sendResponse_first.
Qed.

Lemma toLowerCase_empty s : toLowerCase s = "" -> s = "".
Proof. by destruct s. Qed.

(** X8. Every greeting is answered at once.  For one to three URLs, a message
    whose trimmed lower-case form is a greeting of the list, alone, with an
    exclamation mark, or followed by a space and any text, gets one
    response: 200, one of the canned greetings, no documents; the cache
    and the services are not touched.  No other message is a greeting. *)
Theorem every_greeting_short_circuits (urls : list string) (message : string) hist cache :
  (1 <= length urls <= 3)%nat ->
  (0 <= mathRandom w)%Q -> (mathRandom w < 1)%Q ->
  let n := toLowerCase (trim message) in
  let st := postChat w {| chat_urls := JArray urls; chat_message := JStr message;
                          chat_conversationHistory := hist |} cache in
  (isGreeting n = true
   <-> exists g, g ∈ greetings
         /\ (n = g \/ n = g +:+ "!" \/ exists rest, n = g +:+ " " +:+ rest))
  /\ (isGreeting n = true ->
      exists canned,
        canned ∈ greetingResponses
        /\ sent st = [{| status := 200; body := BChat (MStr canned) [] |}]
        /\ trace st = []
        /\ vectorStoreCache st = cache).
Proof.
  intros Hlen Hlo Hhi n st. split; [apply isGreeting_iff|].
  intros Hgreet. subst st.
  destruct (randomResponse_canned w Hlo Hhi) as (canned & Hcanned & Hrandom).
  exists canned. split; [done|].
  assert (Htrim : trim message <> "").
  { intros Hempty. subst n. rewrite Hempty in Hgreet. by vm_compute in Hgreet. }
  rewrite (shortcut_greeting w _ _ _ _ Hlen Htrim Hgreet).
  cbn [sent trace vectorStoreCache]. by rewrite Hrandom.
Qed.

Lemma simple_phrase_no_greeting k r :
  assocGet k simpleResponses = Some r -> isGreeting k = false /\ k <> "".
Proof.
  unfold simpleResponses. cbn [assocGet].
  repeat (destruct (k =? _) eqn:Hk;
          [apply String.eqb_eq in Hk; subst k; intros _; split; by vm_compute
          |clear Hk]).
  done.
Qed.

(** X9. The fixed phrases are answered at once.  For one to three URLs, a
    message whose trimmed lower-case form is a key of [simpleResponses]
    gets one response: 200, the text of that key, no documents; the cache
    and the services are not touched. *)
Theorem simple_phrase_short_circuits (urls : list string) (message r : string) hist cache :
  (1 <= length urls <= 3)%nat ->
  assocGet (toLowerCase (trim message)) simpleResponses = Some r ->
  let st := postChat w {| chat_urls := JArray urls; chat_message := JStr message;
                          chat_conversationHistory := hist |} cache in
  sent st = [{| status := 200; body := BChat (MStr r) [] |}]
  /\ trace st = []
  /\ vectorStoreCache st = cache.
Proof.
  intros Hlen Hkey st. subst st.
  destruct (simple_phrase_no_greeting _ _ Hkey) as [Hgreet Hne].
  assert (Htrim : trim message <> "").
  { intros Hempty. apply Hne. by rewrite Hempty. }
  rewrite (shortcut_simple urls message hist cache (MStr r)); try done.
  unfold simpleResponsesGet. by rewrite Hkey.
Qed.

(** X10. [simpleResponses] is an object literal, so a lookup also finds the
    members inherited from [Object.prototype].  A message whose trimmed
    lower-case form is "constructor" or "__proto__" is taken for a fixed
    phrase: it is answered 200 with a message that is no string, and does
    not reach the cache or the services. *)
Theorem inherited_member_short_circuits (urls : list string) (message : string) hist cache :
  (1 <= length urls <= 3)%nat ->
  toLowerCase (trim message) = "constructor" \/ toLowerCase (trim message) = "__proto__" ->
  let st := postChat w {| chat_urls := JArray urls; chat_message := JStr message;
                          chat_conversationHistory := hist |} cache in
  sent st = [{| status := 200;
                body := BChat (MInherited (toLowerCase (trim message))) [] |}]
  /\ trace st = []
  /\ vectorStoreCache st = cache.
Proof.
  intros Hlen Hkey st. subst st.
  assert (Htrim : trim message <> "").
  { intros Hempty. rewrite Hempty in Hkey. by destruct Hkey. }
  rewrite (shortcut_simple urls message hist cache
             (MInherited (toLowerCase (trim message)))); try done.
  - destruct Hkey as [-> | ->]; by vm_compute.
  - destruct Hkey as [-> | ->]; by vm_compute.
Qed.

End ShortcutProperties.

Section RunProperties.
Import JsString RagChain Runs.
Context (svc : Services).

Lemma nodesRun_app l1 l2 : nodesRun (l1 ++ l2) = nodesRun l1 ++ nodesRun l2.
Proof.
  induction l1 as [|e l1 IH]; [done|].
  destruct e; cbn [app nodesRun]; by rewrite IH.
Qed.

Lemma nodesRun_quiet l : (forall e, e ∈ l -> isNodeEvent e = false) -> nodesRun l = [].
Proof.
  induction l as [|e l IH]; [done|]. intros Hl.
  assert (He : isNodeEvent e = false) by (apply Hl; left).
  destruct e; try done; cbn [nodesRun]; apply IH; intros e' He'; apply Hl; by right.
Qed.

Ltac nodes_norm :=
  repeat (progress (cbn [fst snd nodesRun app]; rewrite ?nodesRun_app;
                    repeat match goal with
                           | Q : nodesRun ?l = [] |- context [nodesRun ?l] => rewrite Q
                           end)).

(** A run of the graph, node by node. *)
Lemma invoke_cases (input : gmap string value) :
  invoke svc input
  = let s0 := applyUpdate defaults input in
    let '(l1, r1) := retrieveDocNode svc s0 in
    let t1 := NodeStart "retrieve_documents" s0 :: l1 in
    match r1 with
    | Rejected e => (t1, Rejected e)
    | Resolved u1 =>
      let s1 := applyUpdate s0 u1 in
      let '(l2, r2) := createModelNode svc s1 in
      let t2 := t1 ++ [NodeEnd "retrieve_documents" s1; NodeStart "create_model" s1] ++ l2 in
      match r2 with
      | Rejected e => (t2, Rejected e)
      | Resolved u2 =>
        let s2 := applyUpdate s1 u2 in
        let '(l3, r3) := documentGrader svc s2 in
        let t3 := t2 ++ [NodeEnd "create_model" s2; NodeStart "grade_documents" s2] ++ l3 in
        match r3 with
        | Rejected e => (t3, Rejected e)
        | Resolved u3 =>
          let s3 := applyUpdate s2 u3 in
          if (length (documents_of s3) =? 0)%nat
          then (t3 ++ [NodeEnd "grade_documents" s3], Resolved s3)
          else
            let '(l4, r4) := generateAnswer svc s3 in
            let t4 :=
              t3 ++ [NodeEnd "grade_documents" s3; NodeStart "generate_answer" s3] ++ l4 in
            match r4 with
            | Rejected e => (t4, Rejected e)
            | Resolved u4 =>
              let s4 := applyUpdate s3 u4 in
              let '(l5, r5) := gradeGeneratedAnswer svc s4 in
              let t5 :=
                t4 ++ [NodeEnd "generate_answer" s4;
                       NodeStart "grade_generated_answer" s4] ++ l5 in
              match r5 with
              | Rejected e => (t5, Rejected e)
              | Resolved u5 =>
                  (t5 ++ [NodeEnd "grade_generated_answer" (applyUpdate s4 u5)],
                   Resolved (applyUpdate s4 u5))
              end
            end
        end
      end
    end.
Proof.
  rewrite invoke_unfold. cbv zeta.
  cbn [bind log ret app].
  destruct (retrieveDocNode svc _) as [l1 [u1|e]]; cbn [bind log ret app]; [|done].
  destruct (createModelNode svc _) as [l2 [u2|e]]; cbn [bind log ret app];
    [|by rewrite <- ?app_assoc].
  destruct (documentGrader svc _) as [l3 [u3|e]]; cbn [bind log ret app];
    [|by rewrite <- ?app_assoc].
  destruct (length (documents_of _) =? 0)%nat; cbn [bind log ret app];
    [by rewrite <- ?app_assoc, ?app_nil_r|].
  destruct (generateAnswer svc _) as [l4 [u4|e]]; cbn [bind log ret app];
    [|by rewrite <- ?app_assoc].
  destruct (gradeGeneratedAnswer svc _) as [l5 [u5|e]]; cbn [bind log ret app];
    by rewrite <- ?app_assoc, ?app_nil_r.
Qed.

Lemma retrieveDocNode_quiet state : nodesRun (retrieveDocNode svc state).1 = [].
Proof. apply nodesRun_quiet. intros e He. by apply retrieveDocNode_spec in He as [? ?]. Qed.

Lemma createModelNode_quiet state : nodesRun (createModelNode svc state).1 = [].
Proof. apply nodesRun_quiet. intros e He. by apply createModelNode_spec in He as [? ?]. Qed.

Lemma documentGrader_quiet state : nodesRun (documentGrader svc state).1 = [].
Proof. apply nodesRun_quiet. intros e He. by apply documentGrader_spec in He as [? ?]. Qed.

Lemma generateAnswer_quiet state : nodesRun (generateAnswer svc state).1 = [].
Proof. apply nodesRun_quiet. intros e He. by apply generateAnswer_events in He. Qed.

Lemma gradeGeneratedAnswer_quiet state : nodesRun (gradeGeneratedAnswer svc state).1 = [].
Proof. apply nodesRun_quiet. intros e He. by apply gradeGeneratedAnswer_events in He. Qed.

Lemma applyUpdate_documents_kept state update :
  update !! "documents" = None \/ update !! "documents" = state !! "documents" ->
  documents_of (applyUpdate state update) = documents_of state.
Proof.
  intros Hu. unfold documents_of.
  rewrite applyUpdate_other; [|done|by apply (bool_decide_unpack _); vm_compute].
  destruct Hu as [-> | ->]; [done|]. by destruct (state !! "documents").
Qed.

Lemma generateAnswer_keeps_documents state l u :
  generateAnswer svc state = (l, Resolved u) ->
  documents_of (applyUpdate state u) = documents_of state.
Proof.
  intros Hrun. destruct (generateAnswer_result svc state u) as [a ->]; [by rewrite Hrun|].
  apply applyUpdate_documents_kept. by left.
Qed.

Lemma gradeGeneratedAnswer_keeps_documents state l u :
  gradeGeneratedAnswer svc state = (l, Resolved u) ->
  documents_of (applyUpdate state u) = documents_of state.
Proof.
  intros Hrun.
  destruct (gradeGeneratedAnswer_result svc state u) as [-> | [-> | [a ->]]];
    [by rewrite Hrun|..]; apply applyUpdate_documents_kept.
  - by left.
  - by right.
  - right. by rewrite lookup_insert_ne.
Qed.

(** X11. The nodes of a run start in the order of the edges.  Whatever the
    input and the services, the nodes started are a prefix of the five
    nodes; a run that returns has run the first three nodes and returns
    no documents, or has run all five and returns the graded
    documents, which are not empty. *)
Theorem invoke_nodes_in_order (input : gmap string value) :
  let run := invoke svc input in
  nodesRun run.1 `prefix_of` fiveNodes
  /\ (forall s, run.2 = Resolved s ->
        (documents_of s = [] /\ nodesRun run.1 = take 3 fiveNodes)
        \/ (documents_of s <> [] /\ nodesRun run.1 = fiveNodes)).
Proof.
  cbv zeta. rewrite invoke_cases. cbv zeta.
  destruct (retrieveDocNode svc _) as [l1 r1] eqn:H1.
  pose proof (retrieveDocNode_quiet (applyUpdate defaults input)) as Q1.
  rewrite H1 in Q1. cbn [fst] in Q1.
  destruct r1 as [u1|e]; [|nodes_norm; split; [by eexists|done]].
  destruct (createModelNode svc _) as [l2 r2] eqn:H2.
  pose proof (createModelNode_quiet (applyUpdate (applyUpdate defaults input) u1)) as Q2.
  rewrite H2 in Q2. cbn [fst] in Q2.
  destruct r2 as [u2|e]; [|nodes_norm; split; [by eexists|done]].
  destruct (documentGrader svc _) as [l3 r3] eqn:H3.
  pose proof (documentGrader_quiet
                (applyUpdate (applyUpdate (applyUpdate defaults input) u1) u2)) as Q3.
  rewrite H3 in Q3. cbn [fst] in Q3.
  destruct r3 as [u3|e]; [|nodes_norm; split; [by eexists|done]].
  set (s3 := applyUpdate _ u3).
  destruct (length (documents_of s3) =? 0)%nat eqn:Hdocs.
  { nodes_norm. split; [by eexists|]. intros s [= <-]. left. split; [|done].
    apply Nat.eqb_eq in Hdocs. by destruct (documents_of s3). }
  destruct (generateAnswer svc s3) as [l4 r4] eqn:H4.
  pose proof (generateAnswer_quiet s3) as Q4. rewrite H4 in Q4. cbn [fst] in Q4.
  destruct r4 as [u4|e]; [|nodes_norm; split; [by eexists|done]].
  destruct (gradeGeneratedAnswer svc _) as [l5 r5] eqn:H5.
  pose proof (gradeGeneratedAnswer_quiet (applyUpdate s3 u4)) as Q5.
  rewrite H5 in Q5. cbn [fst] in Q5.
  destruct r5 as [u5|e]; [|nodes_norm; split; [by eexists|done]].
  nodes_norm.
  split; [by eexists|]. intros s [= <-]. right. split; [|done].
  rewrite (gradeGeneratedAnswer_keeps_documents _ _ _ H5),
    (generateAnswer_keeps_documents _ _ _ H4).
  apply Nat.eqb_neq in Hdocs. by destruct (documents_of s3).
Qed.











Lemma applyUpdate_kept state update k :
  k <> "generatedAnswer" -> k ∈ channels ->
  update !! k = None \/ update !! k = state !! k ->
  applyUpdate state update !! k = state !! k.
Proof.
  intros Hk Hin Hu. rewrite applyUpdate_other; [|done..].
  destruct Hu as [-> | ->]; [done|]. by destruct (state !! k).
Qed.

Lemma model_channel : "model" ∈ channels.
Proof. apply (bool_decide_unpack _). by vm_compute. Qed.

Lemma generateAnswer_keeps state l u k :
  generateAnswer svc state = (l, Resolved u) ->
  k <> "generatedAnswer" -> k ∈ channels ->
  applyUpdate state u !! k = state !! k.
Proof.
  intros Hrun Hk Hin. destruct (generateAnswer_result svc state u) as [a ->]; [by rewrite Hrun|].
  apply applyUpdate_kept; [done..|]. left. by rewrite lookup_singleton_ne.
Qed.

Lemma gradeGeneratedAnswer_keeps state l u k :
  gradeGeneratedAnswer svc state = (l, Resolved u) ->
  k <> "generatedAnswer" -> k ∈ channels ->
  applyUpdate state u !! k = state !! k.
Proof.
  intros Hrun Hk Hin.
  destruct (gradeGeneratedAnswer_result svc state u) as [-> | [-> | [a ->]]];
    [by rewrite Hrun|..]; apply applyUpdate_kept; try done.
  - left. apply lookup_singleton_ne. intros <-. revert Hin.
    apply (bool_decide_unpack _). by vm_compute.
  - by right.
  - right. by rewrite lookup_insert_ne.
Qed.

Lemma modelCreations_app l1 l2 :
  modelCreations (l1 ++ l2) = modelCreations l1 + modelCreations l2.
Proof. unfold modelCreations. by rewrite List.filter_app, List.length_app. Qed.

Lemma modelCreations_NodeStart n s l :
  modelCreations (NodeStart n s :: l) = modelCreations l.
Proof. unfold modelCreations. cbn [List.filter]. by rewrite bool_decide_eq_false_2. Qed.

Lemma modelCreations_NodeEnd n s l :
  modelCreations (NodeEnd n s :: l) = modelCreations l.
Proof. unfold modelCreations. cbn [List.filter]. by rewrite bool_decide_eq_false_2. Qed.

Lemma modelCreations_CreateModel l :
  modelCreations (CreateModel :: l) = S (modelCreations l).
Proof. unfold modelCreations. cbn [List.filter]. by rewrite bool_decide_eq_true_2. Qed.

Lemma modelCreations_nil : modelCreations [] = 0.
Proof. reflexivity. Qed.

Ltac count_models :=
  cbn [fst snd];
  repeat (progress rewrite ?modelCreations_app, ?modelCreations_NodeStart,
            ?modelCreations_NodeEnd, ?modelCreations_CreateModel, ?modelCreations_nil);
  repeat match goal with
         | Q : modelCreations ?l = 0 |- context [modelCreations ?l] => rewrite Q
         end.

Lemma modelCreations_none l :
  (forall e, e ∈ l -> e <> CreateModel) -> modelCreations l = 0.
Proof.
  unfold modelCreations. induction l as [|e l IH]; [done|]. intros Hl.
  cbn [List.filter]. rewrite bool_decide_eq_false_2; [|apply Hl; left].
  apply IH. intros e' He'. apply Hl. by right.
Qed.

Lemma retrieve_run store k q :
  retrieve svc store k q = ([Retrieve store k q], retrieverInvoke svc store k q).
Proof. reflexivity. Qed.

Lemma retrieveDoc_run urls q :
  retrieveDoc svc urls q
  = match loadSplitEmbed svc urls with
    | Resolved vs =>
        ([BuildVectorStore urls; Retrieve vs 10 q], retrieverInvoke svc vs 10 q)
    | Rejected e => ([BuildVectorStore urls], Rejected e)
    end.
Proof.
  unfold retrieveDoc, buildVectorStore, bind, log. cbn [fst snd app].
  by destruct (loadSplitEmbed svc urls).
Qed.

Lemma retrieveDocNode_creates_no_model state :
  modelCreations (retrieveDocNode svc state).1 = 0.
Proof.
  unfold retrieveDocNode.
  destruct (state !! "vectorStore") as [[]|]; rewrite ?retrieve_run, ?retrieveDoc_run;
    try destruct (loadSplitEmbed svc _); cbn [bind ret];
    try destruct (retrieverInvoke svc _ _ _); reflexivity.
Qed.

Lemma createModelNode_run state :
  createModelNode svc state
  = ([CreateModel],
     match newChatOpenAI svc with
     | Resolved _ => Resolved {[ "model" := VModel ]}
     | Rejected e => Rejected e
     end).
Proof.
  unfold createModelNode, createModel, bind, log, ret.
  by destruct (newChatOpenAI svc) as [[]|e].
Qed.

Lemma modelOf_with_model state m :
  state !! "model" = Some m -> modelOf svc state = ([], Resolved m).
Proof. unfold modelOf. by intros ->. Qed.

Lemma documentGrader_with_model state m :
  state !! "model" = Some m ->
  modelCreations (documentGrader svc state).1 = 0
  /\ exists docs,
       (documentGrader svc state).2
       = Resolved (<[ "model" := m ]> (<[ "documents" := VDocs docs ]> state)).
Proof.
  intros Hm. rewrite (documentGrader_resolved svc _ _ _ (modelOf_with_model _ _ Hm)).
  cbn [fst snd app]. split; [|by eexists].
  apply modelCreations_none. intros e He.
  by destruct (gradeEach_events svc _ _ _ _ He) as (q & d & ->).
Qed.

Lemma generateAnswer_with_model state m :
  state !! "model" = Some m -> modelCreations (generateAnswer svc state).1 = 0.
Proof.
  intros Hm. unfold generateAnswer. rewrite (modelOf_with_model _ _ Hm).
  cbn [bind log ret fst snd app]. by destruct (ragChain svc _ _ _).
Qed.

Lemma gradeGeneratedAnswer_with_model state m :
  state !! "model" = Some m -> modelCreations (gradeGeneratedAnswer svc state).1 = 0.
Proof.
  intros Hm. unfold gradeGeneratedAnswer. rewrite (modelOf_with_model _ _ Hm).
  cbn [bind log ret fst snd app].
  destruct (blankAnswer state); [done|]. cbn [bind log ret fst snd app].
  destruct (graderChain svc _ _) as [r|e]; [|done].
  by destruct (trim (toLowerCase r) =? "no").
Qed.

(** X13. A run creates the chat model once.  The second node creates it,
    also when the input brings one; the three later nodes find it in the
    state, so that their own [createModel] call never takes place in a
    run.  A run that returns has created exactly one model and returns
    it in the state. *)
Theorem invoke_creates_model_once (input : gmap string value) :
  let run := invoke svc input in
  modelCreations run.1 <= 1
  /\ (forall s, run.2 = Resolved s ->
        modelCreations run.1 = 1 /\ s !! "model" = Some VModel).
Proof.
  cbv zeta. rewrite invoke_cases. cbv zeta.
  pose proof (retrieveDocNode_creates_no_model (applyUpdate defaults input)) as Q1.
  destruct (retrieveDocNode svc _) as [l1 [u1|e1]]; cbn [fst] in Q1.
  2:{ count_models. split; [lia|done]. }
  set (s1 := applyUpdate _ u1).
  rewrite (createModelNode_run s1).
  destruct (newChatOpenAI svc) as [[]|e2].
  2:{ count_models. split; [lia|done]. }
  set (s2 := applyUpdate s1 _).
  assert (Hm2 : s2 !! "model" = Some VModel).
  { subst s2. rewrite applyUpdate_other; [|done|apply model_channel].
    by rewrite lookup_singleton_eq. }
  destruct (documentGrader_with_model s2 VModel Hm2) as (Q3 & docs & Hr3).
  destruct (documentGrader svc s2) as [l3 r3]. cbn [fst snd] in Q3, Hr3. subst r3.
  set (s3 := applyUpdate s2 _).
  assert (Hm3 : s3 !! "model" = Some VModel).
  { subst s3. rewrite applyUpdate_other; [|done|apply model_channel].
    by rewrite lookup_insert_eq. }
  destruct (length (documents_of s3) =? 0)%nat.
  { count_models. split; [lia|]. by intros s [= <-]. }
  pose proof (generateAnswer_with_model s3 VModel Hm3) as Q4.
  destruct (generateAnswer svc s3) as [l4 [u4|e4]] eqn:H4; cbn [fst] in Q4.
  2:{ count_models. split; [lia|done]. }
  set (s4 := applyUpdate s3 u4).
  assert (Hm4 : s4 !! "model" = Some VModel).
  { subst s4. rewrite (generateAnswer_keeps _ _ _ _ H4); [done|done|apply model_channel]. }
  pose proof (gradeGeneratedAnswer_with_model s4 VModel Hm4) as Q5.
  destruct (gradeGeneratedAnswer svc s4) as [l5 [u5|e5]] eqn:H5; cbn [fst] in Q5.
  2:{ count_models. split; [lia|done]. }
  count_models. split; [lia|].
  intros s [= <-]. split; [done|].
  by rewrite (gradeGeneratedAnswer_keeps _ _ _ _ H5); [|done|apply model_channel].
Qed.

End RunProperties.

Section NodeProperties.
Import JsString RagChain Runs.
Context (svc : Services).

Lemma vectorStore_channel : "vectorStore" ∈ channels.
Proof. apply (bool_decide_unpack _). by vm_compute. Qed.

Lemma documents_channel : "documents" ∈ channels.
Proof. apply (bool_decide_unpack _). by vm_compute. Qed.

Lemma question_of_start (input : gmap string value) :
  question_of (applyUpdate defaults input) = question_of input.
Proof.
  unfold question_of. rewrite applyUpdate_other; [|done|].
  - by destruct (input !! "question").
  - apply (bool_decide_unpack _). by vm_compute.
Qed.

Lemma generatedAnswer_of_start (input : gmap string value) :
  input !! "generatedAnswer" = None ->
  generatedAnswer_of (applyUpdate defaults input) = Some "".
Proof. intros Hin. by rewrite applyUpdate_generatedAnswer, Hin. Qed.

(** A run in which the retriever finds nothing. *)
Lemma invoke_nothing_retrieved (input : gmap string value) (store : MemoryVectorStore) :
  input !! "vectorStore" = Some (VStore store) ->
  retrieverInvoke svc store 10 (question_of input) = Resolved [] ->
  newChatOpenAI svc = Resolved tt ->
  let run := invoke svc input in
  exists s,
    run.2 = Resolved s
    /\ documents_of s = []
    /\ generatedAnswer_of s = generatedAnswer_of (applyUpdate defaults input)
    /\ (input !! "generatedAnswer" = None -> generatedAnswer_of s = Some "")
    /\ externalCalls run.1 = [Retrieve store 10 (question_of input); CreateModel]
    /\ nodesRun run.1 = take 3 fiveNodes.
Proof.
  intros Hvs Hretr Hmodel. cbv zeta. rewrite invoke_cases. cbv zeta.
  set (s0 := applyUpdate defaults input).
  assert (Hvs0 : s0 !! "vectorStore" = Some (VStore store)).
  { subst s0. rewrite applyUpdate_other; [|done|apply vectorStore_channel]. by rewrite Hvs. }
  assert (Hnode1 : retrieveDocNode svc s0
                   = ([Retrieve store 10 (question_of input)],
                      Resolved {[ "documents" := VDocs [] ]})).
  { unfold retrieveDocNode. rewrite Hvs0, retrieve_run. subst s0.
    by rewrite question_of_start, Hretr. }
  rewrite Hnode1. set (s1 := applyUpdate s0 _).
  rewrite createModelNode_run, Hmodel. set (s2 := applyUpdate s1 _).
  assert (Hdocs1 : s1 !! "documents" = Some (VDocs [])).
  { subst s1. rewrite applyUpdate_other; [|done|apply documents_channel].
    by rewrite lookup_singleton_eq. }
  assert (Hdocs2 : documents_of s2 = []).
  { unfold documents_of. subst s2.
    rewrite applyUpdate_other; [|done|apply documents_channel].
    rewrite lookup_singleton_ne; [|done]. by rewrite Hdocs1. }
  assert (Hm2 : s2 !! "model" = Some VModel).
  { subst s2. rewrite applyUpdate_other; [|done|apply model_channel].
    by rewrite lookup_singleton_eq. }
  rewrite (documentGrader_resolved svc _ _ _ (modelOf_with_model svc _ _ Hm2)).
  rewrite Hdocs2. cbn [gradeEach fst snd app].
  change (keepTopIfNone [] []) with (@nil Document).
  set (s3 := applyUpdate s2 _).
  assert (Hdocs3 : documents_of s3 = []).
  { unfold documents_of. subst s3.
    rewrite applyUpdate_other; [|done|apply documents_channel].
    rewrite lookup_insert_ne; [|done]. by rewrite lookup_insert_eq. }
  rewrite Hdocs3. cbn [length Nat.eqb fst snd].
  assert (Hanswer : generatedAnswer_of s3 = generatedAnswer_of s0).
  { subst s3 s2 s1.
    rewrite applyUpdate_keeps_generatedAnswer;
      [|right; rewrite lookup_insert_ne; [|done]; by rewrite lookup_insert_ne].
    rewrite applyUpdate_keeps_generatedAnswer; [|by left].
    rewrite applyUpdate_keeps_generatedAnswer; [|by left]. done. }
  exists s3. split; [done|]. split; [done|]. split; [done|].
  split; [intros Hin; rewrite Hanswer; by apply generatedAnswer_of_start|].
  split; reflexivity.
Qed.


Lemma lastSix_length (h : list Turn) : length (lastSix h) = Nat.min (length h) 6.
Proof. unfold lastSix. rewrite length_drop. lia. Qed.

Lemma lastSix_idempotent (h : list Turn) : lastSix (lastSix h) = lastSix h.
Proof.
  unfold lastSix at 1. rewrite lastSix_length.
  by replace (Nat.min (length h) 6 - 6) with 0 by lia.
Qed.

(** X14. Only the last six turns of the conversation reach the generation
    chain.  Replacing the history by its last six turns changes neither
    the call of the chain nor the result of the node; the turns kept are
    at most six and are the end of the history. *)
Theorem generateAnswer_last_six (state : gmap string value) (h : list Turn) :
  generateAnswer svc (<[ "conversationHistory" := VHistory h ]> state)
  = generateAnswer svc (<[ "conversationHistory" := VHistory (lastSix h) ]> state)
  /\ length (lastSix h) <= 6
  /\ lastSix h `suffix_of` h.
Proof.
  split; [|split].
  - unfold generateAnswer, modelOf, documents_of, conversationHistory_of, question_of.
    rewrite !lookup_insert_eq. rewrite !lookup_insert_ne by done.
    rewrite lastSix_idempotent, lastSix_length.
    by destruct h.
  - rewrite lastSix_length. lia.
  - apply suffix_drop.
Qed.

Lemma gradeEach_log question i docs :
  (gradeEach svc question i docs).1
  = map (fun d => DocGrade question (substring0 1000 (pageContent d))) docs.
Proof.
  revert i. induction docs as [|d docs IH]; intros i; [done|].
  cbn [gradeEach map]. specialize (IH (S i)).
  destruct (gradeEach svc question (S i) docs) as [evs kept]. cbn [fst] in *.
  by rewrite IH.
Qed.

Lemma gradeEach_sublist question i docs :
  (gradeEach svc question i docs).2 `sublist_of` docs.
Proof.
  revert i. induction docs as [|d docs IH]; intros i; [done|].
  cbn [gradeEach]. specialize (IH (S i)).
  destruct (gradeEach svc question (S i) docs) as [evs kept]. cbn [snd] in *.
  destruct (passes svc question (i, d)); by constructor.
Qed.

Lemma keepTopIfNone_sublist docs kept :
  kept `sublist_of` docs -> keepTopIfNone docs kept `sublist_of` docs.
Proof.
  intros Hk. unfold keepTopIfNone.
  destruct kept; cbn [length Nat.eqb andb app]; [|done].
  destruct (0 <? length docs)%nat; [apply sublist_take|done].
Qed.

Lemma substring0_length n s : String.length (substring0 n s) <= n.
Proof.
  unfold substring0. revert s. induction n as [|n IH]; intros [|c s]; cbn; try lia.
  specialize (IH s). lia.
Qed.

Lemma substring0_short n s : String.length s <= n -> substring0 n s = s.
Proof.
  unfold substring0. revert s. induction n as [|n IH]; intros [|c s]; cbn; try done; try lia.
  intros Hlen. rewrite IH; [done|lia].
Qed.

Lemma substring0_prefix n s : String.prefix (substring0 n s) s = true.
Proof.
  unfold substring0. revert s. induction n as [|n IH]; intros [|c s]; cbn; try done.
  destruct (ascii_dec c c); [apply IH|done].
Qed.

Lemma docGrades_app l1 l2 : docGrades (l1 ++ l2) = docGrades l1 ++ docGrades l2.
Proof. unfold docGrades. apply omap_app. Qed.

Lemma docGrades_modelOf state : docGrades (modelOf svc state).1 = [].
Proof.
  destruct (modelOf_cases svc state) as [(m & _ & ->)|[(_ & _ & ->)|(e & _ & _ & ->)]]; done.
Qed.

(** X15. The document judge is asked once for every chunk, in the order of
    the chunks, with the question of the state and the first 1000
    characters of the chunk (the whole chunk when it is no longer).  The
    documents of the result are chunks of the input in their order:
    nothing is added, duplicated or reordered. *)
Theorem documentGrader_grades_every_chunk (state result : gmap string value) :
  (documentGrader svc state).2 = Resolved result ->
  let docs := documents_of state in
  docGrades (documentGrader svc state).1
  = map (fun d => (question_of state, substring0 1000 (pageContent d))) docs
  /\ Forall (fun d => String.length (substring0 1000 (pageContent d)) <= 1000
                      /\ String.prefix (substring0 1000 (pageContent d)) (pageContent d) = true
                      /\ (String.length (pageContent d) <= 1000 ->
                          substring0 1000 (pageContent d) = pageContent d)) docs
  /\ documents_of result `sublist_of` docs.
Proof.
  intros Hres. cbv zeta.
  destruct (modelOf svc state) as [l [m|e]] eqn:Hm.
  2:{ by rewrite (documentGrader_rejected svc _ _ _ Hm) in Hres. }
  rewrite (documentGrader_resolved svc _ _ _ Hm) in Hres |- *.
  cbn [fst snd] in *. injection Hres as <-.
  split; [|split].
  - rewrite docGrades_app. pose proof (docGrades_modelOf state) as Hl.
    rewrite Hm in Hl. cbn [fst] in Hl. rewrite Hl, gradeEach_log. cbn [app].
    generalize (documents_of state). intros docs.
    induction docs as [|d docs IH]; [done|]. cbn. by f_equal.
  - apply Forall_forall. intros d _.
    split; [apply substring0_length|]. split; [apply substring0_prefix|].
    apply substring0_short.
  - rewrite documents_of_graded. apply keepTopIfNone_sublist, gradeEach_sublist.
Qed.

Lemma reducer_same k y : reducer k (Some y) y = Some y.
Proof.
  unfold reducer. destruct (k =? "generatedAnswer"); [|done].
  destruct y as [[|c s]| | | | |]; done.
Qed.

(** X16. The reducers of the state.  A node that returns the state it was
    given changes nothing.  An answer that is not empty is never replaced
    by an empty one: whatever a node returns, the answer does not
    become the empty string, and an update with an empty answer leaves the
    answer as it was. *)
Theorem applyUpdate_keeps_answer (state update : gmap string value) (a : string) :
  generatedAnswer_of state = Some a ->
  a <> "" ->
  applyUpdate state state = state
  /\ generatedAnswer_of (applyUpdate state update) <> Some ""
  /\ (update !! "generatedAnswer" = Some (VStr "") ->
      generatedAnswer_of (applyUpdate state update) = Some a).
Proof.
  intros Ha Hne. split; [|split].
  - apply map_eq. intros k. rewrite applyUpdate_lookup.
    destruct (bool_decide (k ∈ channels)); [|done].
    destruct (state !! k) as [y|]; [apply reducer_same|done].
  - rewrite applyUpdate_generatedAnswer.
    destruct (update !! "generatedAnswer") as [[[|c s]| | | | |]|]; rewrite ?Ha; try done;
      congruence.
  - intros Hu. by rewrite applyUpdate_generatedAnswer, Hu.
Qed.

End NodeProperties.

Section PipelineProperties.
Import JsString Server Requests Runs.
Context (w : World).

(** The chat handler on a request that reaches the answering part:
    the state it leaves, outcome by outcome. *)
Lemma postChat_pipeline (req : ChatRequest) cache urls m :
  reachesPipeline req urls m ->
  postChat w req cache
  = let us' := sort urls in
    let key := join "|" us' in
    let hist := default [] (chat_conversationHistory req) in
    let response result :=
      {| status := 200;
         body := BChat (MStr match RagChain.generatedAnswer_of result with
                             | Some a => if truthy a then a else noAnswerFallback
                             | None => noAnswerFallback
                             end)
                       (RagChain.formatDocuments (RagChain.documents_of result)) |} in
    let finish cache' trace1 aw1 store ms :=
      let '(l, r) := RagChain.invoke (services w) (graphInput m us' store hist) in
      {| vectorStoreCache := cache'; urlsArray := us'; responseSent := true;
         timeoutId := None;
         sent := [if timerFirst w GraphRace ms then failureResponse timeoutError
                  else match r with
                       | Rejected e => failureResponse e
                       | Resolved result => response result
                       end];
         trace := trace1 ++ l; awaited := S aw1 |} in
    match cache !! key with
    | Some store =>
        finish cache [CacheHas key; CacheHas key; CacheGet key] 0 store
          (DEFAULT_TIMEOUT_MS w)
    | None =>
        match RagChain.loadSplitEmbed (services w) us' with
        | Resolved vs =>
            let trace1 :=
              [CacheHas key; CacheHas key; BuildVectorStore us'; CacheSet key vs] in
            if timerFirst w BuildRace FIRST_LOAD_TIMEOUT_MS then
              {| vectorStoreCache := <[ key := vs ]> cache; urlsArray := us';
                 responseSent := true; timeoutId := None;
                 sent := [failureResponse timeoutError]; trace := trace1; awaited := 1 |}
            else finish (<[ key := vs ]> cache) trace1 1 vs 60000%N
        | Rejected e =>
            {| vectorStoreCache := cache; urlsArray := us'; responseSent := true;
               timeoutId := None;
               sent := [failureResponse
                          (if timerFirst w BuildRace FIRST_LOAD_TIMEOUT_MS
                           then timeoutError else e)];
               trace := [CacheHas key; CacheHas key; BuildVectorStore us'];
               awaited := 1 |}
        end
    end.
Proof.
  intros Hreach. unfold postChat, chatHandler, tryCatch.
  rewrite (chatTry_reachesPipeline w req cache urls m Hreach).
  unfold initState. cbn [elemsOf]. rewrite chatAnswer_unfold. cbv zeta.
  destruct (cache !! join "|" (sort urls)) as [store|].
  - destruct (RagChain.invoke _ _) as [l r].
    destruct (timerFirst w GraphRace (DEFAULT_TIMEOUT_MS w));
      [|destruct r as [result|e]]; by rewrite ?chatCatch_first.
  - destruct (RagChain.loadSplitEmbed (services w) (sort urls)) as [vs|e];
      destruct (timerFirst w BuildRace FIRST_LOAD_TIMEOUT_MS);
      try destruct (RagChain.invoke _ _) as [l r];
      try destruct (timerFirst w GraphRace 60000%N);
      try destruct r as [result|e']; by rewrite ?chatCatch_first.
Qed.

Lemma buildsIn_none l :
  (forall e, e ∈ l -> forall urls, e <> BuildVectorStore urls) -> buildsIn l = [].
Proof.
  induction l as [|e l IH]; [done|]. intros Hl.
  assert (He : forall urls, e <> BuildVectorStore urls) by (apply Hl; left).
  assert (Hrest : buildsIn l = []) by (apply IH; intros e' He'; apply Hl; by right).
  destruct e; try done. by destruct (He urls).
Qed.

Lemma buildsIn_invoke m urls store hist :
  buildsIn (RagChain.invoke (services w) (graphInput m urls store hist)).1 = [].
Proof.
  apply buildsIn_none. intros e He.
  by apply (invoke_observes_urls (services w) _ urls store
              (graphInput_urls m urls store hist) (graphInput_vectorStore m urls store hist)).
Qed.

Lemma chat_hit_builds_nothing (req : ChatRequest) cache urls m store :
  reachesPipeline req urls m ->
  cache !! join "|" (sort urls) = Some store ->
  buildsIn (trace (postChat w req cache)) = []
  /\ vectorStoreCache (postChat w req cache) = cache.
Proof.
  intros Hreach Hhit. rewrite (postChat_pipeline req cache urls m Hreach).
  cbv zeta. rewrite Hhit.
  pose proof (buildsIn_invoke m (sort urls) store
                (default [] (chat_conversationHistory req))) as Hb.
  destruct (RagChain.invoke _ _) as [l r]. cbn [fst] in Hb.
  cbn [trace vectorStoreCache]. by rewrite buildsIn_app, Hb.
Qed.

(** X17. A chat request whose index is cached builds nothing.  The handler
    takes the index from the cache, runs the graph on it, calls
    [buildVectorStore] not at all and leaves the cache as it is, whatever
    the graph and the timers do. *)
Theorem warm_chat_never_builds (req : ChatRequest) cache urls m store :
  reachesPipeline req urls m ->
  cache !! join "|" (sort urls) = Some store ->
  let st := postChat w req cache in
  let key := join "|" (sort urls) in
  buildsIn (trace st) = []
  /\ vectorStoreCache st = cache
  /\ trace st
     = [CacheHas key; CacheHas key; CacheGet key]
       ++ (RagChain.invoke (services w)
             (graphInput m (sort urls) store
                (default [] (chat_conversationHistory req)))).1.
Proof.
  intros Hreach Hhit. cbv zeta. rewrite (postChat_pipeline req cache urls m Hreach).
  cbv zeta. rewrite Hhit.
  pose proof (buildsIn_invoke m (sort urls) store
                (default [] (chat_conversationHistory req))) as Hb.
  destruct (RagChain.invoke _ _) as [l r]. cbn [fst] in Hb.
  cbn [trace vectorStoreCache fst]. rewrite buildsIn_app, Hb. done.
Qed.



Lemma graphInput_question m urls store hist :
  RagChain.question_of (graphInput m urls store hist) = m.
Proof. reflexivity. Qed.

Lemma graphInput_no_answer m urls store hist :
  graphInput m urls store hist !! "generatedAnswer" = None.
Proof. reflexivity. Qed.

Lemma noAnswerFallback_not_empty : noAnswerFallback <> "".
Proof. done. Qed.


Lemma externalCalls_app l1 l2 :
  externalCalls (l1 ++ l2) = externalCalls l1 ++ externalCalls l2.
Proof. unfold externalCalls. apply List.filter_app. Qed.

(** X20. When the retriever finds nothing for a question.  With no timer
    firing, an index that is cached or can be built, an empty retrieval
    and a model that can be created, the response is 200 with the
    fixed fallback text and no documents.  The calls made are the cache
    operations (with the build on a miss), the retrieval with k = 10 and
    the message as it was sent, and the creation of the model: neither a
    judge nor the generation chain is called. *)
Theorem chat_nothing_retrieved (req : ChatRequest) cache urls m store :
  reachesPipeline req urls m ->
  (forall race ms, timerFirst w race ms = false) ->
  match cache !! join "|" (sort urls) with
  | Some cached => cached = store
  | None => RagChain.loadSplitEmbed (services w) (sort urls) = Resolved store
  end ->
  RagChain.retrieverInvoke (services w) store 10 m = Resolved [] ->
  RagChain.newChatOpenAI (services w) = Resolved tt ->
  let st := postChat w req cache in
  let key := join "|" (sort urls) in
  sent st = [{| status := 200; body := BChat (MStr noAnswerFallback) [] |}]
  /\ externalCalls (trace st)
     = match cache !! key with
       | Some _ => [CacheHas key; CacheHas key; CacheGet key]
       | None => [CacheHas key; CacheHas key; BuildVectorStore (sort urls);
                  CacheSet key store]
       end ++ [Retrieve store 10 m; CreateModel]
  /\ nodesRun (trace st) = take 3 fiveNodes.
Proof.
  intros Hreach Hcalm Hstore Hretr Hmodel. cbv zeta.
  rewrite (postChat_pipeline req cache urls m Hreach). cbv zeta.
  set (hist := default [] (chat_conversationHistory req)).
  destruct (invoke_nothing_retrieved (services w) (graphInput m (sort urls) store hist) store
              (graphInput_vectorStore _ _ _ _) Hretr Hmodel)
    as (s & Hrun & Hdocs & _ & Hanswer & Hcalls & Hnodes).
  specialize (Hanswer (graphInput_no_answer _ _ _ _)).
  rewrite graphInput_question in Hcalls.
  destruct (cache !! join "|" (sort urls)) as [cached|].
  - subst cached. rewrite !Hcalm.
    destruct (RagChain.invoke _ _) as [l r]. cbn [fst snd] in Hrun, Hcalls, Hnodes.
    subst r. rewrite Hanswer, Hdocs. cbn [sent trace].
    split; [done|]. by rewrite externalCalls_app, nodesRun_app, Hcalls, Hnodes.
  - rewrite Hstore, !Hcalm.
    destruct (RagChain.invoke _ _) as [l r]. cbn [fst snd] in Hrun, Hcalls, Hnodes.
    subst r. rewrite Hanswer, Hdocs. cbn [sent trace].
    split; [done|]. by rewrite externalCalls_app, nodesRun_app, Hcalls, Hnodes.
Qed.

End PipelineProperties.

Section QueryHandlerProperties.
Import JsString Server Requests Runs.
Context (w : World).

(** The query handler on a request that passes its validation: the state
    it leaves, outcome by outcome. *)
Lemma postQuery_valid (urls : list string) (question : string) cache :
  urls <> [] ->
  trim question <> "" ->
  postQuery w {| query_urls := JArray urls; query_question := JStr question |} cache
  = let us' := sort urls in
    let key := join "|" us' in
    let finish cache' trace1 aw1 store :=
      let '(l, r) := RagChain.invoke (services w) (graphInput question us' store []) in
      {| vectorStoreCache := cache'; urlsArray := us'; responseSent := false;
         timeoutId := None;
         sent := [match r with
                  | Resolved result =>
                      {| status := 200;
                         body := BQuery question
                                   (RagChain.formatDocuments (RagChain.documents_of result))
                                   (length (RagChain.formatDocuments
                                              (RagChain.documents_of result)))
                                   (RagChain.generatedAnswer_of result) |}
                  | Rejected e =>
                      {| status := 500;
                         body := BFailure "Failed to process query" (message e) |}
                  end];
         trace := trace1 ++ l; awaited := S aw1 |} in
    match cache !! key with
    | Some store => finish cache [CacheHas key; CacheGet key] 0 store
    | None =>
        match RagChain.loadSplitEmbed (services w) us' with
        | Resolved vs =>
            finish (<[ key := vs ]> cache)
              [CacheHas key; BuildVectorStore us'; CacheSet key vs] 1 vs
        | Rejected e =>
            {| vectorStoreCache := cache; urlsArray := us'; responseSent := false;
               timeoutId := None;
               sent := [{| status := 500;
                           body := BFailure "Failed to process query" (message e) |}];
               trace := [CacheHas key; BuildVectorStore us']; awaited := 1 |}
        end
    end.
Proof.
  intros Hurls Htrim.
  unfold postQuery, queryHandler, tryCatch, hbind, get, initState.
  cbn [query_urls query_question urlsArray fst snd elemsOf truthyVal isArray negb orb].
  destruct urls as [|u us]; [done|]. cbn [length Nat.eqb].
  assert (truthy question = true) as ->.
  { destruct question; [by destruct Htrim|done]. }
  cbn [negb]. apply String.eqb_neq in Htrim. rewrite Htrim.
  rewrite getOrCreateVectorStore_unfold. cbv zeta.
  unfold await, resJson, hbind, hret, get, modify.
  destruct (cache !! join "|" (sort (u :: us))) as [store|]; run_handler.
  - by destruct (RagChain.invoke _ _) as [l [result|e]]; run_handler.
  - destruct (RagChain.loadSplitEmbed (services w) (sort (u :: us))) as [vs|e];
      run_handler; [|done].
    by destruct (RagChain.invoke _ _) as [l [result|e]]; run_handler.
Qed.

(** Every way through the query handler. *)
Lemma postQuery_cases (req : QueryRequest) cache :
  (queryRefused req = true
   /\ exists error,
        postQuery w req cache
        = set_sent [{| status := 400; body := BError error |}]
            (initState cache (query_urls req)))
  \/ (queryRefused req = false
      /\ truthyNonString (query_question req) = true
      /\ postQuery w req cache
         = set_sent [{| status := 500;
                        body := BFailure "Failed to process query"
                                         "question.trim is not a function" |}]
             (initState cache (query_urls req)))
  \/ (queryRefused req = false
      /\ exists urls question,
           req = {| query_urls := JArray urls; query_question := JStr question |}
           /\ urls <> [] /\ trim question <> "").
Proof.
  destruct req as [urls q].
  unfold postQuery, queryHandler, queryRefused, badUrls, truthyNonString, tryCatch,
    hbind, get, initState, resJson, modify, hthrow.
  cbn [query_urls query_question urlsArray fst snd].
  destruct urls as [| |b|n|s0|us|];
    cbn [truthyVal isArray negb orb elemsOf length Nat.eqb];
    try (left; split; [done|by eexists]).
  - destruct b; cbn [negb orb]; left; (split; [done|by eexists]).
  - destruct (n =? 0)%Z; cbn [negb orb]; left; (split; [done|by eexists]).
  - destruct (truthy s0); cbn [negb orb]; left; (split; [done|by eexists]).
  - destruct us as [|u us]; cbn [length Nat.eqb orb]; [left; split; [done|by eexists]|].
    destruct q as [| |b|n|q|l|]; cbn [truthyVal negb orb andb];
      try (left; split; [done|by eexists]); try (right; left; done).
    + destruct b; cbn [negb orb andb]; [right; left; done|left; split; [done|by eexists]].
    + destruct (n =? 0)%Z; cbn [negb orb andb];
        [left; split; [done|by eexists]|right; left; done].
    + destruct (truthy q) eqn:Hq; cbn [negb orb]; [|left; split; [done|by eexists]].
      destruct (trim q =? "") eqn:Htrim; cbn [orb]; [left; split; [done|by eexists]|].
      right. right. split; [done|]. exists (u :: us), q.
      apply String.eqb_neq in Htrim. done.
Qed.

(** X21. The legacy query handler, for every request.  It sends exactly one
    response, of status 400, 200 or 500.  The status is 400 exactly for the
    requests that its validation refuses ([urls] is no non-empty array,
    or the question is falsy or a blank string), and a refused request
    touches neither the cache nor a service.  A 200 response repeats the
    question, and its [documentCount] is the number of documents it
    carries. *)
Theorem query_sends_one_response (req : QueryRequest) cache :
  let st := postQuery w req cache in
  exists r,
    sent st = [r]
    /\ (status r = 400 \/ status r = 200 \/ status r = 500)
    /\ (status r = 400 <-> queryRefused req = true)
    /\ (queryRefused req = true -> trace st = [] /\ vectorStoreCache st = cache)
    /\ (status r = 200 ->
        exists question documents answer,
          query_question req = JStr question
          /\ body r = BQuery question documents (length documents) answer).
Proof.
  cbv zeta.
  destruct (postQuery_cases req cache)
    as [(Href & err & ->)|[(Href & _ & ->)|(Href & urls & q & -> & Hurls & Htrim)]].
  - eexists. split; [reflexivity|]. rewrite Href. cbn. by repeat split; try tauto.
  - eexists. split; [reflexivity|]. rewrite Href. cbn.
    repeat split; try tauto; try done.
  - rewrite (postQuery_valid urls q cache Hurls Htrim), Href. cbv zeta.
    destruct (cache !! join "|" (sort urls)) as [store|].
    + destruct (RagChain.invoke _ _) as [l [result|e]]; cbn [sent];
        (eexists; split; [reflexivity|]); cbn [status body];
        repeat split; try tauto; try done.
      intros _. by do 3 eexists.
    + destruct (RagChain.loadSplitEmbed (services w) (sort urls)) as [vs|e].
      * destruct (RagChain.invoke _ _) as [l [result|e]]; cbn [sent];
          (eexists; split; [reflexivity|]); cbn [status body];
          repeat split; try tauto; try done.
        intros _. by do 3 eexists.
      * eexists; split; [reflexivity|]; cbn [status body];
          repeat split; try tauto; try done.
Qed.

(** X22. The query handler has no deadline.  It sets no timer: its response
    and the state it leaves depend on the services only, not on the
    timers, the environment or the random source, and it never answers
    408, also when the message of a failure mentions a timeout. *)
Theorem query_has_no_deadline (req : QueryRequest) cache :
  (forall w', services w' = services w -> postQuery w' req cache = postQuery w req cache)
  /\ statuses (postQuery w req cache) <> [408].
Proof.
  split.
  - intros w' Hsvc.
    unfold postQuery, queryHandler, getOrCreateVectorStore. by rewrite Hsvc.
  - unfold statuses.
    destruct (postQuery_cases req cache)
      as [(Href & err & ->)|[(Href & _ & ->)|(Href & urls & q & -> & Hurls & Htrim)]];
      [done|done|].
    rewrite (postQuery_valid urls q cache Hurls Htrim). cbv zeta.
    destruct (cache !! join "|" (sort urls)) as [store|].
    + by destruct (RagChain.invoke _ _) as [l [result|e]].
    + destruct (RagChain.loadSplitEmbed (services w) (sort urls)) as [vs|e]; [|done].
      by destruct (RagChain.invoke _ _) as [l [result|e]].
Qed.

(** X23. The handlers share one cache.  After a query that was answered 200,
    the index of its URLs is in the cache under the key of the sorted
    list, and a chat request for the same URLs, in any order, that
    reaches the answering part finds it: it builds nothing and leaves the
    cache as it is. *)
Theorem query_warms_chat (qreq : QueryRequest) (creq : ChatRequest) cache urls urls2 m :
  query_urls qreq = JArray urls ->
  statuses (postQuery w qreq cache) = [200] ->
  reachesPipeline creq urls2 m ->
  Permutation urls2 urls ->
  let cache1 := vectorStoreCache (postQuery w qreq cache) in
  is_Some (cache1 !! join "|" (sort urls))
  /\ buildsIn (trace (postChat w creq cache1)) = []
  /\ vectorStoreCache (postChat w creq cache1) = cache1.
Proof.
  intros Hq H200 Hreach Hperm. cbv zeta.
  assert (Hcached : is_Some (vectorStoreCache (postQuery w qreq cache)
                               !! join "|" (sort urls))).
  { unfold statuses in H200.
    destruct (postQuery_cases qreq cache)
      as [(Href & err & Heq)|[(Href & _ & Heq)|(Href & us & q & -> & Hurls & Htrim)]];
      [by rewrite Heq in H200..|].
    cbn [query_urls] in Hq. injection Hq as ->.
    rewrite (postQuery_valid urls q cache Hurls Htrim) in H200 |- *. cbv zeta in *.
    destruct (cache !! join "|" (sort urls)) as [store|] eqn:Hc.
    - destruct (RagChain.invoke _ _) as [l r]. cbn [vectorStoreCache]. by rewrite Hc.
    - destruct (RagChain.loadSplitEmbed (services w) (sort urls)) as [vs|e]; [|done].
      destruct (RagChain.invoke _ _) as [l r]. cbn [vectorStoreCache].
      by rewrite lookup_insert_eq. }
  split; [done|]. destruct Hcached as [store Hstore].
  apply (chat_hit_builds_nothing w creq _ urls2 m store Hreach).
  by rewrite (sort_Permutation_eq _ _ Hperm).
Qed.

End QueryHandlerProperties.

Section SampleQuestionsProperties.
Import JsString Server SampleQuestions Requests Runs.
Context (w : World) (qs : QuestionServices).

(** The store that [getOrCreateVectorStore] returns for a URL list, or
    its failure. *)
Lemma sampleQuestions_valid (urls : list string) cache :
  (1 <= length urls <= 3)%nat ->
  let us' := sort urls in
  let key := join "|" us' in
  let run := postSampleQuestions w qs (JArray urls) cache in
  run.1
  = Resolved
      {| sampleStatus := 200;
         sampleBody :=
           SQuestions
             match match cache !! key with
                   | Some store => Resolved store
                   | None => RagChain.loadSplitEmbed (services w) us'
                   end with
             | Rejected _ => defaultQuestions
             | Resolved store =>
                 match RagChain.retrieverInvoke (services w) store 5
                         "main topics and key information" with
                 | Rejected _ => defaultQuestions
                 | Resolved sampleDocs =>
                     if (length sampleDocs =? 0)%nat then defaultQuestions
                     else
                       match newQuestionModel qs with
                       | Rejected _ => defaultQuestions
                       | Resolved _ =>
                           match questionChain qs
                                   (join (RagChain.nl +:+ RagChain.nl)
                                      (map pageContent (take 3 sampleDocs))) with
                           | Rejected _ => defaultQuestions
                           | Resolved questionsText =>
                               if (0 <? length (parseQuestions questionsText))%nat
                               then parseQuestions questionsText
                               else defaultQuestions
                           end
                       end
                 end
             end |}
  /\ vectorStoreCache run.2
     = match cache !! key with
       | Some _ => cache
       | None =>
           match RagChain.loadSplitEmbed (services w) us' with
           | Resolved vs => <[ key := vs ]> cache
           | Rejected _ => cache
           end
       end
  /\ buildsIn (trace run.2)
     = match cache !! key with
       | Some _ => []
       | None => [us']
       end.
Proof.
  intros [Hlo Hhi]. cbv zeta.
  unfold postSampleQuestions, sampleQuestionsHandler, tryCatch, hbind, get, initState.
  cbn [urlsArray fst snd elemsOf truthyVal isArray negb orb].
  destruct urls as [|u us]; [cbn in Hlo; lia|]. cbn [length Nat.eqb].
  assert ((3 <? S (length us))%nat = false) as -> by (apply Nat.ltb_ge; cbn in Hhi; lia).
  rewrite getOrCreateVectorStore_unfold. cbv zeta.
  unfold await, liftOutcome, RagChain.retrieve, bind, log, hbind, hret, get, modify.
  destruct (cache !! join "|" (sort (u :: us))) as [store|]; run_handler.
  - destruct (RagChain.retrieverInvoke _ _ _ _) as [docs|e]; run_handler;
      [|by rewrite !buildsIn_app].
    destruct (length docs =? 0)%nat; [by rewrite !buildsIn_app|].
    destruct (newQuestionModel qs) as [[]|e]; [|by rewrite !buildsIn_app].
    destruct (questionChain qs _) as [text|e]; run_handler; by rewrite !buildsIn_app.
  - destruct (RagChain.loadSplitEmbed (services w) (sort (u :: us))) as [vs|e];
      run_handler; [|done].
    destruct (RagChain.retrieverInvoke _ _ _ _) as [docs|e]; run_handler;
      [|by rewrite !buildsIn_app].
    destruct (length docs =? 0)%nat; [by rewrite !buildsIn_app|].
    destruct (newQuestionModel qs) as [[]|e]; [|by rewrite !buildsIn_app].
    destruct (questionChain qs _) as [text|e]; run_handler; by rewrite !buildsIn_app.
Qed.

Lemma sampleQuestions_refused (urls : jsval) cache :
  badUrls urls || (3 <? length (elemsOf urls))%nat = true ->
  exists error,
    postSampleQuestions w qs urls cache
    = (Resolved {| sampleStatus := 400; sampleBody := SError error |},
       initState cache urls).
Proof.
  unfold postSampleQuestions, sampleQuestionsHandler, badUrls, tryCatch, hbind, hret, get,
    initState.
  cbn [urlsArray fst snd].
  destruct (negb (truthyVal urls) || negb (isArray urls) || (length (elemsOf urls) =? 0)%nat);
    cbn [orb]; [by eexists|].
  intros ->. by eexists.
Qed.

Lemma sampleQuestions_accepted (urls : jsval) :
  badUrls urls || (3 <? length (elemsOf urls))%nat = false ->
  exists us, urls = JArray us /\ (1 <= length us <= 3)%nat.
Proof.
  unfold badUrls. intros [Hbad Hlen]%orb_false_iff.
  apply orb_false_iff in Hbad as [Hbad Hempty].
  apply orb_false_iff in Hbad as [_ Harr].
  destruct urls as [| | | | |us|]; try done. exists us. split; [done|].
  cbn [elemsOf] in *. apply Nat.eqb_neq in Hempty. apply Nat.ltb_ge in Hlen. lia.
Qed.

Lemma parseQuestions_length text : length (parseQuestions text) <= 5.
Proof. unfold parseQuestions. rewrite length_take. lia. Qed.

Lemma parseQuestions_elem text q :
  q ∈ parseQuestions text ->
  q <> "" /\ numbered q = false /\ exists line, line ∈ splitLines text /\ q = trim line.
Proof.
  unfold parseQuestions. intros Hq.
  pose proof (subseteq_take 5 _ _ Hq) as Hin.
  apply list_elem_of_In, List.filter_In in Hin as [Hin Hcond].
  apply andb_true_iff in Hcond as [Hlen Hnum].
  split; [by destruct q|]. split; [by destruct (numbered q)|].
  apply List.in_map_iff in Hin as (line & <- & Hline).
  exists line. split; [by apply list_elem_of_In|done].
Qed.

Lemma filter_sublist {A} (f : A -> bool) (l : list A) : List.filter f l `sublist_of` l.
Proof.
  induction l as [|x l IH]; [done|]. cbn [List.filter].
  destruct (f x); by constructor.
Qed.

Lemma filter_none {A} (f : A -> bool) (l : list A) :
  (forall x, In x l -> f x = false) -> List.filter f l = [].
Proof.
  induction l as [|x l IH]; [done|]. intros Hl. cbn [List.filter].
  rewrite (Hl x) by (by left). apply IH. intros y Hy. apply Hl. by right.
Qed.

Lemma splitLines_not_nil s : splitLines s <> [].
Proof.
  destruct s as [|c s]; [done|]. cbn [splitLines].
  destruct (c =? "010")%char; [done|]. by destruct (splitLines s).
Qed.

Lemma splitLines_join s : join RagChain.nl (splitLines s) = s.
Proof.
  induction s as [|c s IH]; [done|]. cbn [splitLines].
  destruct (c =? "010")%char eqn:Hc.
  - apply Ascii.eqb_eq in Hc. subst c.
    pose proof (splitLines_not_nil s) as Hne.
    destruct (splitLines s) as [|line lines]; [done|].
    cbn [join String.concat] in *. by rewrite IH.
  - pose proof (splitLines_not_nil s) as Hne.
    destruct (splitLines s) as [|line lines]; [done|].
    destruct lines as [|line' lines]; cbn [join String.concat] in *; by rewrite <- IH.
Qed.

(** X24. How the text of the model is parsed into questions.  Splitting at
    the line feeds loses nothing (joining the lines gives the text
    back).  At most five questions are kept, in the order of the lines;
    each is a trimmed line, is not empty and does not start with a
    number and a dot or parenthesis.  A numbered line is dropped as a
    whole, its number is not stripped: a text whose lines are all blank
    or numbered gives no question. *)
Theorem parseQuestions_spec (questionsText : string) :
  let questions := parseQuestions questionsText in
  join RagChain.nl (splitLines questionsText) = questionsText
  /\ length questions <= 5
  /\ questions `sublist_of` map trim (splitLines questionsText)
  /\ (forall q, q ∈ questions -> q <> "" /\ numbered q = false)
  /\ ((forall line, line ∈ splitLines questionsText ->
          trim line = "" \/ numbered (trim line) = true) ->
      questions = []).
Proof.
  cbv zeta. split; [apply splitLines_join|]. split; [apply parseQuestions_length|].
  split; [|split].
  - unfold parseQuestions. etrans; [apply sublist_take|apply filter_sublist].
  - intros q Hq. by destruct (parseQuestions_elem _ _ Hq) as (? & ? & _).
  - intros Hall. unfold parseQuestions. rewrite filter_none; [done|].
    intros q (line & <- & Hline)%List.in_map_iff.
    destruct (Hall line) as [-> | ->]; [by apply list_elem_of_In|done|].
    by rewrite andb_false_r.
Qed.

Lemma defaultQuestions_ok :
  1 <= length defaultQuestions <= 5 /\ Forall (fun q => q <> "") defaultQuestions.
Proof. split; [cbn; lia|]. by repeat constructor. Qed.

Lemma questions_or_default_ok text :
  let questions :=
    if (0 <? length (parseQuestions text))%nat then parseQuestions text
    else defaultQuestions in
  1 <= length questions <= 5 /\ Forall (fun q => q <> "") questions.
Proof.
  cbv zeta. destruct (0 <? length (parseQuestions text))%nat eqn:Hlen;
    [|apply defaultQuestions_ok].
  apply Nat.ltb_lt in Hlen. pose proof (parseQuestions_length text).
  split; [lia|]. apply Forall_forall. intros q Hq.
  by destruct (parseQuestions_elem _ _ Hq).
Qed.

(** X25. The sample-questions handler never fails.  Whatever the body and
    whatever the services do, the handler returns a response: 400 exactly
    when [urls] is no non-empty array or has more than three elements,
    and 200 otherwise, also when the build, the retrieval, the model or
    the chain fails.  A 200 response carries between one and five
    questions, none of them empty. *)
Theorem sample_questions_never_fails (urls : jsval) cache :
  exists r,
    (postSampleQuestions w qs urls cache).1 = Resolved r
    /\ (sampleStatus r = 400 \/ sampleStatus r = 200)
    /\ (sampleStatus r = 400
        <-> badUrls urls || (3 <? length (elemsOf urls))%nat = true)
    /\ (sampleStatus r = 200 ->
        exists questions,
          sampleBody r = SQuestions questions
          /\ 1 <= length questions <= 5
          /\ Forall (fun q => q <> "") questions).
Proof.
  destruct (badUrls urls || (3 <? length (elemsOf urls))%nat) eqn:Href.
  - destruct (sampleQuestions_refused urls cache Href) as [error ->].
    eexists. split; [reflexivity|]. cbn. repeat split; try tauto; done.
  - destruct (sampleQuestions_accepted urls Href) as (us & -> & Hlen).
    destruct (sampleQuestions_valid us cache Hlen) as (-> & _).
    eexists. split; [reflexivity|]. cbn [sampleStatus sampleBody].
    split; [by right|]. split; [done|]. intros _. eexists. split; [reflexivity|].
    destruct (match cache !! _ with Some store => _ | None => _ end) as [store|e];
      [|apply defaultQuestions_ok].
    destruct (RagChain.retrieverInvoke _ _ _ _) as [docs|e]; [|apply defaultQuestions_ok].
    destruct (length docs =? 0)%nat; [apply defaultQuestions_ok|].
    destruct (newQuestionModel qs) as [[]|e]; [|apply defaultQuestions_ok].
    destruct (questionChain qs _) as [text|e]; [|apply defaultQuestions_ok].
    apply questions_or_default_ok.
Qed.

(** X26. The sample-questions handler fills the cache of the chat handler.
    For one to three URLs whose index is cached or can be built, the
    index is in the cache when the handler is done, also when the
    retrieval or the model fails afterwards, and a chat request for the
    same URLs, in any order, builds nothing.  The handler itself builds
    at most once, and only on a miss. *)
Theorem sample_questions_warm_chat (urls urls2 : list string) (creq : ChatRequest) cache m
    (store : MemoryVectorStore) :
  (1 <= length urls <= 3)%nat ->
  match cache !! join "|" (sort urls) with
  | Some cached => cached = store
  | None => RagChain.loadSplitEmbed (services w) (sort urls) = Resolved store
  end ->
  reachesPipeline creq urls2 m ->
  Permutation urls2 urls ->
  let run := postSampleQuestions w qs (JArray urls) cache in
  let cache1 := vectorStoreCache run.2 in
  cache1 !! join "|" (sort urls) = Some store
  /\ buildsIn (trace run.2)
     = match cache !! join "|" (sort urls) with Some _ => [] | None => [sort urls] end
  /\ buildsIn (trace (postChat w creq cache1)) = []
  /\ vectorStoreCache (postChat w creq cache1) = cache1.
Proof.
  intros Hlen Hstore Hreach Hperm. cbv zeta.
  destruct (sampleQuestions_valid urls cache Hlen) as (_ & Hcache & Hbuilds).
  assert (Hcached : vectorStoreCache (postSampleQuestions w qs (JArray urls) cache).2
                    !! join "|" (sort urls) = Some store).
  { rewrite Hcache. destruct (cache !! join "|" (sort urls)) as [cached|] eqn:Hc.
    - by subst.
    - rewrite Hstore. apply lookup_insert_eq. }
  split; [done|]. split; [done|].
  apply (chat_hit_builds_nothing w creq _ urls2 m store Hreach).
  by rewrite (sort_Permutation_eq _ _ Hperm).
Qed.

End SampleQuestionsProperties.

Section ScheduleProperties.
Import JsString EventLoop Runs.

Lemma begun_cons c l :
  begun (c :: l) = (match c with NotStarted _ => 0 | _ => 1 end) + begun l.
Proof. unfold begun. cbn [List.filter]. by destruct c. Qed.

Lemma begun_le l : begun l <= length l.
Proof.
  induction l as [|c l IH]; [done|]. rewrite begun_cons. cbn [length].
  destruct c; lia.
Qed.

Lemma begun_insert l i c c' :
  l !! i = Some c ->
  begun (<[ i := c' ]> l) + (match c with NotStarted _ => 0 | _ => 1 end)
  = begun l + (match c' with NotStarted _ => 0 | _ => 1 end).
Proof.
  revert i. induction l as [|x l IH]; intros [|i] Hi; try done.
  - cbn in Hi. injection Hi as ->. cbn [insert list_insert]. rewrite !begun_cons. lia.
  - cbn in Hi. unfold insert. cbn [list_insert]. rewrite !begun_cons.
    specialize (IH i Hi). unfold insert in IH |- *. lia.
Qed.

Lemma step_bounded p s :
  length (builds p) <= begun (calls p) ->
  length (builds (step p s)) <= begun (calls (step p s))
  /\ length (calls (step p s)) = length (calls p).
Proof.
  intros Hinv. destruct s as [i|i failure]; cbn [step].
  - unfold begin. destruct (calls p !! i) as [[urls|urls k b|urls r]|] eqn:Hi; [|done..].
    cbv zeta. destruct (vectorStoreCache p !! join "|" (sort urls)) as [store|];
      cbn [builds calls]; rewrite length_insert; (split; [|done]).
    + pose proof (begun_insert _ _ _ (Settled (sort urls) (Resolved store)) Hi) as H.
      cbv beta iota in H. lia.
    + pose proof (begun_insert _ _ _
                    (AwaitingBuild (sort urls) (join "|" (sort urls)) (length (builds p)))
                    Hi) as H.
      cbv beta iota in H. rewrite length_app. cbn [length]. lia.
  - unfold buildSettles.
    destruct (calls p !! i) as [[urls|urls k b|urls r]|] eqn:Hi; [done| |done..].
    destruct failure as [e|]; cbn [builds calls]; rewrite length_insert; (split; [|done]).
    + pose proof (begun_insert _ _ _ (Settled urls (Rejected e)) Hi) as H.
      cbv beta iota in H. lia.
    + pose proof (begun_insert _ _ _ (Settled urls (Resolved {| storeId := b |})) Hi)
        as H.
      cbv beta iota in H. lia.
Qed.

Lemma begun_start requests : begun (map NotStarted requests) = 0.
Proof. induction requests as [|r l IH]; [done|]. by rewrite map_cons, begun_cons. Qed.

(** X27. No schedule makes a call build twice.  Whatever steps are taken, in
    whatever order and however often, the number of builds started is at
    most the number of calls that have begun, which is at most the
    number of calls. *)
Theorem builds_bounded_by_calls (cache : gmap string MemoryVectorStore)
    (requests : list (list string)) (schedule : list Step) :
  let p := run (start cache requests) schedule in
  length (builds p) <= begun (calls p)
  /\ begun (calls p) <= length requests
  /\ length (calls p) = length requests.
Proof.
  cbv zeta.
  assert (Hgen : forall p,
            length (builds p) <= begun (calls p) ->
            length (builds (run p schedule)) <= begun (calls (run p schedule))
            /\ length (calls (run p schedule)) = length (calls p)).
  { induction schedule as [|s schedule IH]; intros p Hinv; [done|].
    cbn [run foldl]. destruct (step_bounded p s Hinv) as [Hs Hl].
    destruct (IH (step p s) Hs) as [Hr Hlr]. unfold run in *. split; [done|congruence]. }
  destruct (Hgen (start cache requests)) as [Hb Hl].
  { unfold start. cbn [builds calls]. by rewrite begun_start. }
  unfold start in Hl. cbn [calls] in Hl. rewrite length_map in Hl.
  split; [done|]. split; [|done]. rewrite <- Hl. apply begun_le.
Qed.

(** The calls that follow a cached key, one by one. *)
Lemma run_warm (key : string) (store : MemoryVectorStore) (requests : list (list string)) :
  forall cache pre bs,
    (forall urls, urls ∈ requests -> cacheKeyOf urls = key) ->
    cache !! key = Some store ->
    run {| vectorStoreCache := cache; calls := pre ++ map NotStarted requests;
           builds := bs |}
        (flat_map (fun i => [Begin i; BuildSettles i None])
                  (seq (length pre) (length requests)))
    = {| vectorStoreCache := cache;
         calls := pre ++ map (fun urls => Settled (sort urls) (Resolved store)) requests;
         builds := bs |}.
Proof.
  induction requests as [|urls rest IH]; intros cache pre bs Hkey Hhit; [done|].
  cbn [length seq flat_map app map run foldl step].
  assert (Hurls : join "|" (sort urls) = key) by (apply Hkey; left).
  unfold begin at 1. cbn [calls vectorStoreCache builds].
  rewrite list_lookup_middle by done. cbv zeta. rewrite Hurls, Hhit.
  rewrite insert_app_r_alt by done. rewrite Nat.sub_diag. cbn [insert list_insert map].
  unfold buildSettles at 1. cbn [calls].
  rewrite list_lookup_middle by done.
  specialize (IH cache (pre ++ [Settled (sort urls) (Resolved store)]) bs).
  rewrite length_app in IH. cbn [length] in IH. rewrite Nat.add_1_r in IH.
  rewrite <- (app_assoc pre [_]) in IH. cbn [app] in IH.
  unfold run in IH. rewrite IH; [|intros; apply Hkey; by right|done].
  by rewrite <- !app_assoc.
Qed.

(** X28. Calls that do not overlap share one build.  When each call for a
    key begins after the build of the call before it has settled, the
    first call builds and caches the index, and every later call finds
    it: one build runs, with the sorted list of the first call, and all
    callers get the same store. *)
Theorem sequential_calls_build_once (cache : gmap string MemoryVectorStore)
    (key : string) (urls : list string) (rest : list (list string)) :
  (forall r, r ∈ urls :: rest -> cacheKeyOf r = key) ->
  cache !! key = None ->
  let requests := urls :: rest in
  let p := run (start cache requests) (oneByOne (length requests)) in
  builds p = [sort urls]
  /\ vectorStoreCache p = <[ key := {| storeId := 0 |} ]> cache
  /\ (forall i, i < length requests ->
        resultOf p i = Some (Resolved {| storeId := 0 |})).
Proof.
  intros Hkey Hmiss. cbv zeta. unfold oneByOne, start.
  cbn [length seq flat_map app map run foldl step].
  assert (Hurls : join "|" (sort urls) = key) by (apply Hkey; left).
  assert (Hfirst :
            buildSettles 0 None
              (begin 0 {| vectorStoreCache := cache;
                          calls := NotStarted urls :: map NotStarted rest;
                          builds := [] |})
            = {| vectorStoreCache := <[ key := {| storeId := 0 |} ]> cache;
                 calls := Settled (sort urls) (Resolved {| storeId := 0 |})
                          :: map NotStarted rest;
                 builds := [sort urls] |}).
  { unfold begin. cbn [calls vectorStoreCache builds lookup list_lookup]. cbv zeta.
    rewrite Hurls, Hmiss. by unfold buildSettles. }
  rewrite Hfirst.
  pose proof (run_warm key {| storeId := 0 |} rest
                (<[ key := {| storeId := 0 |} ]> cache)
                [Settled (sort urls) (Resolved {| storeId := 0 |})] [sort urls]) as Hwarm.
  cbn [length app] in Hwarm. unfold run in Hwarm.
  rewrite Hwarm; [|intros; apply Hkey; by right|apply lookup_insert_eq].
  cbn [builds vectorStoreCache]. split; [done|]. split; [done|].
  intros i Hi. unfold resultOf. cbn [calls].
  destruct i as [|i]; [done|]. rewrite lookup_cons.
  change (map ?f rest) with (f <$> rest). rewrite list_lookup_fmap.
  destruct (rest !! i) as [r|] eqn:Hr; [done|].
  apply lookup_ge_None in Hr. lia.
Qed.

(** X29. Of overlapping builds the last to succeed stays in the cache.  When
    the calls for a key all begin before any build settles, and the
    build of call [j] settles last and succeeds, the cache holds the store
    of that build; every other caller whose build succeeded holds a
    different store, which is not the cached one. *)
Theorem last_settled_build_is_cached (cache : gmap string MemoryVectorStore)
    (key : string) (failure : nat -> option JsError)
    (requests : list (list string)) (order : list nat) (j : nat) :
  (forall urls, urls ∈ requests -> cacheKeyOf urls = key) ->
  cache !! key = None ->
  j < length requests ->
  j ∉ order ->
  failure j = None ->
  let p := run (start cache requests)
               (map Begin (seq 0 (length requests))
                ++ map (fun i => BuildSettles i (failure i)) (order ++ [j])) in
  vectorStoreCache p !! key = Some {| storeId := j |}
  /\ (forall i store, i <> j -> resultOf p i = Some (Resolved store) ->
        i ∈ order -> store = {| storeId := i |}
        /\ vectorStoreCache p !! key <> Some store).
Proof.
  intros Hkey Hmiss Hj Hnot Hok. cbv zeta.
  rewrite map_app, app_assoc, <- run_app. cbn [map run foldl step].
  rewrite <- run_app. unfold start.
  pose proof (run_begins key requests cache [] [] Hkey Hmiss) as Hbegin.
  cbn [app length] in Hbegin. rewrite Hbegin. clear Hbegin.
  match goal with |- context [run ?q (map _ order)] => set (p := q) end.
  destruct (run_settles key failure requests order p) as (Hb & Hl & Hres).
  { intros i urls Hi. left. subst p. cbn [calls].
    rewrite list_lookup_imap, Hi. reflexivity. }
  { subst p. cbn [calls]. by rewrite length_imap. }
  set (p' := run p (map (fun i => BuildSettles i (failure i)) order)) in *.
  destruct (lookup_lt_is_Some_2 requests j Hj) as [urls Hurls].
  assert (Hcall : calls p' !! j = Some (AwaitingBuild (sort urls) key j)).
  { destruct (Hres j urls Hurls) as [Hs|[_ Hsame]].
    - exfalso.
      assert (Hgen : forall q sched,
                (forall i f, BuildSettles i f ∈ sched -> i <> j) ->
                (forall i, Begin i ∉ sched) ->
                calls (run q sched) !! j = calls q !! j).
      { intros q sched. revert q.
        induction sched as [|s sched IH]; intros q Hs1 Hs2; [done|].
        cbn [run foldl]. unfold run in IH. rewrite IH.
        - destruct s as [i|i f]; [by destruct (Hs2 i); left|].
          cbn [step]. unfold buildSettles.
          assert (i <> j) by (apply (Hs1 i f); left).
          destruct (calls q !! i) as [[|us k b|]|]; try done.
          destruct f; cbn [calls]; by rewrite list_lookup_insert_ne.
        - intros i f Hin. apply (Hs1 i f). by right.
        - intros i Hin. apply (Hs2 i). by right. }
      subst p'. rewrite Hgen in Hs.
      + subst p. cbn [calls] in Hs. rewrite list_lookup_imap, Hurls in Hs. done.
      + intros i f (i' & [= -> ->] & Hin)%list_elem_of_fmap. by intros ->.
      + intros i (i' & [=] & _)%list_elem_of_fmap.
    - rewrite Hsame. subst p. cbn [calls]. by rewrite list_lookup_imap, Hurls. }
  unfold buildSettles. rewrite Hcall, Hok. cbn [vectorStoreCache calls].
  split; [apply lookup_insert_eq|].
  intros i store Hne Hresult Hin. unfold resultOf in Hresult. cbn [calls] in Hresult.
  rewrite list_lookup_insert_ne in Hresult by done.
  destruct (requests !! i) as [urls'|] eqn:Hi.
  - destruct (Hres i urls' Hi) as [Hs|[Hnotin _]]; [|done].
    rewrite Hs in Hresult. unfold ownResult in Hresult.
    destruct (failure i); [done|]. injection Hresult as <-.
    split; [done|]. rewrite lookup_insert_eq. intros [= H]. done.
  - apply lookup_ge_None in Hi.
    destruct (calls p' !! i) eqn:Hc; [|done].
    apply lookup_lt_Some in Hc. lia.
Qed.

End ScheduleProperties.

Section CoverageExamples.
Import JsString RagChain Server SampleQuestions Requests Runs Examples MoreExamples.

(** An instance: the first call builds for b, a; the second call, for
    a, b, gets the same store. *)
Lemma getOrCreateVectorStore_reuses_witness :
  let st := initState ∅ (JArray ba) in
  let st1 := (getOrCreateVectorStore (calm helpful) st).2 in
  let again := getOrCreateVectorStore (calm helpful) (set_urlsArray ab st1) in
  again.1 = Resolved {| storeId := 0 |}
  /\ vectorStoreCache again.2 = vectorStoreCache st1
  /\ buildsIn (trace again.2) = buildsIn (trace st1).
Proof.
  apply (getOrCreateVectorStore_reuses (calm helpful) (initState ∅ (JArray ba)) ab
           {| storeId := 0 |}).
  - apply perm_swap.
  - vm_compute. reflexivity.
Defined.

(** An instance: the fetch of the page fails. *)
Lemma getOrCreateVectorStore_failure_not_cached_witness :
  let st := initState ∅ (JArray ["https://example.com/a"]) in
  let st1 := (getOrCreateVectorStore (calm fetchFails) st).2 in
  let key := join "|" (sort (urlsArray st)) in
  RagChain.loadSplitEmbed fetchFails (sort (urlsArray st))
  = Rejected {| message := "network timeout at: https://example.com/a" |}
  /\ vectorStoreCache st1 = vectorStoreCache st
  /\ vectorStoreCache st1 !! key = None
  /\ buildsIn (trace (getOrCreateVectorStore (calm fetchFails) st1).2)
     = buildsIn (trace st1) ++ [sort (urlsArray st)].
Proof.
  apply (getOrCreateVectorStore_failure_not_cached (calm fetchFails)
           (initState ∅ (JArray ["https://example.com/a"]))
           {| message := "network timeout at: https://example.com/a" |}).
  vm_compute. reflexivity.
Defined.

(** An instance: the message is the number 42. *)
Lemma chat_non_string_message_500_witness :
  sent (postChat (calm helpful) numberMessage ∅)
  = [{| status := 500;
        body := BFailure "Failed to process message" "message.trim is not a function" |}].
Proof.
  apply (chat_non_string_message_500 (calm helpful) numberMessage ∅); reflexivity.
Defined.

(** An instance: a greeting in capitals with text after it. *)
Lemma every_greeting_short_circuits_witness :
  let st := postChat (calm helpful)
              {| chat_urls := JArray ["https://example.com/a"];
                 chat_message := JStr "  Good Morning everyone ";
                 chat_conversationHistory := None |} ∅ in
  exists canned,
    canned ∈ greetingResponses
    /\ sent st = [{| status := 200; body := BChat (MStr canned) [] |}]
    /\ trace st = []
    /\ vectorStoreCache st = ∅.
Proof.
  destruct (every_greeting_short_circuits (calm helpful) ["https://example.com/a"]
              "  Good Morning everyone " None ∅) as [_ H].
  - cbn. lia.
  - by vm_compute.
  - by vm_compute.
  - apply H. vm_compute. reflexivity.
Defined.

(** An instance: thanks, in capitals and with spaces around. *)
Lemma simple_phrase_short_circuits_witness :
  let st := postChat (calm helpful)
              {| chat_urls := JArray ["https://example.com/a"];
                 chat_message := JStr " Thank You ";
                 chat_conversationHistory := None |} ∅ in
  sent st = [{| status := 200;
                body := BChat (MStr "You're welcome! Feel free to ask if you have more questions.")
                              [] |}]
  /\ trace st = []
  /\ vectorStoreCache st = ∅.
Proof.
  apply (simple_phrase_short_circuits (calm helpful) ["https://example.com/a"]
           " Thank You " "You're welcome! Feel free to ask if you have more questions."
           None ∅).
  - cbn. lia.
  - vm_compute. reflexivity.
Defined.

(** An instance: the message is the word Constructor. *)
Lemma inherited_member_short_circuits_witness :
  let st := postChat (calm helpful)
              {| chat_urls := JArray ["https://example.com/a"];
                 chat_message := JStr "Constructor";
                 chat_conversationHistory := None |} ∅ in
  sent st = [{| status := 200; body := BChat (MInherited "constructor") [] |}]
  /\ trace st = []
  /\ vectorStoreCache st = ∅.
Proof.
  apply (inherited_member_short_circuits (calm helpful) ["https://example.com/a"]
           "Constructor" None ∅).
  - cbn. lia.
  - left. vm_compute. reflexivity.
Defined.


(** An instance: two chunks, both judged relevant. *)
Lemma documentGrader_grades_every_chunk_witness :
  docGrades (documentGrader helpful twoChunks).1
  = [("What is this about?", "alpha"); ("What is this about?", "beta")]
  /\ documents_of <$> resolved (documentGrader helpful twoChunks).2
     = Some [doc "alpha"; doc "beta"].
Proof.
  pose (result := match (documentGrader helpful twoChunks).2 with
                  | Resolved s => s
                  | Rejected _ => ∅
                  end).
  destruct (documentGrader_grades_every_chunk helpful twoChunks result) as (Hcalls & _ & _).
  - vm_compute. reflexivity.
  - split; [exact Hcalls|]. vm_compute. reflexivity.
Defined.

(** An instance: a node returns an empty answer for a state that has
    one. *)
Lemma applyUpdate_keeps_answer_witness :
  applyUpdate answered answered = answered
  /\ generatedAnswer_of (applyUpdate answered {[ "generatedAnswer" := VStr "" ]})
     = Some "It is about alpha.".
Proof.
  destruct (applyUpdate_keeps_answer answered {[ "generatedAnswer" := VStr "" ]}
              "It is about alpha.") as (Hsame & _ & Hkept).
  - reflexivity.
  - discriminate.
  - split; [exact Hsame|]. apply Hkept. reflexivity.
Defined.

(** An instance: the index of a, b is cached; the request names b, a. *)
Lemma warm_chat_never_builds_witness :
  let cache : gmap string MemoryVectorStore :=
    {[ "https://example.com/a|https://example.com/b" := {| storeId := 7 |} ]} in
  let st := postChat (calm helpful) (chat ba "What is this about?") cache in
  buildsIn (trace st) = [] /\ vectorStoreCache st = cache.
Proof.
  intros cache st.
  destruct (warm_chat_never_builds (calm helpful) (chat ba "What is this about?") cache
              ba "What is this about?" {| storeId := 7 |}) as (Hb & Hc & _).
  - apply reaches_question. cbn. lia.
  - vm_compute. reflexivity.
  - split; [exact Hb|exact Hc].
Defined.



(** An instance: the index is built and the retriever finds nothing. *)
Lemma chat_nothing_retrieved_witness :
  let st := postChat (calm nothingFound)
              (chat ["https://example.com/a"] "What is this about?") ∅ in
  sent st = [{| status := 200; body := BChat (MStr noAnswerFallback) [] |}]
  /\ externalCalls (trace st)
     = [CacheHas "https://example.com/a"; CacheHas "https://example.com/a";
        BuildVectorStore ["https://example.com/a"];
        CacheSet "https://example.com/a" {| storeId := 0 |};
        Retrieve {| storeId := 0 |} 10 "What is this about?"; CreateModel]
  /\ nodesRun (trace st) = ["retrieve_documents"; "create_model"; "grade_documents"].
Proof.
  destruct (chat_nothing_retrieved (calm nothingFound)
              (chat ["https://example.com/a"] "What is this about?") ∅
              ["https://example.com/a"] "What is this about?" {| storeId := 0 |})
    as (Hsent & Hcalls & Hnodes).
  - apply reaches_question. cbn. lia.
  - reflexivity.
  - reflexivity.
  - reflexivity.
  - reflexivity.
  - split; [exact Hsent|]. split; [exact Hcalls|exact Hnodes].
Defined.

(** An instance: a query for b, a and then a chat for a, b. *)
Lemma query_warms_chat_witness :
  let cache1 :=
    vectorStoreCache
      (postQuery (calm helpful)
         {| query_urls := JArray ba; query_question := JStr "What is this about?" |} ∅) in
  is_Some (cache1 !! join "|" (sort ba))
  /\ buildsIn (trace (postChat (calm helpful) (chat ab "What is this about?") cache1)) = []
  /\ vectorStoreCache (postChat (calm helpful) (chat ab "What is this about?") cache1)
     = cache1.
Proof.
  apply (query_warms_chat (calm helpful)
           {| query_urls := JArray ba; query_question := JStr "What is this about?" |}
           (chat ab "What is this about?") ∅ ba ab "What is this about?").
  - reflexivity.
  - vm_compute. reflexivity.
  - apply reaches_question. cbn. lia.
  - apply perm_swap.
Defined.

(** An instance: sample questions for b, a and then a chat for a, b. *)
Lemma sample_questions_warm_chat_witness :
  let run := postSampleQuestions (calm helpful) asks (JArray ba) ∅ in
  let cache1 := vectorStoreCache run.2 in
  cache1 !! join "|" (sort ba) = Some {| storeId := 0 |}
  /\ buildsIn (trace run.2) = [sort ba]
  /\ buildsIn (trace (postChat (calm helpful) (chat ab "What is this about?") cache1)) = []
  /\ vectorStoreCache (postChat (calm helpful) (chat ab "What is this about?") cache1)
     = cache1.
Proof.
  destruct (sample_questions_warm_chat (calm helpful) asks ba ab
              (chat ab "What is this about?") ∅ "What is this about?" {| storeId := 0 |})
    as (Hcached & Hbuilds & Hchat & Hsame).
  - cbn. lia.
  - reflexivity.
  - apply reaches_question. cbn. lia.
  - apply perm_swap.
  - split; [exact Hcached|]. split; [exact Hbuilds|]. split; [exact Hchat|exact Hsame].
Defined.

(** The parsing at two texts: blank and numbered lines are dropped and
    the others are trimmed; a text whose questions are all numbered
    leaves nothing, and the handler answers with its three default
    questions. *)
Lemma parseQuestions_examples :
  parseQuestions mixedLines = ["What is alpha?"; "Why?"]
  /\ parseQuestions numberedLines = []
  /\ (postSampleQuestions (calm helpful)
        {| newQuestionModel := Resolved tt;
           questionChain := fun _ => Resolved numberedLines |}
        (JArray ab) ∅).1
     = Resolved {| sampleStatus := 200; sampleBody := SQuestions defaultQuestions |}.
Proof. repeat split; vm_compute; reflexivity. Qed.

(** An instance: two calls for the same two URLs, one after the other. *)
Lemma sequential_calls_build_once_witness :
  let p := EventLoop.run (EventLoop.start ∅ [ab; ba]) (oneByOne 2) in
  EventLoop.builds p = [ab]
  /\ EventLoop.resultOf p 0 = Some (Resolved {| storeId := 0 |})
  /\ EventLoop.resultOf p 1 = Some (Resolved {| storeId := 0 |}).
Proof.
  intros p.
  destruct (sequential_calls_build_once ∅ "https://example.com/a|https://example.com/b"
              ab [ba]) as (Hb & _ & Hres).
  - intros urls Hin. repeat (apply elem_of_cons in Hin as [-> | Hin]);
      [by vm_compute..|by apply elem_of_nil in Hin].
  - reflexivity.
  - split; [exact Hb|]. split; apply Hres; cbn; lia.
Defined.

(** An instance: two overlapping calls; the build of the second settles
    first, the build of the first settles last and stays cached. *)
Lemma last_settled_build_is_cached_witness :
  let p := EventLoop.run (EventLoop.start ∅ [ab; ba])
             (map EventLoop.Begin (seq 0 2)
              ++ map (fun i => EventLoop.BuildSettles i None) ([1] ++ [0])) in
  EventLoop.vectorStoreCache p !! "https://example.com/a|https://example.com/b"
  = Some {| storeId := 0 |}
  /\ EventLoop.resultOf p 1 = Some (Resolved {| storeId := 1 |}).
Proof.
  intros p.
  destruct (last_settled_build_is_cached ∅ "https://example.com/a|https://example.com/b"
              (fun _ => None) [ab; ba] [1] 0) as (Hcache & _).
  - intros urls Hin. repeat (apply elem_of_cons in Hin as [-> | Hin]);
      [by vm_compute..|by apply elem_of_nil in Hin].
  - reflexivity.
  - cbn. lia.
  - apply (bool_decide_unpack _). vm_compute. exact I.
  - reflexivity.
  - split; [exact Hcache|]. vm_compute. reflexivity.
Defined.

End CoverageExamples.
